(** * The Mish golden-data generator ([scripts/gen_data.py])

    A shallow embedding of [gen_golden_data_simple] and of the part of the
    array library it calls: float64 sampling, the cast to half precision,
    the elementwise ufuncs, and [tofile], with the file system that
    [tofile] opens and writes its file in.

    Array elements are kept as raw bit patterns (a float16 element is a
    16-bit integer, a float64 element a 64-bit one), decoded to
    [spec_float] whenever arithmetic is done on them. *)

From Stdlib Require Import ZArith List Bool Lia String Ascii Strings.Byte.
From Stdlib Require Import Reals Lra QArith Qreals Qpower.
From Stdlib Require Import Floats.SpecFloat.
From stdpp Require Import base option list gmap strings.

Local Open Scope Z_scope.

(** ** IEEE 754 interchange formats *)

Module Fmt.

Record format := { ebits : Z; mbits : Z }.

Definition binary16 : format := {| ebits := 5; mbits := 10 |}.
Definition binary64 : format := {| ebits := 11; mbits := 52 |}.

Definition prec (f : format) : Z := mbits f + 1.
Definition emax (f : format) : Z := 2 ^ (ebits f - 1).
Definition bias (f : format) : Z := emax f - 1.

Definition sign_bit (f : format) (s : bool) : Z :=
  if s then 2 ^ (ebits f + mbits f) else 0.

(** Bit pattern to value: sign, biased exponent field, fraction field. *)
Definition decode (f : format) (b : Z) : spec_float :=
  let s := Z.testbit b (ebits f + mbits f) in
  let ef := Z.land (Z.shiftr b (mbits f)) (Z.ones (ebits f)) in
  let mf := Z.land b (Z.ones (mbits f)) in
  if ef =? 0 then
    if mf =? 0 then S754_zero s
    else S754_finite s (Z.to_pos mf) (emin (prec f) (emax f))
  else if ef =? Z.ones (ebits f) then
    if mf =? 0 then S754_infinity s else S754_nan
  else S754_finite s (Z.to_pos (mf + 2 ^ mbits f)) (ef - bias f - mbits f).

(** Value to bit pattern.  [spec_float] has one NaN; it is stored as the
    quiet NaN with a clear sign bit, whereas hardware may set the sign
    bit of the NaN an invalid operation gives.  No theorem below is about
    a NaN: the generator never produces one. *)
Definition encode (f : format) (x : spec_float) : Z :=
  match x with
  | S754_zero s => sign_bit f s
  | S754_infinity s => sign_bit f s + Z.shiftl (Z.ones (ebits f)) (mbits f)
  | S754_nan => Z.shiftl (Z.ones (ebits f)) (mbits f) + 2 ^ (mbits f - 1)
  | S754_finite s m e =>
      if 2 ^ mbits f <=? Z.pos m
      then sign_bit f s + Z.shiftl (e + bias f + mbits f) (mbits f)
           + (Z.pos m - 2 ^ mbits f)
      else sign_bit f s + Z.pos m
  end.

(** Rounding of a value to format [f], to nearest, ties to even. *)
Definition round_to (f : format) (x : spec_float) : spec_float :=
  match x with
  | S754_finite s m e =>
      binary_normalize (prec f) (emax f) (cond_Zopp s (Z.pos m)) e s
  | _ => x
  end.

Definition of_int (f : format) (n : Z) : spec_float :=
  binary_normalize (prec f) (emax f) n 0 false.

Definition add (f : format) (a b : Z) : Z :=
  encode f (SFadd (prec f) (emax f) (decode f a) (decode f b)).

Definition mul (f : format) (a b : Z) : Z :=
  encode f (SFmul (prec f) (emax f) (decode f a) (decode f b)).

Definition convert (f1 f2 : format) (b : Z) : Z :=
  encode f2 (round_to f2 (decode f1 b)).

Definition is_finite (x : spec_float) : bool :=
  match x with
  | S754_zero _ | S754_finite _ _ _ => true
  | _ => false
  end.

End Fmt.

(** ** Arrays *)

(** The two element types the script meets: [np.random.uniform] returns
    float64, and the script casts to float16.  Arrays of other element
    types (integers, booleans, objects) are outside this model. *)
Inductive dtype := float16 | float64.

Definition dtype_eqb (a b : dtype) : bool :=
  match a, b with
  | float16, float16 | float64, float64 => true
  | _, _ => false
  end.

Definition format_of (d : dtype) : Fmt.format :=
  match d with
  | float16 => Fmt.binary16
  | float64 => Fmt.binary64
  end.

Definition itemsize (d : dtype) : nat :=
  match d with
  | float16 => 2
  | float64 => 8
  end.

(** An [ndarray]: element type, shape, and the element buffer in row-major
    (C) order. *)
Record ndarray := mk_ndarray
  { arr_dtype : dtype; arr_shape : list nat; arr_data : list Z }.

Definition numel (s : list nat) : nat := fold_right Nat.mul 1%nat s.

(** ** Exceptions, the world, and the monad of Python statements *)

(** The [OSError]s of [open], with the path given to it, and the one
    [tofile] raises when fewer items are written than asked. *)
Inductive exn :=
| FileNotFoundError (path : string)
| NotADirectoryError (path : string)
| IsADirectoryError (path : string)
| PermissionError (path : string)
| OSError (requested written : nat)
| ValueError.

(** What the process may do with a directory: look names up in it, and
    add names to it. *)
Record dir_mode := mk_dir_mode { d_search : bool; d_write : bool }.

(** The state a run can read and change: the global bit generator behind
    [np.random] (the stream of 32-bit words it will output next), and the
    file system, which holds directories and regular files, named by
    their paths from the working directory ["."]:
    - [fs_dirs]: the directories, with the rights of the process on them;
    - [fs_files]: the regular files, with their contents;
    - [fs_readonly]: the regular files the process may not write;
    - [fs_new_writable]: whether the process may write a file it has
      created, once it has closed it (the umask decides);
    - [fs_limit]: for a path, the number of bytes the device takes when
      the file is written (a full disk, a quota, a file size limit); no
      entry means no limit.
    Rights are those the process has in effect.  Links, special files and
    other processes are outside this model. *)
Record world := mk_world
  { bitgen : nat -> Z;
    fs_dirs : gmap string dir_mode;
    fs_files : gmap string (list byte);
    fs_readonly : gset string;
    fs_new_writable : bool;
    fs_limit : gmap string nat }.

Definition set_bitgen (g : nat -> Z) (w : world) : world :=
  mk_world g (fs_dirs w) (fs_files w) (fs_readonly w) (fs_new_writable w)
    (fs_limit w).

Definition set_contents (path : string) (bs : list byte) (w : world) : world :=
  mk_world (bitgen w) (fs_dirs w) (<[path := bs]> (fs_files w)) (fs_readonly w)
    (fs_new_writable w) (fs_limit w).

Definition py (A : Type) : Type := world -> (exn + A) * world.

Definition ret {A} (a : A) : py A := fun w => (inr a, w).

Definition raise {A} (e : exn) : py A := fun w => (inl e, w).

Definition bind {A B} (c : py A) (k : A -> py B) : py B :=
  fun w =>
    match c w with
    | (inl e, w') => (inl e, w')
    | (inr a, w') => k a w'
    end.

(** A pure computation that may raise. *)
Definition try {A} (r : exn + A) : py A :=
  match r with
  | inl e => raise e
  | inr a => ret a
  end.

Notation "'do' x <- c1 ; c2" := (bind c1 (fun x => c2))
  (at level 10, x name, c1 at level 100, c2 at level 200).

(** ** The array library *)

Module np.

(** *** Sampling

    The legacy global generator: a double in [0, 1) is made from two
    32-bit outputs [w1] and [w2] of the bit generator, as
    [((w1 >> 5) * 2^26 + (w2 >> 6)) / 2^53], an exact value; [uniform]
    scales it as [low + (high - low) * u], in double precision. *)

Definition next_double (w1 w2 : Z) : spec_float :=
  let a := Z.shiftr (w1 mod 2 ^ 32) 5 in
  let b := Z.shiftr (w2 mod 2 ^ 32) 6 in
  binary_normalize 53 1024 (a * 67108864 + b) (-53) false.

Definition random_uniform (lower range u : spec_float) : spec_float :=
  SFadd 53 1024 lower (SFmul 53 1024 range u).

Definition draw (lower range : spec_float) (g : nat -> Z) (i : nat) : Z :=
  Fmt.encode Fmt.binary64
    (random_uniform lower range (next_double (g (2 * i)%nat) (g (2 * i + 1)%nat))).

Definition uniform (low high : Z) (size : list nat) : py ndarray :=
  fun w =>
    let lower := Fmt.of_int Fmt.binary64 low in
    let range := SFsub 53 1024 (Fmt.of_int Fmt.binary64 high) lower in
    let n := numel size in
    (inr (mk_ndarray float64 size (map (draw lower range (bitgen w)) (seq 0 n))),
     set_bitgen (fun i => bitgen w (2 * n + i)%nat) w).

(** *** Casting *)

Definition cast (from to : dtype) (b : Z) : Z :=
  if dtype_eqb from to then b
  else Fmt.convert (format_of from) (format_of to) b.

Definition astype (a : ndarray) (d : dtype) : ndarray :=
  mk_ndarray d (arr_shape a) (map (cast (arr_dtype a) d) (arr_data a)).

(** *** Broadcasting *)

Definition broadcast_dim (d1 d2 : nat) : option nat :=
  if (d1 =? d2)%nat then Some d1
  else if (d1 =? 1)%nat then Some d2
  else if (d2 =? 1)%nat then Some d1
  else None.

(** Shapes are aligned on their last dimension: the recursion runs on the
    reversed shapes. *)
Fixpoint broadcast_rev (s1 s2 : list nat) : option (list nat) :=
  match s1, s2 with
  | [], s | s, [] => Some s
  | d1 :: r1, d2 :: r2 =>
      match broadcast_dim d1 d2, broadcast_rev r1 r2 with
      | Some d, Some r => Some (d :: r)
      | _, _ => None
      end
  end.

Definition broadcast_shapes (s1 s2 : list nat) : option (list nat) :=
  match broadcast_rev (rev s1) (rev s2) with
  | Some r => Some (rev r)
  | None => None
  end.

(** [chunks c n l]: the first [c] consecutive blocks of [n] elements. *)
Fixpoint chunks (c n : nat) (l : list Z) : list (list Z) :=
  match c with
  | O => []
  | S c' => firstn n l :: chunks c' n (skipn n l)
  end.

(** The buffer of an array of shape [src] read at shape [dst], where the
    two shapes have the same rank: a dimension of extent 1 is repeated. *)
Fixpoint stretch (src dst : list nat) (l : list Z) : list Z :=
  match src, dst with
  | s :: src', d :: dst' =>
      if (s =? d)%nat
      then concat (map (stretch src' dst') (chunks d (numel src') l))
      else concat (repeat (stretch src' dst' l) d)
  | _, _ => l
  end.

Definition broadcast_to (src dst : list nat) (l : list Z) : list Z :=
  stretch (repeat 1%nat (length dst - length src) ++ src) dst l.

(** *** Universal functions *)

(** Python's [int] is a weak scalar: it takes the dtype of the array
    operand. *)
Definition int_scalar (d : dtype) (n : Z) : ndarray :=
  mk_ndarray d [] [Fmt.encode (format_of d) (Fmt.of_int (format_of d) n)].

Definition result_type (d1 d2 : dtype) : dtype :=
  match d1, d2 with
  | float16, float16 => float16
  | _, _ => float64
  end.

Definition unary (loop : dtype -> Z -> Z) (a : ndarray) : ndarray :=
  mk_ndarray (arr_dtype a) (arr_shape a) (map (loop (arr_dtype a)) (arr_data a)).

Definition binary (loop : dtype -> Z -> Z -> Z) (a b : ndarray) : exn + ndarray :=
  match broadcast_shapes (arr_shape a) (arr_shape b) with
  | None => inl ValueError
  | Some s =>
      let d := result_type (arr_dtype a) (arr_dtype b) in
      let xs := broadcast_to (arr_shape a) s (map (cast (arr_dtype a) d) (arr_data a)) in
      let ys := broadcast_to (arr_shape b) s (map (cast (arr_dtype b) d) (arr_data b)) in
      inr (mk_ndarray d s (zip_with (loop d) xs ys))
  end.

Definition add_loop (d : dtype) : Z -> Z -> Z := Fmt.add (format_of d).
Definition multiply_loop (d : dtype) : Z -> Z -> Z := Fmt.mul (format_of d).

Definition add : ndarray -> ndarray -> exn + ndarray := binary add_loop.
Definition multiply : ndarray -> ndarray -> exn + ndarray := binary multiply_loop.

(** [n + a] for a Python integer [n]. *)
Definition radd (n : Z) (a : ndarray) : exn + ndarray :=
  add (int_scalar (arr_dtype a) n) a.

(** *** Raw output *)

Definition byte_of_Z (z : Z) : byte :=
  match Byte.of_N (Z.to_N z) with
  | Some b => b
  | None => x00
  end.

(** Little-endian bytes of an [n]-byte element. *)
Fixpoint le_bytes (n : nat) (z : Z) : list byte :=
  match n with
  | O => []
  | S n' => byte_of_Z (Z.land z 255) :: le_bytes n' (Z.shiftr z 8)
  end.

Definition tobytes (a : ndarray) : list byte :=
  concat (map (le_bytes (itemsize (arr_dtype a))) (arr_data a)).

(** The directory part of a path: what precedes its last slash. *)
Fixpoint drop_to_slash (l : list ascii) : list ascii :=
  match l with
  | [] => []
  | c :: l' => if Ascii.eqb c "/"%char then l' else drop_to_slash l'
  end.

Definition dirname (path : string) : string :=
  string_of_list_ascii (rev (drop_to_slash (rev (list_ascii_of_string path)))).

(** The directories on the way to a path: [.], [./a] and [./a/b] for
    [./a/b/c]. *)
Fixpoint prefixes (seen rest : list ascii) : list string :=
  match rest with
  | [] => []
  | c :: rest' =>
      if Ascii.eqb c "/"%char
      then string_of_list_ascii (rev seen) :: prefixes (c :: seen) rest'
      else prefixes (c :: seen) rest'
  end.

Definition parents (path : string) : list string :=
  prefixes [] (list_ascii_of_string path).

(** Looking the path up: each directory on the way must exist, be a
    directory, and be searchable. *)
Fixpoint walk (w : world) (path : string) (ds : list string) : option exn :=
  match ds with
  | [] => None
  | d :: ds' =>
      match fs_dirs w !! d with
      | Some m => if d_search m then walk w path ds' else Some (PermissionError path)
      | None =>
          match fs_files w !! d with
          | Some _ => Some (NotADirectoryError path)
          | None => Some (FileNotFoundError path)
          end
      end
  end.

(** Why [open(path, 'wb')] fails, when it does: the lookup fails; the
    path names a directory; it names a file the process may not write; or
    it names nothing and the process may not add a name to the
    directory. *)
Definition open_error (w : world) (path : string) : option exn :=
  match walk w path (parents path) with
  | Some e => Some e
  | None =>
      match fs_dirs w !! path with
      | Some _ => Some (IsADirectoryError path)
      | None =>
          match fs_files w !! path with
          | Some _ =>
              if bool_decide (path ∈ fs_readonly w)
              then Some (PermissionError path) else None
          | None =>
              match fs_dirs w !! dirname path with
              | Some m => if d_write m then None else Some (PermissionError path)
              | None => Some (FileNotFoundError path)
              end
          end
      end
  end.

(** The file system once [open(path, 'wb')] has succeeded: the file is
    empty, and a file that was not there has been created, with the
    rights new files get. *)
Definition truncated (path : string) (w : world) : world :=
  mk_world (bitgen w) (fs_dirs w) (<[path := []]> (fs_files w))
    (match fs_files w !! path with
     | Some _ => fs_readonly w
     | None => if fs_new_writable w then fs_readonly w ∖ {[path]}
               else {[path]} ∪ fs_readonly w
     end)
    (fs_new_writable w) (fs_limit w).

Definition open_wb (path : string) : py unit :=
  fun w =>
    match open_error w path with
    | Some e => (inl e, w)
    | None => (inr tt, truncated path w)
    end.

(** The bytes of the buffer that reach the file. *)
Definition accepted (w : world) (path : string) (bs : list byte) : list byte :=
  match fs_limit w !! path with
  | Some k => take k bs
  | None => bs
  end.

(** Writing the buffer of [a] to the open file: when fewer items than
    asked are written, [tofile] raises an [OSError] that tells both
    numbers, and the file keeps what was written. *)
Definition fwrite (a : ndarray) (path : string) : py unit :=
  fun w =>
    let bs := accepted w path (tobytes a) in
    let w' := set_contents path bs w in
    if (length bs <? length (tobytes a))%nat
    then (inl (OSError (length (arr_data a)) (length bs / itemsize (arr_dtype a))), w')
    else (inr tt, w').

(** [a.tofile(path)]: [open(path, 'wb')], then the write of the element
    buffer. *)
Definition tofile (a : ndarray) (path : string) : py unit :=
  do _ <- open_wb path;
  fwrite a path.

(** Why [a.tofile(path)] fails in [w], when it does. *)
Definition tofile_error (w : world) (a : ndarray) (path : string) : option exn :=
  match open_error w path with
  | Some e => Some e
  | None =>
      if (length (accepted w path (tobytes a)) <? length (tobytes a))%nat
      then Some (OSError (length (arr_data a))
                   (length (accepted w path (tobytes a)) / itemsize (arr_dtype a)))
      else None
  end.

End np.

(** ** The script *)

Section Generator.

(** The inner loops of [np.exp], [np.log] and [np.tanh] belong to the
    platform's numeric library: one function on bit patterns per dtype. *)
Variables exp_loop log_loop tanh_loop : dtype -> Z -> Z.

Definition np_exp : ndarray -> ndarray := np.unary exp_loop.
Definition np_log : ndarray -> ndarray := np.unary log_loop.
Definition np_tanh : ndarray -> ndarray := np.unary tanh_loop.

Definition input_path : string := "./AclNNInvocation/input/input_x.bin".
Definition golden_path : string := "./AclNNInvocation/output/golden.bin".

(** [input_x*np.tanh(np.log(1+np.exp(input_x)))] *)
Definition mish (input_x : ndarray) : exn + ndarray :=
  match np.radd 1 (np_exp input_x) with
  | inl e => inl e
  | inr s => np.multiply input_x (np_tanh (np_log s))
  end.

Definition gen_golden_data_simple : py unit :=
  do u <- np.uniform 1 10 [8; 2048]%nat;
  let input_x := np.astype u float16 in
  do golden <- try (mish input_x);
  do _ <- np.tofile input_x input_path;
  np.tofile golden golden_path.

(** The module body after the definition: the call under the
    [__name__ == "__main__"] guard. *)
Definition script (name : string) : py unit :=
  if String.eqb name "__main__" then gen_golden_data_simple else ret tt.

(** The value bound to [input_x] in a run started in world [w]. *)
Definition input_x_of (w : world) : ndarray :=
  match fst (np.uniform 1 10 [8; 2048]%nat w) with
  | inr u => np.astype u float16
  | inl _ => mk_ndarray float16 [] []
  end.

(** The value bound to [golden], or the exception raised on the way. *)
Definition golden_of (w : world) : exn + ndarray := mish (input_x_of w).

(** The world once the two arrays are computed: only the bit generator
    has moved. *)
Definition sampled (w : world) : world :=
  snd (np.uniform 1 10 [8; 2048]%nat w).

(** Element [i] of [input_x], from the words of the bit generator. *)
Definition sample16 (g : nat -> Z) (i : nat) : Z :=
  np.cast float64 float16
    (np.draw (Fmt.of_int Fmt.binary64 1)
       (SFsub 53 1024 (Fmt.of_int Fmt.binary64 10) (Fmt.of_int Fmt.binary64 1))
       g i).

(** The half-precision Mish of one element, operation by operation. *)
Definition mish16 (x : Z) : Z :=
  Fmt.mul Fmt.binary16 x
    (tanh_loop float16
       (log_loop float16
          (Fmt.add Fmt.binary16
             (Fmt.encode Fmt.binary16 (Fmt.of_int Fmt.binary16 1))
             (exp_loop float16 x)))).

End Generator.

(** ** The file system after a write *)

(** The file system once [bs] has been written to [path], opened for
    writing in [w]. *)
Definition written (path : string) (bs : list byte) (w : world) : world :=
  set_contents path bs (np.truncated path w).

(** The process may write the file at [p], or create it: the file is
    there and is not read-only, or it is not there and names may be added
    to its directory. *)
Definition target_writable (w : world) (p : string) : Prop :=
  match fs_files w !! p with
  | Some _ => p ∉ fs_readonly w
  | None => exists m, fs_dirs w !! np.dirname p = Some m /\ d_write m = true
  end.

(** ** Half-precision values *)

Definition half_le (a b : Z) : bool :=
  SFleb (Fmt.decode Fmt.binary16 a) (Fmt.decode Fmt.binary16 b).

Definition half_lt (a b : Z) : bool :=
  SFltb (Fmt.decode Fmt.binary16 a) (Fmt.decode Fmt.binary16 b).

Definition half_finite (a : Z) : bool :=
  Fmt.is_finite (Fmt.decode Fmt.binary16 a).

Definition half_of_int (n : Z) : Z :=
  Fmt.encode Fmt.binary16 (Fmt.of_int Fmt.binary16 n).

(** The exact value of a number, as a rational ([0] for what has none). *)
Definition SF2Q (x : spec_float) : Q :=
  match x with
  | S754_finite s m e => (inject_Z (cond_Zopp s (Z.pos m)) * Qpower 2 e)%Q
  | _ => 0%Q
  end.

Definition value (f : Fmt.format) (b : Z) : R := Q2R (SF2Q (Fmt.decode f b)).

(** The largest bit pattern of a finite number; the patterns from [0] to
    it are the non-negative finite numbers, in increasing order. *)
Definition max_finite (f : Fmt.format) : Z :=
  (2 * Fmt.emax f - 1) * 2 ^ Fmt.mbits f - 1.

(** ** Accuracy of the numeric library

    What is asked of an inner loop computing [F]: whenever the exact
    result lies between two non-negative finite numbers of the format, so
    does the computed one.  Rounding to nearest does that, and so does any
    faithful rounding. *)
Definition faithful (f : Fmt.format) (F : R -> R) (loop : Z -> Z) : Prop :=
  forall x lo hi : Z,
    0 < x <= max_finite f ->
    0 <= lo <= max_finite f ->
    0 <= hi <= max_finite f ->
    (value f lo <= F (value f x) <= value f hi)%R ->
    lo <= loop x <= hi.

(** A library that meets it: the largest non-negative finite number that
    is not above the exact result (zero when there is none), found by a
    search from the largest finite number down. *)
Fixpoint floor_from (f : Fmt.format) (n : nat) (r : R) : Z :=
  match n with
  | O => 0
  | S k =>
      if Rle_dec (value f (Z.of_nat (S k))) r then Z.of_nat (S k)
      else floor_from f k r
  end.

Definition ref_loop (F : R -> R) (d : dtype) (x : Z) : Z :=
  floor_from (format_of d) (Z.to_nat (max_finite (format_of d)))
    (F (value (format_of d) x)).

(** Another library that meets the accuracy asked: the finite number
    nearest to the exact result, a tie going to the even pattern, as the
    default rounding of IEEE 754 does. *)
Definition near_loop (F : R -> R) (d : dtype) (x : Z) : Z :=
  let f := format_of d in
  let r := F (value f x) in
  let h := floor_from f (Z.to_nat (max_finite f)) r in
  if h <? max_finite f then
    if Rlt_dec (value f h + value f (h + 1)) (2 * r) then h + 1
    else if Rlt_dec (2 * r) (value f h + value f (h + 1)) then h
    else if Z.even h then h else h + 1
  else h.

(** ** Mish in half precision *)

(** The Mish function on real numbers: [x * tanh (ln (1 + exp x))]. *)
Definition mish_exact (x : R) : R := (x * tanh (ln (1 + exp x)))%R.

(** [z] is a rounding of the real number [r] to the format: a
    non-negative finite number that no number of the format separates
    from [r].  When [r] is a number of the format, [z] is that number;
    otherwise it is one of its two neighbours. *)
Definition rounds (f : Fmt.format) (r : R) (z : Z) : Prop :=
  0 <= z <= max_finite f /\
  forall lo hi : Z,
    0 <= lo <= max_finite f -> 0 <= hi <= max_finite f ->
    (value f lo <= r <= value f hi)%R -> lo <= z <= hi.

(** [g] is a Mish of [x] computed in half precision: each operation is
    done on the exact values of half-precision operands and its result
    is rounded to half precision. *)
Definition mish_steps (x g : Z) : Prop :=
  exists e s l t : Z,
    rounds Fmt.binary16 (exp (value Fmt.binary16 x)) e /\
    rounds Fmt.binary16 (1 + value Fmt.binary16 e) s /\
    rounds Fmt.binary16 (ln (value Fmt.binary16 s)) l /\
    rounds Fmt.binary16 (tanh (value Fmt.binary16 l)) t /\
    rounds Fmt.binary16 (value Fmt.binary16 x * value Fmt.binary16 t) g.

(** ** Auxiliary definitions for the proofs *)

(** A property checked on the [n] integers from [lo] on. *)
Fixpoint all_from (P : Z -> bool) (lo : Z) (n : nat) : bool :=
  match n with
  | O => true
  | S k => P lo && all_from P (lo + 1) k
  end.

(** Order on dyadic numbers [m * 2^e], by cross-scaling. *)
Definition dle (m1 e1 m2 e2 : Z) : Prop :=
  m1 * 2 ^ (e1 - Z.min e1 e2) <= m2 * 2 ^ (e2 - Z.min e1 e2).

Definition dleb (m1 e1 m2 e2 : Z) : bool :=
  m1 * 2 ^ (e1 - Z.min e1 e2) <=? m2 * 2 ^ (e2 - Z.min e1 e2).

(** A positive finite half-precision pattern: its number is valid, lies
    between two dyadic bounds, and its value between two rationals. *)
Definition in_box (ml el mh eh : Z) (ql qh : Q) (b : Z) : bool :=
  match Fmt.decode Fmt.binary16 b with
  | S754_finite false m e =>
      bounded 11 16 m e && dleb ml el (Z.pos m) e && dleb (Z.pos m) e mh eh
      && Qle_bool ql (SF2Q (S754_finite false m e))
      && Qle_bool (SF2Q (S754_finite false m e)) qh
  | _ => false
  end.

(** The shifted mantissa is the quotient, and the round and sticky bits
    are clear when the division is exact. *)
Definition shr_inv (m0 k : Z) (r : shr_record) : Prop :=
  shr_m r = m0 / 2 ^ k /\
  (m0 mod 2 ^ k = 0 -> shr_r r = false /\ shr_s r = false).

(** What [binary_round_aux] returns for the rounded mantissa [mr] at
    exponent [e1]. *)
Definition finish (prec emax : Z) (mr e1 : Z) : spec_float :=
  if mr =? 0 then S754_zero false
  else if mr <? 2 ^ prec then
    if e1 <=? emax - prec then S754_finite false (Z.to_pos mr) e1
    else S754_infinity false
  else
    if e1 + 1 <=? emax - prec then S754_finite false (Z.to_pos (mr / 2)) (e1 + 1)
    else S754_infinity false.

(** The doubles 1.0, 9.0 and 10.0: [low], [high - low] and [high] of the
    sampling. *)
Definition one64 : spec_float := S754_finite false 4503599627370496 (-52).
Definition nine64 : spec_float := S754_finite false 5066549580791808 (-49).
Definition ten64 : spec_float := S754_finite false 5629499534213120 (-49).

(** ** Worlds and libraries the statements are tried on *)

Definition rwx : dir_mode := mk_dir_mode true true.
Definition r_x : dir_mode := mk_dir_mode true false.

(** The working directory with the two target directories, all of them
    searchable and writable. *)
Definition ready_dirs : gmap string dir_mode :=
  {[ "."%string := rwx;
     "./AclNNInvocation"%string := rwx;
     "./AclNNInvocation/input"%string := rwx;
     "./AclNNInvocation/output"%string := rwx ]}.

Definition world_ready : world :=
  mk_world (fun _ => 0) ready_dirs ∅ ∅ true ∅.

(** The bit generator outputs 0xFFF00000 forever: every draw is close
    below 10. *)
Definition world_high : world :=
  mk_world (fun _ => 4293918720) ready_dirs ∅ ∅ true ∅.

(** The output directory is missing. *)
Definition world_no_output : world :=
  mk_world (fun _ => 0)
    {[ "."%string := rwx;
       "./AclNNInvocation"%string := rwx;
       "./AclNNInvocation/input"%string := rwx ]}
    ∅ ∅ true ∅.

(** A golden file is around from before, and may not be written. *)
Definition world_locked_golden : world :=
  mk_world (fun _ => 0) ready_dirs
    {[ "./AclNNInvocation/output/golden.bin"%string := [x00; x3c] ]}
    {[ "./AclNNInvocation/output/golden.bin"%string ]} true ∅.

(** As [world_ready] for the words a run consumes, different after, and
    with a stale input file around. *)
Definition world_late : world :=
  mk_world (fun i => if Z.of_nat i <? 40000 then 0 else 1) ready_dirs
    {[ "./AclNNInvocation/input/input_x.bin"%string := [x00; x3c] ]}
    ∅ true ∅.

(** The input directory is missing; a golden file is around from
    before. *)
Definition world_no_input : world :=
  mk_world (fun _ => 0)
    {[ "."%string := rwx;
       "./AclNNInvocation"%string := rwx;
       "./AclNNInvocation/output"%string := rwx ]}
    {[ "./AclNNInvocation/output/golden.bin"%string := [x00; x3c] ]}
    ∅ true ∅.

(** Both target directories are read-only, and both files are around
    from before, writable. *)
Definition world_readonly_dirs : world :=
  mk_world (fun _ => 0)
    {[ "."%string := rwx;
       "./AclNNInvocation"%string := rwx;
       "./AclNNInvocation/input"%string := r_x;
       "./AclNNInvocation/output"%string := r_x ]}
    {[ "./AclNNInvocation/input/input_x.bin"%string := [x00; x3c];
       "./AclNNInvocation/output/golden.bin"%string := [x00; x3c] ]}
    ∅ true ∅.

(** New files come out read-only (a umask that clears the write bits). *)
Definition world_umask : world :=
  mk_world (fun _ => 0) ready_dirs ∅ ∅ false ∅.

(** The device takes 16,384 bytes of each file. *)
Definition world_full : world :=
  mk_world (fun _ => 0) ready_dirs ∅ ∅ true
    {[ "./AclNNInvocation/input/input_x.bin"%string := Z.to_nat 16384;
       "./AclNNInvocation/output/golden.bin"%string := Z.to_nat 16384 ]}.


Definition ref_exp : dtype -> Z -> Z := ref_loop exp.
Definition ref_log : dtype -> Z -> Z := ref_loop ln.
Definition ref_tanh : dtype -> Z -> Z := ref_loop tanh.

Definition near_exp : dtype -> Z -> Z := near_loop exp.
Definition near_log : dtype -> Z -> Z := near_loop ln.
Definition near_tanh : dtype -> Z -> Z := near_loop tanh.

(** ** Broadcasting *)

Module np_facts.

Lemma broadcast_dim_same d : np.broadcast_dim d d = Some d.
Proof. unfold np.broadcast_dim. by rewrite Nat.eqb_refl. Qed.

Lemma broadcast_rev_same s : np.broadcast_rev s s = Some s.
Proof.
  induction s as [|d s IH]; [done|].
  simpl. by rewrite broadcast_dim_same, IH.
Qed.

Lemma broadcast_shapes_same s : np.broadcast_shapes s s = Some s.
Proof.
  unfold np.broadcast_shapes.
  by rewrite broadcast_rev_same, rev_involutive.
Qed.

Lemma broadcast_shapes_scalar s : np.broadcast_shapes [] s = Some s.
Proof.
  unfold np.broadcast_shapes. simpl. by rewrite rev_involutive.
Qed.

Lemma numel_ones k : numel (repeat 1%nat k) = 1%nat.
Proof. induction k as [|k IH]; simpl; [done|]. rewrite IH. done. Qed.

Lemma concat_repeat_repeat (x : Z) n d :
  concat (repeat (repeat x n) d) = repeat x (d * n).
Proof.
  induction d as [|d IH]; simpl; [done|].
  by rewrite IH, repeat_app.
Qed.

Lemma stretch_scalar x dst :
  np.stretch (repeat 1%nat (length dst)) dst [x] = repeat x (numel dst).
Proof.
  induction dst as [|d dst IH]; [done|].
  cbn [length repeat np.stretch numel fold_right].
  fold (numel dst).
  destruct (1 =? d)%nat eqn:E.
  - apply Nat.eqb_eq in E. subst d.
    rewrite numel_ones. cbn [np.chunks map concat firstn].
    rewrite IH, app_nil_r. f_equal. lia.
  - rewrite IH. apply concat_repeat_repeat.
Qed.

Lemma broadcast_to_scalar x dst :
  np.broadcast_to [] dst [x] = repeat x (numel dst).
Proof.
  unfold np.broadcast_to. cbn [length].
  rewrite Nat.sub_0_r, app_nil_r. apply stretch_scalar.
Qed.

Lemma chunks_concat c n l :
  concat (np.chunks c n l) = firstn (c * n) l.
Proof.
  revert l. induction c as [|c IH]; intros l; simpl; [done|].
  rewrite IH. apply take_take_drop.
Qed.

Lemma chunks_length c n l :
  (c * n <= length l)%nat ->
  Forall (fun b => length b = n) (np.chunks c n l).
Proof.
  revert l. induction c as [|c IH]; intros l H; simpl; constructor.
  - rewrite length_firstn. lia.
  - apply IH. rewrite length_skipn. lia.
Qed.

Lemma stretch_same s l :
  length l = numel s -> np.stretch s s l = l.
Proof.
  revert l. induction s as [|d s IH]; intros l H; [done|].
  cbn [np.stretch]. rewrite Nat.eqb_refl.
  cbn [numel fold_right] in H. fold (numel s) in H.
  assert (Hc : map (np.stretch s s) (np.chunks d (numel s) l)
               = np.chunks d (numel s) l).
  { rewrite <- (map_id (np.chunks d (numel s) l)) at 2.
    apply map_ext_Forall.
    eapply Forall_impl; [apply chunks_length; lia|].
    intros b Hb. by apply IH. }
  rewrite Hc, chunks_concat. apply firstn_all2. lia.
Qed.

Lemma broadcast_to_same s l :
  length l = numel s -> np.broadcast_to s s l = l.
Proof.
  intros H. unfold np.broadcast_to.
  rewrite Nat.sub_diag. by apply stretch_same.
Qed.

Lemma cast_same d b : np.cast d d b = b.
Proof. unfold np.cast. by destruct d. Qed.

Lemma map_cast_same d l : map (np.cast d d) l = l.
Proof.
  induction l as [|b l IH]; simpl; [done|]. by rewrite cast_same, IH.
Qed.

Lemma zip_with_repeat_l {A B C} (f : A -> B -> C) x (l : list B) :
  zip_with f (repeat x (length l)) l = map (f x) l.
Proof. induction l as [|y l IH]; simpl; [done|]. by rewrite IH. Qed.

Lemma zip_with_map_r {A B C} (f : A -> B -> C) (g : A -> B) (l : list A) :
  zip_with f l (map g l) = map (fun x => f x (g x)) l.
Proof. induction l as [|y l IH]; simpl; [done|]. by rewrite IH. Qed.

End np_facts.

Section GeneratorFacts.

Variables exp_loop log_loop tanh_loop : dtype -> Z -> Z.

Lemma input_x_of_eq w :
  input_x_of w =
  mk_ndarray float16 [8; 2048]%nat
    (map (sample16 (bitgen w)) (seq 0 (numel [8; 2048]%nat))).
Proof.
  unfold input_x_of, np.uniform, np.astype, sample16.
  cbn [fst arr_shape arr_data arr_dtype].
  rewrite map_map. reflexivity.
Qed.

Lemma input_x_length w :
  length (arr_data (input_x_of w)) = numel (arr_shape (input_x_of w)).
Proof.
  rewrite input_x_of_eq. cbn [arr_data arr_shape].
  by rewrite length_map, length_seq.
Qed.

Lemma mish_float16 a :
  arr_dtype a = float16 ->
  length (arr_data a) = numel (arr_shape a) ->
  mish exp_loop log_loop tanh_loop a
  = inr (mk_ndarray float16 (arr_shape a)
           (map (mish16 exp_loop log_loop tanh_loop) (arr_data a))).
Proof.
  destruct a as [d s l]. cbn [arr_dtype arr_shape arr_data].
  intros -> Hlen.
  unfold mish, np.radd, np.add, np.multiply, np.binary, np_exp, np_log,
    np_tanh, np.unary, np.int_scalar.
  cbn [arr_dtype arr_shape arr_data np.result_type].
  rewrite np_facts.broadcast_shapes_scalar.
  cbn [map]. rewrite np_facts.cast_same, np_facts.broadcast_to_scalar.
  rewrite np_facts.map_cast_same.
  rewrite np_facts.broadcast_to_same by (by rewrite length_map).
  rewrite <- Hlen, <- (length_map (exp_loop float16) l).
  rewrite np_facts.zip_with_repeat_l.
  cbn [arr_dtype arr_shape arr_data np.result_type].
  rewrite np_facts.broadcast_shapes_same.
  rewrite !np_facts.map_cast_same.
  rewrite !np_facts.broadcast_to_same by (by rewrite ?length_map).
  rewrite !map_map, np_facts.zip_with_map_r.
  reflexivity.
Qed.

Lemma golden_of_eq w :
  golden_of exp_loop log_loop tanh_loop w =
  inr (mk_ndarray float16 [8; 2048]%nat
         (map (mish16 exp_loop log_loop tanh_loop) (arr_data (input_x_of w)))).
Proof.
  unfold golden_of. rewrite mish_float16.
  - by rewrite input_x_of_eq.
  - by rewrite input_x_of_eq.
  - apply input_x_length.
Qed.

Lemma gen_golden_data_simple_eq w :
  gen_golden_data_simple exp_loop log_loop tanh_loop w =
  match golden_of exp_loop log_loop tanh_loop w with
  | inl e => (inl e, sampled w)
  | inr golden =>
      (do _ <- np.tofile (input_x_of w) input_path;
       np.tofile golden golden_path) (sampled w)
  end.
Proof.
  unfold gen_golden_data_simple, golden_of, input_x_of, sampled, bind.
  unfold np.uniform at 1 2 3. cbn [fst snd].
  destruct (mish exp_loop log_loop tanh_loop _) as [e|g]; reflexivity.
Qed.

End GeneratorFacts.

(** ** Shifting and rounding in [SpecFloat] *)

Module rounding.

Lemma digits2_pos_bounds (m : positive) :
  2 ^ (Z.pos (digits2_pos m) - 1) <= Z.pos m < 2 ^ Z.pos (digits2_pos m).
Proof.
  induction m as [m IH|m IH|]; cbn [digits2_pos].
  - rewrite Pos2Z.inj_succ.
    replace (Z.succ (Z.pos (digits2_pos m)) - 1) with (Z.pos (digits2_pos m) - 1 + 1) by lia.
    rewrite Z.pow_succ_r by lia.
    rewrite Z.pow_add_r by lia.
    change (2 ^ 1) with 2. lia.
  - rewrite Pos2Z.inj_succ.
    replace (Z.succ (Z.pos (digits2_pos m)) - 1) with (Z.pos (digits2_pos m) - 1 + 1) by lia.
    rewrite Z.pow_succ_r by lia.
    rewrite Z.pow_add_r by lia.
    change (2 ^ 1) with 2. lia.
  - cbn. lia.
Qed.

(** The number of binary digits of a positive integer is determined by
    the power-of-two interval it lies in. *)
Lemma Zdigits2_unique (z d : Z) :
  0 < d -> 2 ^ (d - 1) <= z < 2 ^ d -> Zdigits2 z = d.
Proof.
  intros Hd [Hlo Hhi].
  assert (Hz : 0 < z) by (pose proof (Z.pow_pos_nonneg 2 (d - 1)); lia).
  destruct z as [|m|m]; try lia.
  cbn [Zdigits2].
  pose proof (digits2_pos_bounds m) as [Hl Hh].
  set (k := Z.pos (digits2_pos m)) in *.
  assert (Hk : 0 < k) by (unfold k; lia).
  destruct (Z.lt_trichotomy k d) as [Hlt|[Heq|Hgt]]; [|done|].
  - assert (2 ^ k <= 2 ^ (d - 1)) by (apply Z.pow_le_mono_r; lia). lia.
  - assert (2 ^ d <= 2 ^ (k - 1)) by (apply Z.pow_le_mono_r; lia). lia.
Qed.

Lemma Zdigits2_bounds (z : Z) :
  0 < z -> 0 < Zdigits2 z /\ 2 ^ (Zdigits2 z - 1) <= z < 2 ^ Zdigits2 z.
Proof.
  destruct z as [|m|m]; try lia. intros _.
  cbn [Zdigits2]. split; [lia|apply digits2_pos_bounds].
Qed.

Lemma shr_1_inv m0 k r :
  0 <= m0 -> 0 <= k -> shr_inv m0 k r -> shr_inv m0 (k + 1) (shr_1 r).
Proof.
  intros Hm Hk [Hq Hex].
  assert (Hp : 0 < 2 ^ k) by (apply Z.pow_pos_nonneg; lia).
  assert (Hq0 : 0 <= m0 / 2 ^ k) by (apply Z.div_pos; lia).
  assert (Hdiv : m0 / 2 ^ (k + 1) = m0 / 2 ^ k / 2).
  { rewrite Z.pow_add_r by lia. change (2 ^ 1) with 2.
    rewrite Z.div_div by lia. reflexivity. }
  assert (Hmod : m0 mod 2 ^ (k + 1) = 0 ->
                 m0 mod 2 ^ k = 0 /\ (m0 / 2 ^ k) mod 2 = 0).
  { intros H0. rewrite Z.pow_add_r in H0 by lia. change (2 ^ 1) with 2 in H0.
    rewrite Z.rem_mul_r in H0 by lia.
    pose proof (Z.mod_pos_bound m0 (2 ^ k) Hp).
    pose proof (Z.mod_pos_bound (m0 / 2 ^ k) 2 ltac:(lia)).
    nia. }
  destruct r as [m r s]. cbn [shr_m shr_r shr_s] in *. subst m.
  unfold shr_inv. rewrite Hdiv.
  destruct (m0 / 2 ^ k) as [|p|p] eqn:E; try lia.
  - cbn [shr_1 shr_m shr_r shr_s]. split; [done|].
    intros H0. destruct (Hmod H0) as [H1 _]. destruct (Hex H1) as [-> ->]. done.
  - destruct p as [p|p|]; cbn [shr_1 shr_m shr_r shr_s].
    + split; [rewrite Pos2Z.inj_xI; apply Z.div_unique with 1; [lia|ring]|].
      intros H0. destruct (Hmod H0) as [_ H2].
      pose proof (Z.div_mod (Z.pos p~1) 2 ltac:(lia)). lia.
    + split; [rewrite Pos2Z.inj_xO; apply Z.div_unique with 0; [lia|ring]|].
      intros H0. destruct (Hmod H0) as [H1 _]. destruct (Hex H1) as [-> ->]. done.
    + split; [done|].
      intros H0. destruct (Hmod H0) as [_ H2]. vm_compute in H2. discriminate.
Qed.

Lemma iter_pos_shr_inv m0 p :
  0 <= m0 ->
  forall k r,
    0 <= k -> shr_inv m0 k r ->
    shr_inv m0 (k + Z.pos p) (SpecFloat.iter_pos shr_1 p r).
Proof.
  intros Hm. induction p as [p IH|p IH|]; intros k r Hk Hr; cbn [SpecFloat.iter_pos].
  - replace (k + Z.pos p~1) with (k + 1 + Z.pos p + Z.pos p) by lia.
    apply IH; [lia|]. apply IH; [lia|]. by apply shr_1_inv.
  - replace (k + Z.pos p~0) with (k + Z.pos p + Z.pos p) by lia.
    apply IH; [lia|]. by apply IH.
  - by apply shr_1_inv.
Qed.

Lemma shr_exact_spec m e n :
  0 <= m -> 0 <= n ->
  exists r, shr (Build_shr_record m false false) e n = (r, e + n) /\
            shr_m r = m / 2 ^ n /\
            (m mod 2 ^ n = 0 -> shr_r r = false /\ shr_s r = false).
Proof.
  intros Hm Hn.
  assert (H0 : shr_inv m 0 (Build_shr_record m false false)).
  { split; cbn [shr_m shr_r shr_s]; [by rewrite Z.div_1_r|done]. }
  destruct n as [|p|p]; try lia.
  - exists (Build_shr_record m false false). cbn [shr].
    rewrite Z.add_0_r. destruct H0 as [H1 H2]. done.
  - exists (SpecFloat.iter_pos shr_1 p (Build_shr_record m false false)). cbn [shr].
    pose proof (iter_pos_shr_inv m p Hm 0 _ ltac:(lia) H0) as [H1 H2].
    rewrite Z.add_0_l in *. done.
Qed.

Lemma round_nearest_even_spec r :
  round_nearest_even (shr_m r) (loc_of_shr_record r) = shr_m r \/
  (round_nearest_even (shr_m r) (loc_of_shr_record r) = shr_m r + 1 /\
   shr_r r = true).
Proof.
  destruct r as [m [] []]; cbn; auto.
  destruct (Z.even m); auto.
Qed.

End rounding.

Module dyadic.

Lemma dle_scale E m1 e1 m2 e2 :
  E <= e1 -> E <= e2 ->
  dle m1 e1 m2 e2 <-> m1 * 2 ^ (e1 - E) <= m2 * 2 ^ (e2 - E).
Proof.
  intros H1 H2. unfold dle.
  set (k := Z.min e1 e2).
  assert (Hk : E <= k) by (unfold k; lia).
  assert (Hk1 : k <= e1) by (unfold k; lia).
  assert (Hk2 : k <= e2) by (unfold k; lia).
  replace (e1 - E) with (e1 - k + (k - E)) by lia.
  replace (e2 - E) with (e2 - k + (k - E)) by lia.
  rewrite !Z.pow_add_r by lia. rewrite !Z.mul_assoc.
  assert (Hp : 0 < 2 ^ (k - E)) by (apply Z.pow_pos_nonneg; lia).
  split; intros H.
  - by apply Z.mul_le_mono_nonneg_r; [lia|].
  - by apply Z.mul_le_mono_pos_r in H.
Qed.

Lemma dle_refl m e : dle m e m e.
Proof. unfold dle. lia. Qed.

Lemma dle_trans m1 e1 m2 e2 m3 e3 :
  dle m1 e1 m2 e2 -> dle m2 e2 m3 e3 -> dle m1 e1 m3 e3.
Proof.
  set (E := Z.min e1 (Z.min e2 e3)).
  rewrite (dle_scale E m1 e1 m2 e2), (dle_scale E m2 e2 m3 e3),
    (dle_scale E m1 e1 m3 e3) by (unfold E; lia).
  lia.
Qed.

Lemma dle_same_exp m1 m2 e : dle m1 e m2 e <-> m1 <= m2.
Proof.
  unfold dle. rewrite Z.min_id, Z.sub_diag. change (2 ^ 0) with 1. lia.
Qed.

End dyadic.

Section Rounding.

Variables prec emax : Z.
Hypothesis prec_gt_1 : 1 < prec.

#[local] Abbreviation emin := (SpecFloat.emin prec emax).
#[local] Abbreviation fexp := (SpecFloat.fexp prec emax).

Lemma fexp_ge_emin z : emin <= fexp z.
Proof. unfold SpecFloat.fexp. lia. Qed.

Lemma fexp_eq z : fexp z = Z.max (z - prec) emin.
Proof. reflexivity. Qed.

(** The second shift of [binary_round_aux]: it only renormalises a
    mantissa that rounding has carried to [2^prec]. *)
Lemma second_shift mr e1 :
  emin <= e1 -> 0 <= mr <= 2 ^ prec ->
  (mr < 2 ^ prec -> 0 < mr -> fexp (Zdigits2 mr + e1) = e1) ->
  (let '(mrs, e2) := shr_fexp prec emax mr e1 loc_Exact in
   match shr_m mrs with
   | Z0 => S754_zero false
   | Zpos m => if e2 <=? emax - prec then S754_finite false m e2
               else S754_infinity false
   | _ => S754_nan
   end) = finish prec emax mr e1.
Proof.
  intros He1 Hmr Hcan. unfold shr_fexp, finish.
  destruct (Z.eqb_spec mr 0) as [->|Hnz].
  - cbn [Zdigits2]. rewrite Z.add_0_l.
    assert (Hn : fexp e1 - e1 <= 0) by (rewrite fexp_eq; lia).
    destruct (fexp e1 - e1) as [|p|p] eqn:E; try lia; reflexivity.
  - destruct (Z.ltb_spec mr (2 ^ prec)) as [Hlt|Hge].
    + rewrite Hcan by lia. rewrite Z.sub_diag. cbn [shr shr_record_of_loc shr_m].
      destruct mr as [|p|p]; try lia. reflexivity.
    + assert (Hmr' : mr = 2 ^ prec) by lia.
      assert (Hd : Zdigits2 mr = prec + 1).
      { apply rounding.Zdigits2_unique; [lia|].
        rewrite Hmr'. replace (prec + 1 - 1) with prec by lia.
        rewrite Z.pow_add_r by lia. change (2 ^ 1) with 2.
        assert (0 < 2 ^ prec) by (apply Z.pow_pos_nonneg; lia). lia. }
      rewrite Hd, fexp_eq.
      replace (Z.max (prec + 1 + e1 - prec) emin - e1) with 1 by lia.
      destruct (rounding.shr_exact_spec mr e1 1 ltac:(lia) ltac:(lia))
        as (r & Hr & Hm & _).
      cbn [shr_record_of_loc]. rewrite Hr.
      change (2 ^ 1) with 2 in Hm. rewrite Hm.
      assert (Hpos : 0 < mr / 2).
      { rewrite Hmr'. replace prec with (prec - 1 + 1) by lia.
        rewrite Z.pow_add_r by lia. change (2 ^ 1) with 2.
        rewrite Z.div_mul by lia. apply Z.pow_pos_nonneg; lia. }
      destruct (mr / 2) as [|p|p]; try lia. reflexivity.
Qed.

Lemma binary_round_aux_spec (m : positive) (e : Z) :
  let e1 := fexp (Z.pos (digits2_pos m) + e) in
  let q := Z.pos m / 2 ^ (e1 - e) in
  e <= e1 ->
  exists mr,
    binary_round_aux prec emax false (Z.pos m) e loc_Exact = finish prec emax mr e1 /\
    (mr = q \/ (mr = q + 1 /\ Z.pos m mod 2 ^ (e1 - e) <> 0)) /\
    0 <= q < 2 ^ prec /\
    (2 ^ (prec - 1) <= q \/ (e1 = emin /\ q < 2 ^ (prec - 1))) /\
    (0 < mr < 2 ^ prec -> fexp (Zdigits2 mr + e1) = e1).
Proof.
  intros e1 q Hal.
  pose proof (rounding.digits2_pos_bounds m) as [Hdl Hdh].
  set (d := Z.pos (digits2_pos m)) in *.
  assert (Hd : 0 < d) by (unfold d; lia).
  set (n := e1 - e) in *.
  assert (Hn : 0 <= n) by (unfold n; lia).
  assert (Hpn : 0 < 2 ^ n) by (apply Z.pow_pos_nonneg; lia).
  assert (Hpp : 0 < 2 ^ (prec - 1)) by (apply Z.pow_pos_nonneg; lia).
  assert (Hp2 : 2 ^ prec = 2 * 2 ^ (prec - 1)).
  { replace prec with (prec - 1 + 1) at 1 by lia.
    rewrite Z.pow_add_r by lia. change (2 ^ 1) with 2. lia. }
  assert (Hq0 : 0 <= q) by (apply Z.div_pos; lia).
  assert (Hrange : 0 <= q < 2 ^ prec /\
                   (2 ^ (prec - 1) <= q \/ (e1 = emin /\ q < 2 ^ (prec - 1)))).
  { assert (He1 : e1 = Z.max (d + e - prec) emin) by reflexivity.
    destruct (Z.le_ge_cases emin (d + e - prec)) as [Hnorm|Hsub].
    - assert (Hn' : n = d - prec) by (unfold n; lia).
      assert (Hd1 : 2 ^ (d - 1) = 2 ^ (prec - 1) * 2 ^ n).
      { rewrite <- Z.pow_add_r by lia. f_equal. lia. }
      assert (Hd2 : 2 ^ d = 2 ^ prec * 2 ^ n).
      { rewrite <- Z.pow_add_r by lia. f_equal. lia. }
      split; [split; [done|]|left].
      + apply Z.div_lt_upper_bound; lia.
      + apply Z.div_le_lower_bound; lia.
    - assert (Hn' : d - prec <= n) by (unfold n; lia).
      assert (Hd2 : 2 ^ d <= 2 ^ (prec - 1) * 2 ^ n \/ n = d - prec).
      { destruct (Z.eq_dec n (d - prec)) as [|Hne]; [by right|left].
        rewrite <- Z.pow_add_r by lia. apply Z.pow_le_mono_r; lia. }
      destruct Hd2 as [Hd2| Hn''].
      + assert (q < 2 ^ (prec - 1)) by (apply Z.div_lt_upper_bound; lia).
        split; [lia|right]. split; [unfold n in *; lia|done].
      + assert (Hd1 : 2 ^ (d - 1) = 2 ^ (prec - 1) * 2 ^ n).
        { rewrite <- Z.pow_add_r by lia. f_equal. lia. }
        assert (Hd3 : 2 ^ d = 2 ^ prec * 2 ^ n).
        { rewrite <- Z.pow_add_r by lia. f_equal. lia. }
        split; [split; [done|]|left].
        * apply Z.div_lt_upper_bound; lia.
        * apply Z.div_le_lower_bound; lia. }
  destruct Hrange as [Hq Hcase].
  destruct (rounding.shr_exact_spec (Z.pos m) e n ltac:(lia) Hn)
    as (r & Hr & Hm & Hex).
  set (mr := round_nearest_even (shr_m r) (loc_of_shr_record r)).
  assert (Hmr : mr = q \/ (mr = q + 1 /\ Z.pos m mod 2 ^ n <> 0)).
  { unfold mr. destruct (rounding.round_nearest_even_spec r) as [->|[-> Hrt]].
    - left. done.
    - right. split; [by rewrite Hm|].
      intros H0. destruct (Hex H0) as [Hf _]. congruence. }
  assert (Hcan : 0 < mr < 2 ^ prec -> fexp (Zdigits2 mr + e1) = e1).
  { intros Hmr0.
    pose proof (rounding.Zdigits2_bounds mr ltac:(lia)) as (Hd'0 & Hd'l & Hd'h).
    set (d' := Zdigits2 mr) in *.
    pose proof (fexp_ge_emin (d + e)) as He1. fold e1 in He1.
    destruct Hcase as [Hnorm|[Hsub Hqs]].
    - assert (d' = prec).
      { destruct (Z.lt_trichotomy d' prec) as [Hlt|[Heq|Hgt]]; [|done|].
        - assert (2 ^ d' <= 2 ^ (prec - 1)) by (apply Z.pow_le_mono_r; lia). lia.
        - assert (2 ^ prec <= 2 ^ (d' - 1)) by (apply Z.pow_le_mono_r; lia). lia. }
      rewrite fexp_eq. lia.
    - assert (d' <= prec).
      { destruct (Z.le_gt_cases d' prec) as [|Hgt]; [done|].
        assert (2 ^ prec <= 2 ^ (d' - 1)) by (apply Z.pow_le_mono_r; lia). lia. }
      rewrite fexp_eq. lia. }
  exists mr. split; [|done].
  unfold binary_round_aux, shr_fexp at 1.
  cbn [Zdigits2 shr_record_of_loc]. fold d. fold e1. fold n.
  rewrite Hr. fold mr.
  replace (e + n) with e1 by (unfold n; lia).
  apply second_shift; [apply fexp_ge_emin| |intros; apply Hcan]; lia.
Qed.

(** Rounding never crosses a number of at most [prec] digits whose
    exponent is at least [emin]: from below... *)
Lemma round_above (m e n q mr ml el : Z) :
  0 < m -> 0 <= n -> q = m / 2 ^ n -> q <= mr ->
  (2 ^ (prec - 1) <= q \/ e + n = emin) ->
  0 < ml < 2 ^ prec -> emin <= el ->
  dle ml el m e -> dle ml el mr (e + n).
Proof.
  intros Hm Hn Hq Hmr Hcase Hml Hel Hle.
  set (E := Z.min e el).
  rewrite (dyadic.dle_scale E) in Hle |- * by (unfold E; lia).
  assert (Hpn : 0 < 2 ^ n) by (apply Z.pow_pos_nonneg; lia).
  assert (HpE : 0 < 2 ^ (e - E)) by (apply Z.pow_pos_nonneg; unfold E; lia).
  assert (Hsplit : 2 ^ (e + n - E) = 2 ^ n * 2 ^ (e - E)).
  { rewrite <- Z.pow_add_r by (unfold E; lia). f_equal. lia. }
  assert (Hqm : q * 2 ^ n <= m).
  { subst q. rewrite Z.mul_comm. apply Z.mul_div_le. lia. }
  assert (Hq0 : 0 <= q) by (subst q; apply Z.div_pos; lia).
  rewrite Hsplit.
  apply Z.le_trans with (q * (2 ^ n * 2 ^ (e - E))); [|nia].
  destruct (Z.le_gt_cases (e + n) el) as [Hge|Hlt].
  - assert (Hel' : 2 ^ (el - E) = 2 ^ (el - (e + n)) * (2 ^ n * 2 ^ (e - E))).
    { rewrite <- Hsplit, <- Z.pow_add_r by (unfold E; lia). f_equal. lia. }
    assert (Hp' : 0 <= 2 ^ (el - (e + n))) by (apply Z.pow_nonneg; lia).
    rewrite Hel' in Hle |- *.
    assert (Hb : ml * 2 ^ (el - (e + n)) <= q).
    { subst q. apply Z.div_le_lower_bound; [lia|]. nia. }
    nia.
  - destruct Hcase as [Hnorm|Hsub]; [|lia].
    assert (Hel' : 2 * 2 ^ (el - E) <= 2 ^ n * 2 ^ (e - E)).
    { rewrite <- Hsplit. rewrite <- (Z.pow_succ_r 2 (el - E)) by (unfold E; lia).
      apply Z.pow_le_mono_r; lia. }
    assert (Hp2 : 2 ^ prec = 2 * 2 ^ (prec - 1)).
    { replace prec with (prec - 1 + 1) at 1 by lia.
      rewrite Z.pow_add_r by lia. change (2 ^ 1) with 2. lia. }
    assert (HpE' : 0 < 2 ^ (el - E)) by (apply Z.pow_pos_nonneg; unfold E; lia).
    nia.
Qed.

(** ... and from above. *)
Lemma round_below (m e n q mr mh eh : Z) :
  0 < m -> 0 <= n -> q = m / 2 ^ n ->
  (mr = q \/ (mr = q + 1 /\ m mod 2 ^ n <> 0)) ->
  (2 ^ (prec - 1) <= q \/ e + n = emin) ->
  0 < mh < 2 ^ prec -> emin <= eh ->
  dle m e mh eh -> dle mr (e + n) mh eh.
Proof.
  intros Hm Hn Hq Hmr Hcase Hmh Heh Hle.
  set (E := Z.min e eh).
  rewrite (dyadic.dle_scale E) in Hle |- * by (unfold E; lia).
  assert (Hpn : 0 < 2 ^ n) by (apply Z.pow_pos_nonneg; lia).
  assert (HpE : 0 < 2 ^ (e - E)) by (apply Z.pow_pos_nonneg; unfold E; lia).
  assert (Hsplit : 2 ^ (e + n - E) = 2 ^ n * 2 ^ (e - E)).
  { rewrite <- Z.pow_add_r by (unfold E; lia). f_equal. lia. }
  assert (Hqm : q * 2 ^ n <= m).
  { subst q. rewrite Z.mul_comm. apply Z.mul_div_le. lia. }
  assert (Hq0 : 0 <= q) by (subst q; apply Z.div_pos; lia).
  rewrite Hsplit.
  destruct Hmr as [->|[-> Hinex]]; [nia|].
  destruct (Z.le_gt_cases (e + n) eh) as [Hge|Hlt].
  - assert (Heh' : 2 ^ (eh - E) = 2 ^ (eh - (e + n)) * (2 ^ n * 2 ^ (e - E))).
    { rewrite <- Hsplit, <- Z.pow_add_r by (unfold E; lia). f_equal. lia. }
    assert (Hp' : 0 <= 2 ^ (eh - (e + n))) by (apply Z.pow_nonneg; lia).
    rewrite Heh' in Hle |- *.
    set (h := mh * 2 ^ (eh - (e + n))) in *.
    assert (Hmh' : m <= h * 2 ^ n) by nia.
    assert (Hne : m <> h * 2 ^ n).
    { intros ->. apply Hinex. apply Z.mod_mul. lia. }
    assert (Hb : q < h).
    { subst q. apply Z.div_lt_upper_bound; lia. }
    replace (mh * (2 ^ (eh - (e + n)) * (2 ^ n * 2 ^ (e - E))))
      with (h * (2 ^ n * 2 ^ (e - E))) by (unfold h; ring).
    nia.
  - destruct Hcase as [Hnorm|Hsub]; [|lia].
    assert (Heh' : 2 * 2 ^ (eh - E) <= 2 ^ n * 2 ^ (e - E)).
    { rewrite <- Hsplit. rewrite <- (Z.pow_succ_r 2 (eh - E)) by (unfold E; lia).
      apply Z.pow_le_mono_r; lia. }
    assert (Hp2 : 2 ^ prec = 2 * 2 ^ (prec - 1)).
    { replace prec with (prec - 1 + 1) at 1 by lia.
      rewrite Z.pow_add_r by lia. change (2 ^ 1) with 2. lia. }
    assert (HpE' : 0 < 2 ^ (eh - E)) by (apply Z.pow_pos_nonneg; unfold E; lia).
    exfalso. nia.
Qed.

End Rounding.

Module dyadic_arith.

Lemma dle_shift_l m e k a b :
  0 <= k -> dle (m * 2 ^ k) (e - k) a b <-> dle m e a b.
Proof.
  intros Hk. set (E := Z.min (e - k) b).
  rewrite (dyadic.dle_scale E (m * 2 ^ k)), (dyadic.dle_scale E m) by (unfold E; lia).
  replace (e - E) with (k + (e - k - E)) by lia.
  rewrite Z.pow_add_r by (unfold E; lia).
  rewrite !Z.mul_assoc. reflexivity.
Qed.

Lemma dle_shift_r m e k a b :
  0 <= k -> dle a b (m * 2 ^ k) (e - k) <-> dle a b m e.
Proof.
  intros Hk. set (E := Z.min (e - k) b).
  rewrite (dyadic.dle_scale E a b (m * 2 ^ k)), (dyadic.dle_scale E a b m)
    by (unfold E; lia).
  replace (e - E) with (k + (e - k - E)) by lia.
  rewrite Z.pow_add_r by (unfold E; lia).
  rewrite !Z.mul_assoc. reflexivity.
Qed.

Lemma dle_pos m1 e1 m2 e2 : 0 < m1 -> dle m1 e1 m2 e2 -> 0 < m2.
Proof.
  unfold dle. intros Hm H.
  assert (0 < 2 ^ (e1 - Z.min e1 e2)) by (apply Z.pow_pos_nonneg; lia).
  assert (0 < 2 ^ (e2 - Z.min e1 e2)) by (apply Z.pow_pos_nonneg; lia).
  nia.
Qed.

(** Scaling both sides by a non-negative dyadic factor. *)
Lemma dle_mul c k m1 e1 m2 e2 :
  0 <= c -> dle m1 e1 m2 e2 -> dle (c * m1) (k + e1) (c * m2) (k + e2).
Proof.
  unfold dle. intros Hc H.
  replace (k + e1 - Z.min (k + e1) (k + e2)) with (e1 - Z.min e1 e2) by lia.
  replace (k + e2 - Z.min (k + e1) (k + e2)) with (e2 - Z.min e1 e2) by lia.
  nia.
Qed.

(** Adding the same dyadic number on both sides. *)
Lemma dle_add m1 e1 m2 e2 m e E :
  E <= e1 -> E <= e2 -> E <= e ->
  dle m1 e1 m2 e2 ->
  dle (m * 2 ^ (e - E) + m1 * 2 ^ (e1 - E)) E (m * 2 ^ (e - E) + m2 * 2 ^ (e2 - E)) E.
Proof.
  intros H1 H2 H3 H. rewrite (dyadic.dle_scale E) in H by lia.
  apply dyadic.dle_same_exp. lia.
Qed.

Lemma dle_const m e E : E <= e -> dle m e (m * 2 ^ (e - E)) E /\ dle (m * 2 ^ (e - E)) E m e.
Proof.
  intros H. rewrite !(dyadic.dle_scale E) by lia.
  rewrite Z.sub_diag. change (2 ^ 0) with 1. lia.
Qed.

End dyadic_arith.

Section Enclosure.

Variables prec emax : Z.
Hypothesis prec_gt_1 : 1 < prec.

#[local] Abbreviation emin := (SpecFloat.emin prec emax).
#[local] Abbreviation fexp := (SpecFloat.fexp prec emax).

Lemma pow_prec : 2 ^ prec = 2 * 2 ^ (prec - 1) /\ 0 < 2 ^ (prec - 1).
Proof.
  split; [|apply Z.pow_pos_nonneg; lia].
  replace prec with (prec - 1 + 1) at 1 by lia.
  rewrite Z.pow_add_r by lia. change (2 ^ 1) with 2. lia.
Qed.

Lemma finish_finite mr e1 mh eh :
  0 < mr <= 2 ^ prec -> emin <= e1 ->
  (2 ^ (prec - 1) <= mr \/ e1 = emin) ->
  (0 < mr < 2 ^ prec -> fexp (Zdigits2 mr + e1) = e1) ->
  0 < mh < 2 ^ prec -> emin <= eh <= emax - prec ->
  dle mr e1 mh eh ->
  exists mf ef,
    finish prec emax mr e1 = S754_finite false mf ef /\
    bounded prec emax mf ef = true /\
    ((Z.pos mf = mr /\ ef = e1) \/ (mr = Z.pos mf * 2 ^ 1 /\ ef = e1 + 1)).
Proof.
  intros Hmr He1 Hcase Hcan Hmh Heh Hle.
  destruct pow_prec as [Hp2 Hpp].
  unfold finish.
  destruct (Z.eqb_spec mr 0) as [|_]; [lia|].
  destruct (Z.ltb_spec mr (2 ^ prec)) as [Hlt|Hge].
  - assert (Hfit : e1 <= emax - prec).
    { destruct (Z.le_gt_cases e1 (emax - prec)) as [|Hgt]; [done|exfalso].
      destruct Hcase as [Hnorm|]; [|lia].
      rewrite (dyadic.dle_scale eh) in Hle by lia.
      rewrite Z.sub_diag in Hle. change (2 ^ 0) with 1 in Hle.
      assert (2 ^ 1 <= 2 ^ (e1 - eh)) by (apply Z.pow_le_mono_r; lia).
      change (2 ^ 1) with 2 in *. nia. }
    destruct (Z.leb_spec e1 (emax - prec)) as [_|]; [|lia].
    exists (Z.to_pos mr), e1. split; [done|].
    rewrite Z2Pos.id by lia. split; [|by left].
    unfold bounded, canonical_mantissa.
    specialize (Hcan ltac:(lia)).
    destruct mr as [|p|p]; try lia. cbn [Zdigits2 Z.to_pos] in *.
    rewrite Hcan, Z.eqb_refl. cbn. by apply Z.leb_le.
  - assert (Hmr' : mr = 2 ^ prec) by lia.
    assert (Hlt : e1 < eh).
    { destruct (Z.lt_ge_cases e1 eh) as [|Hge']; [done|exfalso].
      rewrite (dyadic.dle_scale eh) in Hle by lia.
      rewrite Z.sub_diag in Hle. change (2 ^ 0) with 1 in Hle.
      assert (0 < 2 ^ (e1 - eh)) by (apply Z.pow_pos_nonneg; lia).
      nia. }
    destruct (Z.leb_spec (e1 + 1) (emax - prec)) as [_|]; [|lia].
    assert (Hhalf : mr / 2 = 2 ^ (prec - 1)).
    { rewrite Hmr', Hp2, Z.mul_comm, Z.div_mul by lia. done. }
    exists (Z.to_pos (mr / 2)), (e1 + 1). split; [done|].
    rewrite Hhalf, Z2Pos.id by lia. split.
    + unfold bounded, canonical_mantissa.
      assert (Hd : Zdigits2 (2 ^ (prec - 1)) = prec).
      { apply rounding.Zdigits2_unique; lia. }
      destruct (2 ^ (prec - 1)) as [|p|p] eqn:E; try lia.
      cbn [Zdigits2 Z.to_pos] in *. rewrite Hd.
      unfold SpecFloat.fexp.
      replace (Z.max (prec + (e1 + 1) - prec) emin) with (e1 + 1) by lia.
      rewrite Z.eqb_refl. cbn. apply Z.leb_le. lia.
    + right. change (2 ^ 1) with 2. lia.
Qed.

(** Rounding [m * 2^e] keeps it between any two format numbers that
    enclose it: the result is finite, valid, and enclosed as well. *)
Theorem binary_round_aux_enclosed (m : positive) (e ml el mh eh : Z) :
  e <= fexp (Z.pos (digits2_pos m) + e) ->
  0 < ml < 2 ^ prec -> emin <= el ->
  0 < mh < 2 ^ prec -> emin <= eh <= emax - prec ->
  dle ml el (Z.pos m) e -> dle (Z.pos m) e mh eh ->
  exists mf ef,
    binary_round_aux prec emax false (Z.pos m) e loc_Exact = S754_finite false mf ef /\
    bounded prec emax mf ef = true /\
    dle ml el (Z.pos mf) ef /\ dle (Z.pos mf) ef mh eh.
Proof.
  intros Hal Hml Hel Hmh Heh Hlo Hhi.
  destruct pow_prec as [Hp2 Hpp].
  destruct (binary_round_aux_spec prec emax prec_gt_1 m e Hal)
    as (mr & Hres & Hmr & Hq & Hcase & Hcan).
  set (e1 := fexp (Z.pos (digits2_pos m) + e)) in *.
  set (n := e1 - e) in *.
  set (q := Z.pos m / 2 ^ n) in *.
  assert (Hn : 0 <= n) by (unfold n; lia).
  assert (He1 : e1 = e + n) by (unfold n; lia).
  assert (Hcase' : 2 ^ (prec - 1) <= q \/ e + n = emin) by lia.
  assert (Hlo' : dle ml el mr e1).
  { rewrite He1. eapply (round_above prec emax prec_gt_1 (Z.pos m) e n q);
      [lia|done|done| |done|done|done|done]. lia. }
  assert (Hhi' : dle mr e1 mh eh).
  { rewrite He1. eapply (round_below prec emax prec_gt_1 (Z.pos m) e n q);
      [lia|done|done|done|done|done| |done]. lia. }
  assert (Hmr0 : 0 < mr) by (eapply dyadic_arith.dle_pos; [|exact Hlo']; lia).
  destruct (finish_finite mr e1 mh eh) as (mf & ef & Hfin & Hb & Hval);
    [lia|apply fexp_ge_emin|lia|done|done|done|done|].
  exists mf, ef. rewrite Hres. split; [done|]. split; [done|].
  destruct Hval as [[-> ->]|[Hm2 ->]]; [done|].
  rewrite Hm2 in Hlo', Hhi'.
  replace e1 with (e1 + 1 - 1) in Hlo', Hhi' by lia.
  rewrite dyadic_arith.dle_shift_r in Hlo' by lia.
  rewrite dyadic_arith.dle_shift_l in Hhi' by lia. done.
Qed.

(** Without a lower bound the result may also be zero. *)
Theorem binary_round_aux_below (m : positive) (e mh eh : Z) :
  e <= fexp (Z.pos (digits2_pos m) + e) ->
  0 < mh < 2 ^ prec -> emin <= eh <= emax - prec ->
  dle (Z.pos m) e mh eh ->
  binary_round_aux prec emax false (Z.pos m) e loc_Exact = S754_zero false \/
  exists mf ef,
    binary_round_aux prec emax false (Z.pos m) e loc_Exact = S754_finite false mf ef /\
    bounded prec emax mf ef = true /\ dle (Z.pos mf) ef mh eh.
Proof.
  intros Hal Hmh Heh Hhi.
  destruct pow_prec as [Hp2 Hpp].
  destruct (binary_round_aux_spec prec emax prec_gt_1 m e Hal)
    as (mr & Hres & Hmr & Hq & Hcase & Hcan).
  set (e1 := fexp (Z.pos (digits2_pos m) + e)) in *.
  set (n := e1 - e) in *.
  set (q := Z.pos m / 2 ^ n) in *.
  assert (Hn : 0 <= n) by (unfold n; lia).
  assert (He1 : e1 = e + n) by (unfold n; lia).
  assert (Hcase' : 2 ^ (prec - 1) <= q \/ e + n = emin) by lia.
  assert (Hhi' : dle mr e1 mh eh).
  { rewrite He1. eapply (round_below prec emax prec_gt_1 (Z.pos m) e n q);
      [lia|done|done|done|done|done| |done]. lia. }
  destruct (Z.eq_dec mr 0) as [Hz|Hnz].
  - left. rewrite Hres, Hz. reflexivity.
  - right.
    destruct (finish_finite mr e1 mh eh) as (mf & ef & Hfin & Hb & Hval);
      [lia|apply fexp_ge_emin|lia|done|done|done|done|].
    exists mf, ef. rewrite Hres. split; [done|]. split; [done|].
    destruct Hval as [[-> ->]|[Hm2 ->]]; [done|].
    rewrite Hm2 in Hhi'.
    replace e1 with (e1 + 1 - 1) in Hhi' by lia.
    rewrite dyadic_arith.dle_shift_l in Hhi' by lia. done.
Qed.

End Enclosure.

Module align.

Lemma pos_iter_xO (m d : positive) :
  Z.pos (Pos.iter xO m d) = Z.pos m * 2 ^ Z.pos d.
Proof.
  induction d as [|d IH] using Pos.peano_ind.
  - cbn [Pos.iter]. change (2 ^ 1) with 2. lia.
  - rewrite Pos.iter_succ, Pos2Z.inj_xO, IH, Pos2Z.inj_succ, Z.pow_succ_r by lia.
    ring.
Qed.

Lemma shl_align_spec (m : positive) (e e' : Z) :
  exists k mz,
    shl_align m e e' = (mz, e - k) /\ k = Z.max 0 (e - e') /\
    Z.pos mz = Z.pos m * 2 ^ k.
Proof.
  unfold shl_align.
  destruct (e' - e) as [|p|p] eqn:E.
  - exists 0, m. replace (Z.max 0 (e - e')) with 0 by lia.
    rewrite Z.sub_0_r. change (2 ^ 0) with 1. split; [done|]. lia.
  - exists 0, m. replace (Z.max 0 (e - e')) with 0 by lia.
    rewrite Z.sub_0_r. change (2 ^ 0) with 1. split; [done|]. lia.
  - exists (Z.pos p), (Pos.iter xO m p).
    split; [f_equal; lia|]. split; [lia|]. apply pos_iter_xO.
Qed.

Lemma digits_shift (m mz : positive) (k : Z) :
  0 <= k -> Z.pos mz = Z.pos m * 2 ^ k ->
  Z.pos (digits2_pos mz) = Z.pos (digits2_pos m) + k.
Proof.
  intros Hk Hmz.
  change (Z.pos (digits2_pos mz)) with (Zdigits2 (Z.pos mz)).
  pose proof (rounding.digits2_pos_bounds m) as [Hl Hh].
  assert (0 < 2 ^ k) by (apply Z.pow_pos_nonneg; lia).
  apply rounding.Zdigits2_unique; [lia|]. rewrite Hmz.
  replace (Z.pos (digits2_pos m) + k - 1) with (Z.pos (digits2_pos m) - 1 + k) by lia.
  rewrite !Z.pow_add_r by lia. nia.
Qed.

Lemma digits_mul (mx my : positive) :
  Z.pos (digits2_pos mx) + Z.pos (digits2_pos my) - 1
  <= Z.pos (digits2_pos (mx * my)).
Proof.
  pose proof (rounding.digits2_pos_bounds mx) as [Hxl Hxh].
  pose proof (rounding.digits2_pos_bounds my) as [Hyl Hyh].
  pose proof (rounding.digits2_pos_bounds (mx * my)) as [Hl Hh].
  set (dx := Z.pos (digits2_pos mx)) in *.
  set (dy := Z.pos (digits2_pos my)) in *.
  set (d := Z.pos (digits2_pos (mx * my))) in *.
  assert (0 < dx /\ 0 < dy /\ 0 < d) as (H1 & H2 & H3) by (unfold dx, dy, d; lia).
  destruct (Z.le_gt_cases (dx + dy - 1) d) as [|Hgt]; [done|exfalso].
  assert (Hp : 2 ^ d <= 2 ^ (dx - 1 + (dy - 1))) by (apply Z.pow_le_mono_r; lia).
  rewrite Z.pow_add_r in Hp by lia.
  rewrite Pos2Z.inj_mul in Hh. nia.
Qed.

End align.

Section Operations.

Variables prec emax : Z.
Hypothesis prec_gt_1 : 1 < prec.

#[local] Abbreviation emin := (SpecFloat.emin prec emax).
#[local] Abbreviation fexp := (SpecFloat.fexp prec emax).

Lemma binary_round_aligned (m : positive) (e : Z) :
  exists k mz,
    0 <= k /\ Z.pos mz = Z.pos m * 2 ^ k /\
    e - k <= fexp (Z.pos (digits2_pos mz) + (e - k)) /\
    binary_round prec emax false m e =
    binary_round_aux prec emax false (Z.pos mz) (e - k) loc_Exact.
Proof.
  destruct (align.shl_align_spec m e (fexp (Z.pos (digits2_pos m) + e)))
    as (k & mz & Hs & Hk & Hmz).
  exists k, mz. split; [lia|]. split; [done|].
  split.
  - rewrite (align.digits_shift m mz k) by lia.
    replace (Z.pos (digits2_pos m) + k + (e - k)) with (Z.pos (digits2_pos m) + e) by lia.
    lia.
  - unfold binary_round. by rewrite Hs.
Qed.

Theorem binary_round_enclosed (m : positive) (e ml el mh eh : Z) :
  0 < ml < 2 ^ prec -> emin <= el ->
  0 < mh < 2 ^ prec -> emin <= eh <= emax - prec ->
  dle ml el (Z.pos m) e -> dle (Z.pos m) e mh eh ->
  exists mf ef,
    binary_round prec emax false m e = S754_finite false mf ef /\
    bounded prec emax mf ef = true /\
    dle ml el (Z.pos mf) ef /\ dle (Z.pos mf) ef mh eh.
Proof.
  intros Hml Hel Hmh Heh Hlo Hhi.
  destruct (binary_round_aligned m e) as (k & mz & Hk & Hmz & Hal & ->).
  apply (binary_round_aux_enclosed prec emax prec_gt_1); try done.
  - rewrite Hmz. by apply dyadic_arith.dle_shift_r.
  - rewrite Hmz. by apply dyadic_arith.dle_shift_l.
Qed.

Theorem binary_round_below (m : positive) (e mh eh : Z) :
  0 < mh < 2 ^ prec -> emin <= eh <= emax - prec ->
  dle (Z.pos m) e mh eh ->
  binary_round prec emax false m e = S754_zero false \/
  exists mf ef,
    binary_round prec emax false m e = S754_finite false mf ef /\
    bounded prec emax mf ef = true /\ dle (Z.pos mf) ef mh eh.
Proof.
  intros Hmh Heh Hhi.
  destruct (binary_round_aligned m e) as (k & mz & Hk & Hmz & Hal & ->).
  apply (binary_round_aux_below prec emax prec_gt_1); try done.
  rewrite Hmz. by apply dyadic_arith.dle_shift_l.
Qed.

(** The sum of two positive finite numbers. *)
Theorem SFadd_enclosed (mx my : positive) (ex ey ml el mh eh : Z) :
  let ez := Z.min ex ey in
  let sum := Z.pos mx * 2 ^ (ex - ez) + Z.pos my * 2 ^ (ey - ez) in
  0 < ml < 2 ^ prec -> emin <= el ->
  0 < mh < 2 ^ prec -> emin <= eh <= emax - prec ->
  dle ml el sum ez -> dle sum ez mh eh ->
  exists mf ef,
    SFadd prec emax (S754_finite false mx ex) (S754_finite false my ey)
    = S754_finite false mf ef /\
    bounded prec emax mf ef = true /\
    dle ml el (Z.pos mf) ef /\ dle (Z.pos mf) ef mh eh.
Proof.
  intros ez sum Hml Hel Hmh Heh Hlo Hhi.
  cbn [SFadd cond_Zopp]. fold ez.
  destruct (align.shl_align_spec mx ex ez) as (kx & mx' & Hsx & Hkx & Hmx).
  destruct (align.shl_align_spec my ey ez) as (ky & my' & Hsy & Hky & Hmy).
  rewrite Hsx, Hsy. cbn [fst Z.add binary_normalize].
  assert (Hsum : Z.pos (mx' + my') = sum).
  { rewrite Pos2Z.inj_add, Hmx, Hmy. unfold sum.
    replace kx with (ex - ez) by (unfold ez in *; lia).
    replace ky with (ey - ez) by (unfold ez in *; lia). done. }
  apply binary_round_enclosed; try done; by rewrite Hsum.
Qed.

(** The product of two positive finite numbers of the format. *)
Lemma SFmul_aligned (mx my : positive) (ex ey : Z) :
  emin <= 0 ->
  bounded prec emax mx ex = true -> bounded prec emax my ey = true ->
  ex + ey <= fexp (Z.pos (digits2_pos (mx * my)) + (ex + ey)).
Proof.
  intros Hemin Hx Hy.
  unfold bounded, canonical_mantissa in Hx, Hy.
  apply andb_true_iff in Hx as [Hx _]. apply andb_true_iff in Hy as [Hy _].
  apply Z.eqb_eq in Hx, Hy.
  pose proof (align.digits_mul mx my) as Hd.
  unfold SpecFloat.fexp in *.
  assert (0 < Z.pos (digits2_pos mx)) by lia.
  assert (0 < Z.pos (digits2_pos my)) by lia.
  lia.
Qed.

Theorem SFmul_enclosed (mx my : positive) (ex ey ml el mh eh : Z) :
  emin <= 0 ->
  bounded prec emax mx ex = true -> bounded prec emax my ey = true ->
  0 < ml < 2 ^ prec -> emin <= el ->
  0 < mh < 2 ^ prec -> emin <= eh <= emax - prec ->
  dle ml el (Z.pos mx * Z.pos my) (ex + ey) ->
  dle (Z.pos mx * Z.pos my) (ex + ey) mh eh ->
  exists mf ef,
    SFmul prec emax (S754_finite false mx ex) (S754_finite false my ey)
    = S754_finite false mf ef /\
    bounded prec emax mf ef = true /\
    dle ml el (Z.pos mf) ef /\ dle (Z.pos mf) ef mh eh.
Proof.
  intros Hemin Hx Hy Hml Hel Hmh Heh Hlo Hhi.
  cbn [SFmul xorb].
  apply (binary_round_aux_enclosed prec emax prec_gt_1); try done.
  by apply SFmul_aligned.
Qed.

End Operations.

Section Codec.

Variable f : Fmt.format.
Hypothesis mbits_pos : 0 < Fmt.mbits f.
Hypothesis ebits_gt_1 : 1 < Fmt.ebits f.

#[local] Abbreviation prec := (Fmt.prec f).
#[local] Abbreviation emax := (Fmt.emax f).
#[local] Abbreviation emin := (SpecFloat.emin (Fmt.prec f) (Fmt.emax f)).
#[local] Abbreviation mb := (Fmt.mbits f).

Lemma fmt_facts :
  prec = mb + 1 /\ emin = 2 - emax - mb /\ 2 <= emax /\
  2 ^ Fmt.ebits f = 2 * emax /\ 0 < 2 ^ mb /\ 2 ^ prec = 2 * 2 ^ mb.
Proof.
  unfold Fmt.prec, Fmt.emax, SpecFloat.emin.
  assert (H1 : 2 ^ Fmt.ebits f = 2 * 2 ^ (Fmt.ebits f - 1)).
  { replace (Fmt.ebits f) with (Fmt.ebits f - 1 + 1) at 1 by lia.
    rewrite Z.pow_add_r by lia. change (2 ^ 1) with 2. lia. }
  assert (H2 : 2 ^ 1 <= 2 ^ (Fmt.ebits f - 1)) by (apply Z.pow_le_mono_r; lia).
  change (2 ^ 1) with 2 in H2.
  assert (H3 : 0 < 2 ^ mb) by (apply Z.pow_pos_nonneg; lia).
  rewrite Z.pow_add_r by lia. change (2 ^ 1) with 2.
  unfold Fmt.prec. lia.
Qed.

(** A valid finite number is either normal, with [prec] digits, or
    subnormal, with the least exponent. *)
Lemma bounded_cases (m : positive) (e : Z) :
  bounded prec emax m e = true ->
  emin <= e <= emax - prec /\ Z.pos m < 2 ^ prec /\
  (2 ^ mb <= Z.pos m \/ (e = emin /\ Z.pos m < 2 ^ mb)).
Proof.
  intros Hb. unfold bounded, canonical_mantissa in Hb.
  apply andb_true_iff in Hb as [Hc He].
  apply Z.eqb_eq in Hc. apply Z.leb_le in He.
  destruct fmt_facts as (Hp & Hem & Hex & _ & Hpm & Hpp).
  pose proof (rounding.digits2_pos_bounds m) as [Hl Hh].
  set (d := Z.pos (digits2_pos m)) in *.
  assert (Hd : 0 < d) by (unfold d; lia).
  unfold SpecFloat.fexp in Hc.
  assert (Hdp : d <= prec) by lia.
  assert (Hlt : Z.pos m < 2 ^ prec).
  { assert (2 ^ d <= 2 ^ prec) by (apply Z.pow_le_mono_r; lia). lia. }
  split; [lia|]. split; [done|].
  destruct (Z.eq_dec d prec) as [Heq|Hne].
  - left. rewrite Heq, Hp in Hl. by replace (mb + 1 - 1) with mb in Hl by lia.
  - right. split; [lia|].
    assert (2 ^ d <= 2 ^ mb) by (apply Z.pow_le_mono_r; lia). lia.
Qed.

(** The bit pattern of a valid positive finite number: the exponent
    above the fraction, both counted from the least subnormal. *)
Lemma encode_bounded (m : positive) (e : Z) :
  bounded prec emax m e = true ->
  Fmt.encode f (S754_finite false m e) = (e - emin) * 2 ^ mb + Z.pos m.
Proof.
  intros Hb. destruct (bounded_cases m e Hb) as (He & Hlt & Hcase).
  destruct fmt_facts as (Hp & Hem & Hex & _ & Hpm & Hpp).
  cbn [Fmt.encode Fmt.sign_bit].
  destruct (Z.leb_spec (2 ^ mb) (Z.pos m)) as [Hn|Hs].
  - rewrite Z.shiftl_mul_pow2 by lia. unfold Fmt.bias. lia.
  - destruct Hcase as [|[-> _]]; lia.
Qed.

Lemma encode_bounded_range (m : positive) (e : Z) :
  bounded prec emax m e = true ->
  0 < Fmt.encode f (S754_finite false m e) < (2 * emax - 1) * 2 ^ mb.
Proof.
  intros Hb. rewrite (encode_bounded m e Hb).
  destruct (bounded_cases m e Hb) as (He & Hlt & Hcase).
  destruct fmt_facts as (Hp & Hem & Hex & _ & Hpm & Hpp).
  nia.
Qed.

(** Among valid positive finite numbers, the order of the values is the
    order of the bit patterns. *)
Lemma encode_monotone (m1 m2 : positive) (e1 e2 : Z) :
  bounded prec emax m1 e1 = true -> bounded prec emax m2 e2 = true ->
  dle (Z.pos m1) e1 (Z.pos m2) e2 ->
  Fmt.encode f (S754_finite false m1 e1) <= Fmt.encode f (S754_finite false m2 e2).
Proof.
  intros Hb1 Hb2 Hle.
  rewrite (encode_bounded m1 e1 Hb1), (encode_bounded m2 e2 Hb2).
  destruct (bounded_cases m1 e1 Hb1) as (He1 & Hlt1 & Hcase1).
  destruct (bounded_cases m2 e2 Hb2) as (He2 & Hlt2 & Hcase2).
  destruct fmt_facts as (Hp & Hem & Hex & _ & Hpm & Hpp).
  destruct (Z.lt_trichotomy e1 e2) as [Hlt|[Heq|Hgt]].
  - destruct Hcase2 as [Hn2|[Hs2 _]]; [|lia]. nia.
  - subst e2. apply dyadic.dle_same_exp in Hle. nia.
  - exfalso. rewrite (dyadic.dle_scale e2) in Hle by lia.
    rewrite Z.sub_diag in Hle. change (2 ^ 0) with 1 in Hle.
    assert (2 ^ 1 <= 2 ^ (e1 - e2)) by (apply Z.pow_le_mono_r; lia).
    change (2 ^ 1) with 2 in *.
    destruct Hcase1 as [Hn1|[Hs1 _]]; [|lia]. nia.
Qed.

(** Reading back a stored valid positive finite number gives it back. *)
Lemma decode_encode_finite (m : positive) (e : Z) :
  bounded prec emax m e = true ->
  Fmt.decode f (Fmt.encode f (S754_finite false m e)) = S754_finite false m e.
Proof.
  intros Hb.
  pose proof (encode_bounded_range m e Hb) as Hr.
  rewrite (encode_bounded m e Hb) in *.
  destruct (bounded_cases m e Hb) as (He & Hlt & Hcase).
  destruct fmt_facts as (Hp & Hem & Hex & Heb & Hpm & Hpp).
  set (c := (e - emin) * 2 ^ mb + Z.pos m) in *.
  assert (Hpe : 0 < 2 ^ Fmt.ebits f) by lia.
  assert (Hsign : Z.testbit c (Fmt.ebits f + mb) = false).
  { apply Z.bits_above_log2; [lia|].
    apply Z.log2_lt_pow2; [lia|]. rewrite Z.pow_add_r by lia. nia. }
  unfold Fmt.decode. rewrite Hsign.
  rewrite Z.shiftr_div_pow2, !Z.land_ones by lia.
  destruct Hcase as [Hn|[Hs Hsm]].
  - assert (Hq : c / 2 ^ mb = e - emin + 1).
    { symmetry. apply Z.div_unique with (Z.pos m - 2 ^ mb); [lia|]. unfold c. ring. }
    assert (Hm : c mod 2 ^ mb = Z.pos m - 2 ^ mb).
    { symmetry. apply Z.mod_unique with (e - emin + 1); [lia|]. unfold c. ring. }
    rewrite Hq, Hm.
    rewrite (Z.mod_small (e - emin + 1)) by lia.
    destruct (Z.eqb_spec (e - emin + 1) 0) as [|_]; [lia|].
    rewrite Z.ones_equiv.
    destruct (Z.eqb_spec (e - emin + 1) (Z.pred (2 ^ Fmt.ebits f))) as [|_]; [lia|].
    f_equal; [|unfold Fmt.bias; lia].
    replace (Z.pos m - 2 ^ mb + 2 ^ mb) with (Z.pos m) by lia. done.
  - assert (Hc : c = Z.pos m) by (unfold c; nia).
    rewrite Hc.
    rewrite (Z.div_small (Z.pos m)), (Z.mod_small (Z.pos m)) by lia.
    rewrite Z.mod_0_l by lia. cbn [Z.eqb].
    destruct (Z.eqb_spec (Z.pos m) 0) as [|_]; [lia|].
    by rewrite Hs.
Qed.

End Codec.

Module sampling.

Lemma lower_eq : Fmt.of_int Fmt.binary64 1 = one64.
Proof. reflexivity. Qed.

Lemma range_eq :
  SFsub 53 1024 (Fmt.of_int Fmt.binary64 10) (Fmt.of_int Fmt.binary64 1) = nine64.
Proof. reflexivity. Qed.

(** The 53-bit integer behind a double in [0, 1). *)
Lemma next_double_bits (w1 w2 : Z) :
  0 <= Z.shiftr (w1 mod 2 ^ 32) 5 * 67108864 + Z.shiftr (w2 mod 2 ^ 32) 6 < 2 ^ 53.
Proof.
  rewrite !Z.shiftr_div_pow2 by lia.
  pose proof (Z.mod_pos_bound w1 (2 ^ 32) ltac:(lia)) as H1.
  pose proof (Z.mod_pos_bound w2 (2 ^ 32) ltac:(lia)) as H2.
  assert (0 <= w1 mod 2 ^ 32 / 2 ^ 5 < 2 ^ 27).
  { split; [apply Z.div_pos; lia|]. apply Z.div_lt_upper_bound; lia. }
  assert (0 <= w2 mod 2 ^ 32 / 2 ^ 6 < 2 ^ 26).
  { split; [apply Z.div_pos; lia|]. apply Z.div_lt_upper_bound; lia. }
  lia.
Qed.

(** [next_double] is zero or a valid double in (0, 1]. *)
Lemma next_double_range (w1 w2 : Z) :
  np.next_double w1 w2 = S754_zero false \/
  exists m e,
    np.next_double w1 w2 = S754_finite false m e /\
    bounded 53 1024 m e = true /\
    dle 1 (-53) (Z.pos m) e /\ dle (Z.pos m) e 1 0.
Proof.
  unfold np.next_double.
  pose proof (next_double_bits w1 w2) as Hk.
  set (k := _ + _) in *.
  destruct k as [|p|p]; [by left|right|lia].
  cbn [binary_normalize].
  destruct (binary_round_enclosed 53 1024 ltac:(lia) p (-53) 1 (-53) 4503599627370496 (-52))
    as (m & e & Hr & Hb & Hlo & Hhi); try (unfold SpecFloat.emin; lia).
  - apply dyadic.dle_same_exp. lia.
  - rewrite (dyadic.dle_scale (-53)) by lia. cbn. lia.
  - exists m, e. split; [done|]. split; [done|]. split; [done|].
    eapply dyadic.dle_trans; [exact Hhi|].
    rewrite (dyadic.dle_scale (-52)) by lia. cbn. lia.
Qed.

(** [1 + 9 * u], in double precision, stays within [1, 10]. *)
Lemma random_uniform_range (u : spec_float) :
  (u = S754_zero false \/
   exists m e, u = S754_finite false m e /\ bounded 53 1024 m e = true /\
               dle 1 (-53) (Z.pos m) e /\ dle (Z.pos m) e 1 0) ->
  exists m e,
    np.random_uniform one64 nine64 u = S754_finite false m e /\
    bounded 53 1024 m e = true /\
    dle 4503599627370496 (-52) (Z.pos m) e /\
    dle (Z.pos m) e 5629499534213120 (-49).
Proof.
  intros [->|(mu & eu & -> & Hbu & Hlo & Hhi)].
  - exists 4503599627370496%positive, (-52). split; [reflexivity|].
    split; [reflexivity|]. split; [apply dyadic.dle_refl|].
    rewrite (dyadic.dle_scale (-52)) by lia. cbn. lia.
  - unfold np.random_uniform, nine64.
    destruct (SFmul_enclosed 53 1024 ltac:(lia) 5066549580791808 mu (-49) eu
                5066549580791808 (-102) 5066549580791808 (-49))
      as (mv & ev & -> & Hbv & Hvlo & Hvhi);
      try done; try (unfold SpecFloat.emin; lia).
    + apply (dyadic_arith.dle_mul 5066549580791808 (-49) 1 (-53) (Z.pos mu) eu); [lia|done].
    + apply (dyadic_arith.dle_mul 5066549580791808 (-49) (Z.pos mu) eu 1 0); [lia|done].
    + unfold one64.
      set (ez := Z.min (-52) ev).
      assert (Hez : ez <= -52 /\ ez <= ev) by (unfold ez; lia).
      rewrite (dyadic.dle_scale ez) in Hvhi by lia.
      set (P := 2 ^ (-52 - ez)) in *.
      assert (HP : 0 < P) by (apply Z.pow_pos_nonneg; lia).
      assert (H8 : 2 ^ (-49 - ez) = 8 * P).
      { unfold P. replace (-49 - ez) with (3 + (-52 - ez)) by lia.
        rewrite Z.pow_add_r by lia. done. }
      rewrite H8 in Hvhi.
      assert (Hpv : 0 <= 2 ^ (ev - ez)) by (apply Z.pow_nonneg; lia).
      apply (SFadd_enclosed 53 1024 ltac:(lia)); fold ez;
        try (unfold SpecFloat.emin; lia).
      * rewrite (dyadic.dle_scale ez) by lia. fold P.
        rewrite Z.sub_diag. change (2 ^ 0) with 1. nia.
      * rewrite (dyadic.dle_scale ez) by lia. fold P.
        rewrite Z.sub_diag, H8. change (2 ^ 0) with 1. nia.
Qed.

(** Every element of [input_x] is one of the half-precision patterns
    from 0x3C00 (1.0) to 0x4900 (10.0). *)
Theorem sample16_range (g : nat -> Z) (i : nat) :
  15360 <= sample16 g i <= 18688.
Proof.
  unfold sample16, np.draw. rewrite range_eq, lower_eq.
  destruct (random_uniform_range _ (next_double_range (g (2 * i)%nat) (g (2 * i + 1)%nat)))
    as (m & e & -> & Hb & Hlo & Hhi).
  unfold np.cast. cbn [dtype_eqb format_of]. unfold Fmt.convert.
  rewrite (decode_encode_finite Fmt.binary64) by done.
  cbn [Fmt.round_to cond_Zopp binary_normalize].
  change (Fmt.prec Fmt.binary16) with 11. change (Fmt.emax Fmt.binary16) with 16.
  destruct (binary_round_enclosed 11 16 ltac:(lia) m e 1024 (-10) 1280 (-7))
    as (mf & ef & -> & Hbf & Hflo & Hfhi); try (unfold SpecFloat.emin; lia).
  - eapply dyadic.dle_trans; [|exact Hlo].
    rewrite (dyadic.dle_scale (-52)) by lia. cbn. lia.
  - eapply dyadic.dle_trans; [exact Hhi|].
    rewrite (dyadic.dle_scale (-49)) by lia. cbn. lia.
  - pose proof (encode_monotone Fmt.binary16 ltac:(done) ltac:(done)
                  1024 mf (-10) ef ltac:(reflexivity) Hbf Hflo) as H1.
    pose proof (encode_monotone Fmt.binary16 ltac:(done) ltac:(done)
                  mf 1280 ef (-7) Hbf ltac:(reflexivity) Hfhi) as H2.
    change (Fmt.encode Fmt.binary16 (S754_finite false 1024 (-10))) with 15360 in H1.
    change (Fmt.encode Fmt.binary16 (S754_finite false 1280 (-7))) with 18688 in H2.
    lia.
Qed.

End sampling.

(** ** The exact functions on the sampled range *)

Module analysis.

Section Reals.

#[local] Open Scope R_scope.

Lemma exp_1_bounds : 2 <= exp 1 <= 3.
Proof.
  split; [|apply exp_le_3].
  pose proof (exp_ineq1_le 1). lra.
Qed.

Lemma exp_monotone (x y : R) : x <= y -> exp x <= exp y.
Proof.
  intros [H| ->]; [left; apply exp_increasing, H|right; reflexivity].
Qed.

Lemma exp_10_le : exp 10 <= 59049.
Proof.
  replace 10 with (1 + 1 + 1 + 1 + 1 + (1 + 1 + 1 + 1 + 1)) by lra.
  rewrite (exp_plus (1 + 1 + 1 + 1 + 1)), !exp_plus.
  destruct exp_1_bounds as [Hl Hh].
  set (E := exp 1) in *.
  assert (H2 : 0 < E * E <= 9) by nra.
  assert (H4 : 0 < E * E * E * E <= 81) by nra.
  assert (H5 : 0 < E * E * E * E * E <= 243) by nra.
  nra.
Qed.

(** [exp] on [1, 10]. *)
Lemma exp_range (x : R) : 1 <= x <= 10 -> 2 <= exp x <= 59049.
Proof.
  intros [Hl Hh]. split.
  - apply Rle_trans with (exp 1); [apply exp_1_bounds|apply exp_monotone; assumption].
  - apply Rle_trans with (exp 10); [apply exp_monotone; assumption|apply exp_10_le].
Qed.

Lemma ln_monotone (x y : R) : 0 < x -> x <= y -> ln x <= ln y.
Proof.
  intros Hx [H| ->]; [left; apply ln_increasing; assumption|right; reflexivity].
Qed.

(** [ln] from 3 on. *)
Lemma ln_range (y : R) : 3 <= y -> 1 <= ln y <= y.
Proof.
  intros Hy. split.
  - rewrite <- (ln_exp 1).
    apply ln_monotone; [apply exp_pos|].
    pose proof exp_1_bounds. lra.
  - pose proof (exp_ineq1_le (ln y)) as H.
    rewrite exp_ln in H by lra. lra.
Qed.

Lemma tanh_frac (z : R) :
  tanh z = (exp z - / exp z) / (exp z + / exp z).
Proof.
  unfold tanh, sinh, cosh. rewrite exp_Ropp.
  pose proof (exp_pos z) as Hp.
  assert (0 < / exp z) by (by apply Rinv_0_lt_compat).
  field. split; [lra|nra].
Qed.

(** [tanh] from 1 on: it stays below 1, and above one half. *)
Lemma tanh_range (z : R) : 1 <= z -> / 2 <= tanh z < 1.
Proof.
  intros Hz. rewrite tanh_frac.
  assert (Ha : 2 <= exp z).
  { apply Rle_trans with (exp 1); [apply exp_1_bounds|apply exp_monotone; assumption]. }
  set (a := exp z) in *.
  assert (Hb : 0 < / a) by (apply Rinv_0_lt_compat; lra).
  assert (Hab : a * / a = 1) by (apply Rinv_r; lra).
  set (b := / a) in *.
  split.
  - apply Rmult_le_reg_r with (a + b); [lra|].
    unfold Rdiv. rewrite Rmult_assoc, Rinv_l by lra. nra.
  - apply Rmult_lt_reg_r with (a + b); [lra|].
    unfold Rdiv. rewrite Rmult_assoc, Rinv_l by lra. lra.
Qed.

End Reals.

End analysis.

Module half_enum.

Lemma all_from_spec (P : Z -> bool) (n : nat) :
  forall lo, all_from P lo n = true ->
  forall b, lo <= b < lo + Z.of_nat n -> P b = true.
Proof.
  induction n as [|n IH]; intros lo H b Hb; [lia|].
  cbn [all_from] in H. apply andb_true_iff in H as [H1 H2].
  destruct (Z.eq_dec b lo) as [->|Hne]; [done|].
  apply (IH (lo + 1)); [done|lia].
Qed.

Lemma dleb_dle m1 e1 m2 e2 : dleb m1 e1 m2 e2 = true <-> dle m1 e1 m2 e2.
Proof. unfold dleb, dle. apply Z.leb_le. Qed.

Lemma in_box_spec ml el mh eh ql qh b :
  in_box ml el mh eh ql qh b = true ->
  (exists m e, Fmt.decode Fmt.binary16 b = S754_finite false m e /\
               bounded 11 16 m e = true /\
               dle ml el (Z.pos m) e /\ dle (Z.pos m) e mh eh) /\
  (Q2R ql <= value Fmt.binary16 b <= Q2R qh)%R.
Proof.
  unfold in_box, value.
  destruct (Fmt.decode Fmt.binary16 b) as [| | |[] m e]; try discriminate.
  rewrite !andb_true_iff, !dleb_dle, !Qle_bool_iff.
  intros ((((Hb & Hlo) & Hhi) & Hql) & Hqh).
  split; [by exists m, e|].
  split; by apply Qle_Rle.
Qed.

Lemma input_box :
  all_from (in_box 1024 (-10) 1280 (-7) 1 10) 15360 (Z.to_nat 3329) = true.
Proof. vm_compute. reflexivity. Qed.

Lemma sum_box :
  all_from (in_box 1536 (-9) 1846 5 3 59072) 16896 (Z.to_nat 14647) = true.
Proof. vm_compute. reflexivity. Qed.

Lemma log_box :
  all_from (in_box 1024 (-10) 1846 5 1 59072) 15360 (Z.to_nat 16183) = true.
Proof. vm_compute. reflexivity. Qed.

Lemma tanh_box :
  all_from (in_box 1024 (-11) 1024 (-10) (1 # 2) 1) 14336 (Z.to_nat 1025) = true.
Proof. vm_compute. reflexivity. Qed.

Lemma add_one_range :
  all_from (fun e => let s := Fmt.add Fmt.binary16 15360 e in
                     (16896 <=? s) && (s <=? 31542)) 16384 (Z.to_nat 15159) = true.
Proof. vm_compute. reflexivity. Qed.

Lemma golden_box :
  all_from (fun g => half_finite g && half_lt 0 g && half_le g 18688)
    14336 (Z.to_nat 4353) = true.
Proof. vm_compute. reflexivity. Qed.

Lemma value_consts :
  value Fmt.binary16 16384 = 2%R /\ value Fmt.binary16 31542 = 59072%R /\
  value Fmt.binary16 15360 = 1%R /\ value Fmt.binary16 14336 = (/ 2)%R.
Proof.
  unfold value. repeat split.
  all: match goal with
       | |- Q2R ?q = _ =>
           let v := eval vm_compute in q in
           change q with v; unfold Q2R; cbn; lra
       end.
Qed.

End half_enum.

Module half_mul.

Lemma dle_mul2 a ea b eb c ec d ed :
  0 <= a -> 0 <= d ->
  dle a ea b eb -> dle c ec d ed ->
  dle (a * c) (ea + ec) (b * d) (eb + ed).
Proof.
  intros Ha Hd H1 H2.
  apply dyadic.dle_trans with (a * d) (ea + ed).
  - by apply dyadic_arith.dle_mul.
  - rewrite (Z.mul_comm a d), (Z.mul_comm b d), (Z.add_comm ea ed), (Z.add_comm eb ed).
    by apply dyadic_arith.dle_mul.
Qed.

(** The product of a number of [1, 10] by a number of [1/2, 1]. *)
Lemma mul_range (x t : Z) :
  15360 <= x <= 18688 -> 14336 <= t <= 15360 ->
  14336 <= Fmt.mul Fmt.binary16 x t <= 18688.
Proof.
  intros Hx Ht.
  pose proof (half_enum.all_from_spec _ _ _ half_enum.input_box x ltac:(lia)) as Bx.
  pose proof (half_enum.all_from_spec _ _ _ half_enum.tanh_box t ltac:(lia)) as Bt.
  apply half_enum.in_box_spec in Bx as [(mx & ex & Dx & Vx & Lx & Hx') _].
  apply half_enum.in_box_spec in Bt as [(mt & et & Dt & Vt & Lt & Ht') _].
  unfold Fmt.mul. rewrite Dx, Dt.
  change (Fmt.prec Fmt.binary16) with 11. change (Fmt.emax Fmt.binary16) with 16.
  destruct (SFmul_enclosed 11 16 ltac:(lia) mx mt ex et 1024 (-11) 1280 (-7))
    as (mf & ef & -> & Hbf & Hflo & Hfhi);
    try done; try (unfold SpecFloat.emin; lia).
  - apply dyadic.dle_trans with (1024 * 1024) (-10 + -11).
    + rewrite (dyadic.dle_scale (-21)) by lia. cbn. lia.
    + apply dle_mul2; [lia|lia|done|done].
  - apply dyadic.dle_trans with (1280 * 1024) (-7 + -10).
    + apply dle_mul2; [lia|lia|done|done].
    + rewrite (dyadic.dle_scale (-17)) by lia. cbn. lia.
  - pose proof (encode_monotone Fmt.binary16 ltac:(done) ltac:(done)
                  1024 mf (-11) ef ltac:(reflexivity) Hbf Hflo) as H1.
    pose proof (encode_monotone Fmt.binary16 ltac:(done) ltac:(done)
                  mf 1280 ef (-7) Hbf ltac:(reflexivity) Hfhi) as H2.
    change (Fmt.encode Fmt.binary16 (S754_finite false 1024 (-11))) with 14336 in H1.
    change (Fmt.encode Fmt.binary16 (S754_finite false 1280 (-7))) with 18688 in H2.
    lia.
Qed.

End half_mul.

Section Accuracy.

Variables exp_loop log_loop tanh_loop : dtype -> Z -> Z.

Hypothesis exp_faithful : faithful Fmt.binary16 exp (exp_loop float16).
Hypothesis log_faithful : faithful Fmt.binary16 ln (log_loop float16).
Hypothesis tanh_faithful : faithful Fmt.binary16 tanh (tanh_loop float16).

Lemma exp16_range (x : Z) :
  15360 <= x <= 18688 -> 16384 <= exp_loop float16 x <= 31542.
Proof.
  intros Hx.
  pose proof (half_enum.all_from_spec _ _ _ half_enum.input_box x ltac:(lia)) as Bx.
  apply half_enum.in_box_spec in Bx as [_ Vx].
  destruct half_enum.value_consts as (V2 & Vh & _).
  apply exp_faithful; try (change (max_finite Fmt.binary16) with 31743; lia).
  rewrite V2, Vh.
  assert (Q2R 1 = 1%R /\ Q2R 10 = 10%R) as [E1 E2] by (unfold Q2R; cbn; split; lra).
  rewrite E1, E2 in Vx.
  pose proof (analysis.exp_range _ Vx). lra.
Qed.

Lemma log16_range (s : Z) :
  16896 <= s <= 31542 -> 15360 <= log_loop float16 s <= 31542.
Proof.
  intros Hs.
  pose proof (half_enum.all_from_spec _ _ _ half_enum.sum_box s ltac:(lia)) as Bs.
  apply half_enum.in_box_spec in Bs as [_ Vs].
  destruct half_enum.value_consts as (_ & Vh & V1 & _).
  apply log_faithful; try (change (max_finite Fmt.binary16) with 31743; lia).
  rewrite V1, Vh.
  assert (Q2R 3 = 3%R /\ Q2R 59072 = 59072%R) as [E1 E2] by (unfold Q2R; cbn; split; lra).
  rewrite E1, E2 in Vs.
  pose proof (analysis.ln_range (value Fmt.binary16 s) ltac:(lra)). lra.
Qed.

Lemma tanh16_range (l : Z) :
  15360 <= l <= 31542 -> 14336 <= tanh_loop float16 l <= 15360.
Proof.
  intros Hl.
  pose proof (half_enum.all_from_spec _ _ _ half_enum.log_box l ltac:(lia)) as Bl.
  apply half_enum.in_box_spec in Bl as [_ Vl].
  destruct half_enum.value_consts as (_ & _ & V1 & Vh).
  apply tanh_faithful; try (change (max_finite Fmt.binary16) with 31743; lia).
  rewrite V1, Vh.
  assert (Q2R 1 = 1%R) as E1 by (unfold Q2R; cbn; lra).
  rewrite E1 in Vl.
  pose proof (analysis.tanh_range (value Fmt.binary16 l) ltac:(lra)). lra.
Qed.

(** Every intermediate result of the Mish of a sampled element. *)
Lemma mish16_chain (x : Z) :
  15360 <= x <= 18688 ->
  let e := exp_loop float16 x in
  let s := Fmt.add Fmt.binary16 15360 e in
  let l := log_loop float16 s in
  let t := tanh_loop float16 l in
  16384 <= e <= 31542 /\ 16896 <= s <= 31542 /\
  15360 <= l <= 31542 /\ 14336 <= t <= 15360 /\
  14336 <= Fmt.mul Fmt.binary16 x t <= 18688.
Proof.
  intros Hx e s l t.
  assert (He : 16384 <= e <= 31542) by (by apply exp16_range).
  assert (Hs : 16896 <= s <= 31542).
  { pose proof (half_enum.all_from_spec _ _ _ half_enum.add_one_range e ltac:(lia)) as H.
    cbv beta zeta in H. fold s in H.
    apply andb_true_iff in H as [H1 H2]. lia. }
  assert (Hl : 15360 <= l <= 31542) by (by apply log16_range).
  assert (Ht : 14336 <= t <= 15360) by (by apply tanh16_range).
  repeat split; try lia; by apply half_mul.mul_range.
Qed.

End Accuracy.

Module reference.

Lemma floor_from_spec (f : Fmt.format) (r : R) (n : nat) :
  let h := floor_from f n r in
  0 <= h <= Z.of_nat n /\
  (0 < h -> (value f h <= r)%R) /\
  (forall c, h < c <= Z.of_nat n -> ~ (value f c <= r)%R).
Proof.
  induction n as [|n IH]; cbn [floor_from].
  - split; [lia|]. split; intros; lia.
  - destruct (Rle_dec (value f (Z.of_nat (S n))) r) as [Hle|Hgt].
    + split; [lia|]. split; [done|]. intros c Hc. lia.
    + destruct IH as (H1 & H2 & H3).
      split; [lia|]. split; [done|].
      intros c Hc.
      destruct (Z.eq_dec c (Z.of_nat (S n))) as [->|Hne]; [done|].
      apply H3. lia.
Qed.

Lemma adjacent16 :
  all_from (fun a => negb (Qle_bool (SF2Q (Fmt.decode Fmt.binary16 (a + 1)))
                                   (SF2Q (Fmt.decode Fmt.binary16 a))))
    0 (Z.to_nat 31743) = true.
Proof. vm_compute. reflexivity. Qed.

Lemma value16_succ (a : Z) :
  0 <= a < 31743 -> (value Fmt.binary16 a < value Fmt.binary16 (a + 1))%R.
Proof.
  intros Ha.
  pose proof (half_enum.all_from_spec _ _ _ adjacent16 a ltac:(lia)) as H.
  cbv beta in H. apply negb_true_iff in H.
  unfold value. apply Qlt_Rlt. apply Qnot_le_lt. intros Hle.
  apply Qle_bool_iff in Hle. congruence.
Qed.

(** Among non-negative finite half-precision numbers, a larger pattern
    is a larger value. *)
Lemma value16_increasing (a b : Z) :
  0 <= a -> a < b -> b <= 31743 ->
  (value Fmt.binary16 a < value Fmt.binary16 b)%R.
Proof.
  intros Ha Hab Hb.
  remember (Z.to_nat (b - a - 1)) as k eqn:Hk.
  revert b Hab Hb Hk. induction k as [|k IH]; intros b Hab Hb Hk.
  - replace b with (a + 1) by lia. apply value16_succ. lia.
  - apply Rlt_trans with (value Fmt.binary16 (b - 1)).
    + apply IH; lia.
    + replace b with (b - 1 + 1) at 2 by lia. apply value16_succ. lia.
Qed.

(** The reference library meets the accuracy asked of the platform's. *)
Theorem ref_loop_faithful (F : R -> R) :
  faithful Fmt.binary16 F (ref_loop F float16).
Proof.
  intros x lo hi Hx Hlo Hhi [Hl Hh].
  change (max_finite Fmt.binary16) with 31743 in *.
  unfold ref_loop. cbn [format_of].
  change (max_finite Fmt.binary16) with 31743.
  set (r := F (value Fmt.binary16 x)) in *.
  destruct (floor_from_spec Fmt.binary16 r (Z.to_nat 31743)) as (H1 & H2 & H3).
  set (h := floor_from Fmt.binary16 (Z.to_nat 31743) r) in *.
  rewrite Z2Nat.id in * by lia.
  split.
  - destruct (Z.le_gt_cases lo h) as [|Hlt]; [done|exfalso].
    apply (H3 lo); [lia|done].
  - destruct (Z.le_gt_cases h hi) as [|Hgt]; [done|exfalso].
    pose proof (value16_increasing hi h ltac:(lia) Hgt ltac:(lia)) as Hinc.
    specialize (H2 ltac:(lia)). lra.
Qed.

End reference.

Module list_facts.

Lemma lookup_map {A B} (f : A -> B) (l : list A) (i : nat) :
  map f l !! i = f <$> (l !! i).
Proof.
  revert i. induction l as [|x l IH]; intros [|i]; cbn; try done.
Qed.

Lemma Forall_map_seq {B} (P : B -> Prop) (f : nat -> B) (a n : nat) :
  (forall i, P (f i)) -> Forall P (map f (seq a n)).
Proof.
  intros H. apply Forall_map. apply Forall_forall. intros i _. apply H.
Qed.

End list_facts.

(** ** Opening and writing files *)

Module io_facts.

Lemma dirname_input_path : np.dirname input_path = "./AclNNInvocation/input"%string.
Proof. reflexivity. Qed.

Lemma dirname_golden_path : np.dirname golden_path = "./AclNNInvocation/output"%string.
Proof. reflexivity. Qed.

Lemma parents_input_path :
  np.parents input_path
  = ["."; "./AclNNInvocation"; "./AclNNInvocation/input"]%string.
Proof. reflexivity. Qed.

Lemma parents_golden_path :
  np.parents golden_path
  = ["."; "./AclNNInvocation"; "./AclNNInvocation/output"]%string.
Proof. reflexivity. Qed.

Lemma input_dir_on_way : "./AclNNInvocation/input"%string ∈ np.parents input_path.
Proof.
  rewrite parents_input_path. do 2 apply list_elem_of_further. apply list_elem_of_here.
Qed.

Lemma golden_dir_on_way : "./AclNNInvocation/output"%string ∈ np.parents golden_path.
Proof.
  rewrite parents_golden_path. do 2 apply list_elem_of_further. apply list_elem_of_here.
Qed.

Lemma paths_differ : input_path <> golden_path.
Proof. discriminate. Qed.

Lemma le_bytes_length n z : length (np.le_bytes n z) = n.
Proof. revert z. induction n as [|n IH]; intros z; simpl; [done|]. by rewrite IH. Qed.

Lemma tobytes_length a :
  length (np.tobytes a) = (itemsize (arr_dtype a) * length (arr_data a))%nat.
Proof.
  unfold np.tobytes. induction (arr_data a) as [|x l IH]; simpl; [lia|].
  rewrite length_app, le_bytes_length, IH. lia.
Qed.

(** The lookup reads the directories, and the files that stand where a
    directory is looked for. *)
Lemma walk_frame w w' path ds :
  fs_dirs w' = fs_dirs w ->
  (forall q, q ∈ ds -> fs_files w' !! q = fs_files w !! q) ->
  np.walk w' path ds = np.walk w path ds.
Proof.
  intros Hd. induction ds as [|d ds IH]; intros Hf; cbn [np.walk]; [done|].
  rewrite Hd, (Hf d (list_elem_of_here _ _)).
  rewrite IH; [done|]. intros q Hq. apply Hf. by apply list_elem_of_further.
Qed.

Lemma open_error_frame w w' path :
  fs_dirs w' = fs_dirs w ->
  (forall q, q ∈ path :: np.parents path -> fs_files w' !! q = fs_files w !! q) ->
  (path ∈ fs_readonly w' <-> path ∈ fs_readonly w) ->
  np.open_error w' path = np.open_error w path.
Proof.
  intros Hd Hf Hr. unfold np.open_error.
  rewrite (walk_frame w w' path (np.parents path) Hd).
  2:{ intros q Hq. apply Hf. by apply list_elem_of_further. }
  rewrite Hd, (Hf path (list_elem_of_here _ _)).
  destruct (np.walk w path (np.parents path)); [done|].
  destruct (fs_dirs w !! path); [done|].
  destruct (fs_files w !! path); [|done].
  destruct (decide (path ∈ fs_readonly w)) as [Hin|Hout].
  - rewrite !bool_decide_eq_true_2; tauto.
  - rewrite !bool_decide_eq_false_2; tauto.
Qed.

Lemma written_files p bs w : fs_files (written p bs w) = <[p := bs]> (fs_files w).
Proof. apply insert_insert_eq. Qed.

Lemma written_readonly p bs w :
  fs_readonly (written p bs w) =
  match fs_files w !! p with
  | Some _ => fs_readonly w
  | None => if fs_new_writable w then fs_readonly w ∖ {[p]}
            else {[p]} ∪ fs_readonly w
  end.
Proof. reflexivity. Qed.

Lemma accepted_whole w path bs :
  (length (np.accepted w path bs) <? length bs)%nat = false ->
  np.accepted w path bs = bs.
Proof.
  intros H. apply Nat.ltb_ge in H. unfold np.accepted in *.
  destruct (fs_limit w !! path) as [k|]; [|reflexivity].
  apply take_ge. rewrite length_take in H. lia.
Qed.

(** What [tofile] returns, and the file system it leaves. *)
Lemma tofile_cases a path w :
  np.tofile a path w =
  match np.open_error w path with
  | Some e => (inl e, w)
  | None =>
      (match np.tofile_error w a path with
       | Some e => inl e
       | None => inr tt
       end,
       written path (np.accepted w path (np.tobytes a)) w)
  end.
Proof.
  unfold np.tofile, bind, np.open_wb, np.tofile_error.
  destruct (np.open_error w path); [reflexivity|].
  unfold np.fwrite, written.
  change (np.accepted (np.truncated path w) path (np.tobytes a))
    with (np.accepted w path (np.tobytes a)).
  destruct (_ <? _)%nat; reflexivity.
Qed.

(** Writing one file does not change whether, and why, another one can
    be written. *)
Lemma open_error_other p q bs w :
  q ∉ p :: np.parents p ->
  np.open_error (written q bs w) p = np.open_error w p.
Proof.
  intros Hq. apply open_error_frame; [reflexivity| |].
  - intros r Hr. rewrite written_files.
    apply lookup_insert_ne. intros ->. contradiction.
  - rewrite written_readonly.
    assert (Hne : p <> q) by (intros ->; apply Hq, list_elem_of_here).
    destruct (fs_files w !! q), (fs_new_writable w); try reflexivity.
    + rewrite elem_of_difference, elem_of_singleton. tauto.
    + rewrite elem_of_union, elem_of_singleton. tauto.
Qed.

Lemma tofile_error_other a p q bs w :
  q ∉ p :: np.parents p ->
  np.tofile_error (written q bs w) a p = np.tofile_error w a p.
Proof.
  intros Hq. unfold np.tofile_error.
  by rewrite (open_error_other p q bs w Hq).
Qed.

Lemma input_off_golden_way : input_path ∉ golden_path :: np.parents golden_path.
Proof.
  rewrite parents_golden_path. rewrite !not_elem_of_cons.
  repeat split; try discriminate. apply not_elem_of_nil.
Qed.

End io_facts.

(** ** The run, write by write *)

Section RunFacts.

Variables exp_loop log_loop tanh_loop : dtype -> Z -> Z.

#[local] Abbreviation run := (gen_golden_data_simple exp_loop log_loop tanh_loop).

#[local] Abbreviation golden_tensor w :=
  (mk_ndarray float16 [8; 2048]%nat
     (map (mish16 exp_loop log_loop tanh_loop) (arr_data (input_x_of w)))).

Lemma sampled_dirs w : fs_dirs (sampled w) = fs_dirs w.
Proof. reflexivity. Qed.

Lemma sampled_files w : fs_files (sampled w) = fs_files w.
Proof. reflexivity. Qed.

Lemma accepted_sampled w p bs : np.accepted (sampled w) p bs = np.accepted w p bs.
Proof. reflexivity. Qed.

Lemma open_error_sampled w p : np.open_error (sampled w) p = np.open_error w p.
Proof. by apply io_facts.open_error_frame. Qed.

Lemma tofile_error_sampled w a p :
  np.tofile_error (sampled w) a p = np.tofile_error w a p.
Proof. unfold np.tofile_error. by rewrite open_error_sampled. Qed.

(** The run, by what the file system it starts in lets the two writes
    do. *)
Lemma run_cases w :
  run w =
  match np.open_error w input_path with
  | Some e => (inl e, sampled w)
  | None =>
      let w1 := written input_path
                  (np.accepted w input_path (np.tobytes (input_x_of w))) (sampled w) in
      match np.tofile_error w (input_x_of w) input_path with
      | Some e => (inl e, w1)
      | None =>
          match np.open_error w golden_path with
          | Some e => (inl e, w1)
          | None =>
              (match np.tofile_error w (golden_tensor w) golden_path with
               | Some e => inl e
               | None => inr tt
               end,
               written golden_path
                 (np.accepted w golden_path (np.tobytes (golden_tensor w))) w1)
          end
      end
  end.
Proof.
  rewrite gen_golden_data_simple_eq, golden_of_eq. unfold bind.
  rewrite io_facts.tofile_cases.
  rewrite open_error_sampled, tofile_error_sampled, accepted_sampled.
  destruct (np.open_error w input_path) as [e|]; [reflexivity|].
  destruct (np.tofile_error w (input_x_of w) input_path) as [e|]; [reflexivity|].
  cbv zeta. rewrite io_facts.tofile_cases.
  rewrite io_facts.open_error_other by apply io_facts.input_off_golden_way.
  rewrite io_facts.tofile_error_other by apply io_facts.input_off_golden_way.
  rewrite open_error_sampled, tofile_error_sampled.
  reflexivity.
Qed.

End RunFacts.

(** ** The bytes of a buffer *)

Module bytes.

Lemma byte_of_Z_to_N (z : Z) :
  0 <= z < 256 -> Byte.to_N (np.byte_of_Z z) = Z.to_N z.
Proof.
  intros Hz. unfold np.byte_of_Z.
  destruct (Byte.of_N (Z.to_N z)) as [b|] eqn:E.
  - by apply Byte.to_of_N.
  - apply Byte.of_N_None_iff in E. lia.
Qed.

Lemma byte_of_Z_inj (a b : Z) :
  0 <= a < 256 -> 0 <= b < 256 -> np.byte_of_Z a = np.byte_of_Z b -> a = b.
Proof.
  intros Ha Hb H.
  pose proof (byte_of_Z_to_N a Ha) as H1.
  pose proof (byte_of_Z_to_N b Hb) as H2.
  rewrite H in H1. rewrite H1 in H2. lia.
Qed.

Lemma low_high (a : Z) :
  0 <= a < 65536 ->
  0 <= Z.land a 255 < 256 /\ 0 <= Z.land (Z.shiftr a 8) 255 < 256 /\
  a = Z.land a 255 + 256 * Z.land (Z.shiftr a 8) 255.
Proof.
  intros Ha.
  change 255 with (Z.ones 8). rewrite !Z.land_ones, Z.shiftr_div_pow2 by lia.
  change (2 ^ 8) with 256.
  pose proof (Z.mod_pos_bound a 256 ltac:(lia)).
  assert (0 <= a / 256 < 256).
  { split; [apply Z.div_pos; lia|apply Z.div_lt_upper_bound; lia]. }
  rewrite (Z.mod_small (a / 256)) by lia.
  pose proof (Z.div_mod a 256 ltac:(lia)). lia.
Qed.

(** The two bytes written for a 16-bit element determine it. *)
Lemma le_bytes2_inj (a b : Z) :
  0 <= a < 65536 -> 0 <= b < 65536 ->
  np.le_bytes 2 a = np.le_bytes 2 b -> a = b.
Proof.
  intros Ha Hb H. cbn [np.le_bytes] in H.
  destruct (low_high a Ha) as (A1 & A2 & A3).
  destruct (low_high b Hb) as (B1 & B2 & B3).
  apply (f_equal (fun l => (nth 0 l x00, nth 1 l x00))) in H. cbn [nth] in H.
  apply pair_equal_spec in H as [H0 H1].
  apply byte_of_Z_inj in H0; [|done|done].
  apply byte_of_Z_inj in H1; [|done|done].
  lia.
Qed.

Lemma buffer16_inj (l1 l2 : list Z) :
  Forall (fun x => 0 <= x < 65536) l1 ->
  Forall (fun x => 0 <= x < 65536) l2 ->
  concat (map (np.le_bytes 2) l1) = concat (map (np.le_bytes 2) l2) ->
  l1 = l2.
Proof.
  intros H1. revert l2. induction H1 as [|x l1 Hx H1 IH]; intros l2 H2 H.
  - destruct H2 as [|y l2 Hy H2]; [done|]. cbn in H. discriminate.
  - destruct H2 as [|y l2 Hy H2]; [cbn in H; discriminate|].
    cbn [map concat np.le_bytes app] in H.
    injection H as E0 E1 Ht.
    assert (Hh : np.le_bytes 2 x = np.le_bytes 2 y).
    { cbn [np.le_bytes]. by rewrite E0, E1. }
    f_equal; [by apply le_bytes2_inj|by apply IH].
Qed.

(** The bytes of a two-byte element, whatever the integer: its low eight
    bits, then the next eight. *)
Lemma le_bytes2_values (x : Z) :
  map Byte.to_N (np.le_bytes 2 x)
  = [Z.to_N (x mod 256); Z.to_N (x / 256 mod 256)].
Proof.
  cbn [np.le_bytes map].
  change 255 with (Z.ones 8). rewrite !Z.land_ones, Z.shiftr_div_pow2 by lia.
  change (2 ^ 8) with 256.
  pose proof (Z.mod_pos_bound x 256 ltac:(lia)).
  pose proof (Z.mod_pos_bound (x / 256) 256 ltac:(lia)).
  by rewrite !byte_of_Z_to_N.
Qed.

(** Element [i] of a buffer of two-byte elements is at bytes [2i] and
    [2i + 1], low byte first. *)
Lemma buffer16_lookup (l : list Z) (i : nat) (x : Z) :
  l !! i = Some x ->
  Byte.to_N <$> concat (map (np.le_bytes 2) l) !! (2 * i)%nat
  = Some (Z.to_N (x mod 256)) /\
  Byte.to_N <$> concat (map (np.le_bytes 2) l) !! (2 * i + 1)%nat
  = Some (Z.to_N (x / 256 mod 256)).
Proof.
  revert i. induction l as [|y l IH]; intros i Hi; [done|].
  destruct i as [|i].
  - cbn in Hi. apply (inj Some) in Hi. subst y.
    pose proof (le_bytes2_values x) as Hv.
    cbn [map concat]. cbn [np.le_bytes] in *. cbn [map] in Hv.
    injection Hv as H0 H1.
    cbn. by rewrite H0, H1.
  - cbn in Hi. destruct (IH i Hi) as [H0 H1].
    cbn [map concat]. cbn [np.le_bytes app].
    replace (2 * S i)%nat with (S (S (2 * i))) by lia.
    replace (S (S (2 * i)) + 1)%nat with (S (S (2 * i + 1))) by lia.
    cbn [lookup list_lookup]. split; [exact H0|exact H1].
Qed.

End bytes.

(** ** The sampled tensor and the golden tensor *)

Lemma numel_fixed : numel [8; 2048]%nat = Z.to_nat 16384.
Proof.
  apply Nat2Z.inj. rewrite Z2Nat.id by lia. vm_compute. reflexivity.
Qed.

Lemma input_x_elements (P : Z -> Prop) (w : world) :
  (forall i, P (sample16 (bitgen w) i)) -> Forall P (arr_data (input_x_of w)).
Proof.
  intros H. rewrite input_x_of_eq. cbn [arr_data].
  by apply list_facts.Forall_map_seq.
Qed.

Lemma half_range_facts (x : Z) :
  15360 <= x <= 18688 ->
  half_le (half_of_int 1) x = true /\ half_le x (half_of_int 10) = true.
Proof.
  intros Hx.
  assert (H : all_from (fun x => half_le (half_of_int 1) x && half_le x (half_of_int 10))
                15360 (Z.to_nat 3329) = true) by (vm_compute; reflexivity).
  pose proof (half_enum.all_from_spec _ _ _ H x ltac:(lia)) as Hb.
  cbv beta in Hb. by apply andb_true_iff in Hb.
Qed.

(** C3, as stated, fails: a draw close below 10 is stored as 10.0, which is
    not below 10. *)
Lemma C3_counterexample :
  ~ (forall w : world,
       Forall (fun x => half_le (half_of_int 1) x = true /\
                        half_lt x (half_of_int 10) = true)
         (arr_data (input_x_of w))).
Proof.
  intros H. specialize (H world_high).
  rewrite input_x_of_eq in H. cbn [arr_data] in H.
  destruct (numel [8; 2048]%nat) as [|n] eqn:E; [vm_compute in E; discriminate|].
  cbn [seq map] in H. apply Forall_inv in H as [_ H].
  vm_compute in H. discriminate.
Qed.

(** C3, amended: every element of the stored input tensor lies in the
    closed interval [1, 10]; the upper end is reached when a draw of
    [1, 10) is rounded up to half precision. *)
Theorem C3_stored_input_in_closed_range (w : world) :
  Forall (fun x => half_le (half_of_int 1) x = true /\
                   half_le x (half_of_int 10) = true)
    (arr_data (input_x_of w)).
Proof.
  apply input_x_elements. intros i.
  apply half_range_facts, sampling.sample16_range.
Qed.

(** C4: the input tensor has shape (8, 2048), hence 16,384 elements, on
    every run. *)
Theorem C4_input_shape (w : world) :
  arr_shape (input_x_of w) = [8; 2048]%nat /\
  Z.of_nat (numel (arr_shape (input_x_of w))) = 16384 /\
  Z.of_nat (length (arr_data (input_x_of w))) = 16384.
Proof.
  rewrite input_x_length, input_x_of_eq. cbn [arr_shape].
  rewrite numel_fixed. repeat split; lia.
Qed.

Section GeneratorClaims.

Variables exp_loop log_loop tanh_loop : dtype -> Z -> Z.

(** C5: the golden tensor has the shape and the dtype of the input
    tensor, float16. *)
Theorem C5_golden_shape_dtype (w : world) :
  exists golden,
    golden_of exp_loop log_loop tanh_loop w = inr golden /\
    arr_shape golden = arr_shape (input_x_of w) /\
    arr_dtype golden = arr_dtype (input_x_of w) /\
    arr_dtype golden = float16 /\
    length (arr_data golden) = length (arr_data (input_x_of w)).
Proof.
  eexists. split; [apply golden_of_eq|].
  rewrite input_x_of_eq. cbn [arr_shape arr_dtype arr_data].
  by rewrite !length_map.
Qed.

(** C7: two runs that sample the same input tensor compute the same
    golden tensor. *)
Theorem C7_golden_determined_by_input (w1 w2 : world) :
  input_x_of w1 = input_x_of w2 ->
  exists golden,
    golden_of exp_loop log_loop tanh_loop w1 = inr golden /\
    golden_of exp_loop log_loop tanh_loop w2 = inr golden /\
    forall i : nat,
      arr_data golden !! i
      = mish16 exp_loop log_loop tanh_loop <$> (arr_data (input_x_of w1) !! i).
Proof.
  intros H. eexists.
  split; [apply golden_of_eq|]. split.
  - unfold golden_of. rewrite <- H. apply golden_of_eq.
  - intros i. cbn [arr_data]. apply list_facts.lookup_map.
Qed.

End GeneratorClaims.

Lemma input_x_facts (w : world) :
  arr_dtype (input_x_of w) = float16 /\
  Z.of_nat (length (arr_data (input_x_of w))) = 16384.
Proof.
  rewrite input_x_of_eq. cbn [arr_dtype arr_data]. split; [reflexivity|].
  rewrite length_map, length_seq, numel_fixed. lia.
Qed.

Lemma input_x_16bit (w : world) :
  Forall (fun x => 0 <= x < 65536) (arr_data (input_x_of w)).
Proof.
  apply input_x_elements. intros i.
  pose proof (sampling.sample16_range (bitgen w) i). lia.
Qed.

(** ** The two files *)

Module open_facts.

Lemma tofile_error_open w a p e :
  np.open_error w p = Some e -> np.tofile_error w a p = Some e.
Proof. intros H. unfold np.tofile_error. by rewrite H. Qed.

Lemma tofile_error_none w a p :
  np.tofile_error w a p = None ->
  np.open_error w p = None /\ np.accepted w p (np.tobytes a) = np.tobytes a.
Proof.
  unfold np.tofile_error. intros H.
  destruct (np.open_error w p); [discriminate H|].
  destruct (_ <? _)%nat eqn:E; [discriminate H|].
  split; [reflexivity|]. by apply io_facts.accepted_whole.
Qed.

Lemma tofile_error_unlimited w a p :
  fs_limit w !! p = None -> np.tofile_error w a p = np.open_error w p.
Proof.
  intros H. unfold np.tofile_error, np.accepted. rewrite H.
  rewrite Nat.ltb_irrefl. by destruct (np.open_error w p).
Qed.

(** A short write leaves a proper prefix of the buffer, and tells how
    many items of it. *)
Lemma tofile_error_short w a p e :
  np.open_error w p = None -> np.tofile_error w a p = Some e ->
  exists k : nat,
    fs_limit w !! p = Some k /\ (k < length (np.tobytes a))%nat /\
    np.accepted w p (np.tobytes a) = take k (np.tobytes a) /\
    e = OSError (length (arr_data a)) (k / itemsize (arr_dtype a)).
Proof.
  intros Ho. unfold np.tofile_error, np.accepted. rewrite Ho.
  destruct (fs_limit w !! p) as [k|].
  - destruct (_ <? _)%nat eqn:E; [|discriminate].
    apply Nat.ltb_lt in E. rewrite length_take in E.
    intros H. apply (inj Some) in H. subst e.
    exists k. split; [reflexivity|]. split; [lia|]. split; [reflexivity|].
    rewrite length_take. by replace (k `min` length (np.tobytes a))%nat with k by lia.
  - by rewrite Nat.ltb_irrefl.
Qed.

(** A file that is not there cannot be created when its directory is
    missing or does not take new names. *)
Lemma open_error_no_directory w p :
  fs_files w !! p = None ->
  (forall m, fs_dirs w !! np.dirname p = Some m -> d_write m = false) ->
  exists e, np.open_error w p = Some e.
Proof.
  intros Hf Hd. unfold np.open_error.
  destruct (np.walk w p (np.parents p)); [by eexists|].
  destruct (fs_dirs w !! p); [by eexists|].
  rewrite Hf.
  destruct (fs_dirs w !! np.dirname p) as [m|]; [|by eexists].
  rewrite (Hd m eq_refl). by eexists.
Qed.

(** A file that is there and read-only cannot be opened for writing. *)
Lemma open_error_read_only w p :
  is_Some (fs_files w !! p) -> p ∈ fs_readonly w ->
  exists e, np.open_error w p = Some e.
Proof.
  intros [bs Hf] Hr. unfold np.open_error.
  destruct (np.walk w p (np.parents p)); [by eexists|].
  destruct (fs_dirs w !! p); [by eexists|].
  rewrite Hf, bool_decide_eq_true_2 by exact Hr. by eexists.
Qed.

(** The lookup fails at a directory that is missing. *)
Lemma walk_missing w p ds d :
  d ∈ ds -> fs_dirs w !! d = None -> exists e, np.walk w p ds = Some e.
Proof.
  intros Hin Hd. induction ds as [|d' ds IH]; [by apply elem_of_nil in Hin|].
  cbn [np.walk].
  destruct (fs_dirs w !! d') as [m|] eqn:E.
  - destruct (d_search m); [|by eexists].
    apply IH. apply elem_of_cons in Hin as [->|Hin]; [congruence|exact Hin].
  - destruct (fs_files w !! d'); by eexists.
Qed.

Lemma open_error_missing w p d :
  d ∈ np.parents p -> fs_dirs w !! d = None -> exists e, np.open_error w p = Some e.
Proof.
  intros Hin Hd. unfold np.open_error.
  destruct (walk_missing w p _ d Hin Hd) as [e ->]. by eexists.
Qed.

(** When every directory on the way is there and searchable, the lookup
    succeeds. *)
Lemma walk_fine w p ds :
  (forall d, d ∈ ds -> exists m, fs_dirs w !! d = Some m /\ d_search m = true) ->
  np.walk w p ds = None.
Proof.
  induction ds as [|d ds IH]; intros H; cbn [np.walk]; [reflexivity|].
  destruct (H d (list_elem_of_here _ _)) as (m & -> & ->).
  apply IH. intros d' Hd'. apply H. by apply list_elem_of_further.
Qed.

End open_facts.

Section OutputFacts.

Variables exp_loop log_loop tanh_loop : dtype -> Z -> Z.

#[local] Abbreviation run := (gen_golden_data_simple exp_loop log_loop tanh_loop).

#[local] Abbreviation golden_tensor w :=
  (mk_ndarray float16 [8; 2048]%nat
     (map (mish16 exp_loop log_loop tanh_loop) (arr_data (input_x_of w)))).

Lemma tensor_bytes (a : ndarray) :
  arr_dtype a = float16 ->
  Z.of_nat (length (arr_data a)) = 16384 ->
  np.tobytes a = concat (map (np.le_bytes 2) (arr_data a)) /\
  Z.of_nat (length (np.tobytes a)) = 32768.
Proof.
  intros Hd Hn. split.
  - unfold np.tobytes. by rewrite Hd.
  - rewrite io_facts.tobytes_length, Hd. cbn [itemsize]. lia.
Qed.

Lemma golden_tensor_facts w :
  arr_dtype (golden_tensor w) = float16 /\
  Z.of_nat (length (arr_data (golden_tensor w))) = 16384.
Proof.
  split; [reflexivity|]. cbn [arr_data]. rewrite length_map.
  apply input_x_facts.
Qed.

Lemma run_fst w :
  fst (run w) =
  match np.tofile_error w (input_x_of w) input_path with
  | Some e => inl e
  | None =>
      match np.tofile_error w (golden_tensor w) golden_path with
      | Some e => inl e
      | None => inr tt
      end
  end.
Proof.
  rewrite run_cases.
  destruct (np.open_error w input_path) as [e|] eqn:E1.
  - by rewrite (open_facts.tofile_error_open _ _ _ _ E1).
  - cbv zeta.
    destruct (np.tofile_error w (input_x_of w) input_path) as [e|]; [reflexivity|].
    destruct (np.open_error w golden_path) as [e|] eqn:E2; [|reflexivity].
    by rewrite (open_facts.tofile_error_open _ _ _ _ E2).
Qed.

Lemma run_success w :
  fst (run w) = inr tt <->
  np.tofile_error w (input_x_of w) input_path = None /\
  np.tofile_error w (golden_tensor w) golden_path = None.
Proof.
  rewrite run_fst.
  destruct (np.tofile_error w (input_x_of w) input_path) as [e|].
  { split; [discriminate|intros [H _]; discriminate H]. }
  destruct (np.tofile_error w (golden_tensor w) golden_path) as [e|].
  { split; [discriminate|intros [_ H]; discriminate H]. }
  split; [intros _; split; reflexivity|reflexivity].
Qed.

(** The file system after a successful run. *)
Lemma run_success_world w :
  fst (run w) = inr tt ->
  snd (run w) =
  written golden_path (np.tobytes (golden_tensor w))
    (written input_path (np.tobytes (input_x_of w)) (sampled w)).
Proof.
  intros Hok. apply run_success in Hok as [H1 H2].
  destruct (open_facts.tofile_error_none _ _ _ H1) as [O1 A1].
  destruct (open_facts.tofile_error_none _ _ _ H2) as [O2 A2].
  rewrite run_cases, O1, H1, O2, H2, A1, A2. reflexivity.
Qed.

Lemma success_files (w : world) :
  fst (run w) = inr tt ->
  exists golden,
    golden_of exp_loop log_loop tanh_loop w = inr golden /\
    fs_files (snd (run w))
    = <[golden_path := np.tobytes golden]>
        (<[input_path := np.tobytes (input_x_of w)]> (fs_files w)) /\
    fs_files (snd (run w)) !! input_path = Some (np.tobytes (input_x_of w)) /\
    fs_files (snd (run w)) !! golden_path = Some (np.tobytes golden) /\
    Z.of_nat (length (np.tobytes (input_x_of w))) = 32768 /\
    Z.of_nat (length (np.tobytes golden)) = 32768.
Proof.
  intros Hok. exists (golden_tensor w). split; [apply golden_of_eq|].
  rewrite (run_success_world w Hok).
  rewrite !io_facts.written_files, sampled_files.
  destruct (input_x_facts w) as (Hd & Hlen).
  destruct (golden_tensor_facts w) as (Hd' & Hlen').
  split; [reflexivity|]. split.
  { rewrite lookup_insert_ne by (symmetry; apply io_facts.paths_differ).
    apply lookup_insert_eq. }
  split; [apply lookup_insert_eq|]. split.
  - apply (tensor_bytes (input_x_of w) Hd Hlen).
  - apply (tensor_bytes (golden_tensor w) Hd' Hlen').
Qed.

Lemma run_rest w :
  bitgen (snd (run w)) = bitgen (sampled w) /\
  fs_dirs (snd (run w)) = fs_dirs w /\
  fs_new_writable (snd (run w)) = fs_new_writable w /\
  fs_limit (snd (run w)) = fs_limit w.
Proof.
  rewrite run_cases.
  destruct (np.open_error w input_path); [by cbn [snd]|]. cbv zeta.
  destruct (np.tofile_error w (input_x_of w) input_path); [by cbn [snd]|].
  destruct (np.open_error w golden_path); by cbn [snd].
Qed.

Lemma run_dirs w : fs_dirs (snd (run w)) = fs_dirs w.
Proof. apply run_rest. Qed.

Lemma run_bitgen w : bitgen (snd (run w)) = bitgen (sampled w).
Proof. apply run_rest. Qed.

Lemma run_other_files w (p : string) :
  p <> input_path -> p <> golden_path ->
  fs_files (snd (run w)) !! p = fs_files w !! p.
Proof.
  intros H1 H2. rewrite run_cases.
  destruct (np.open_error w input_path); [reflexivity|]. cbv zeta.
  destruct (np.tofile_error w (input_x_of w) input_path); cbn [snd];
    [|destruct (np.open_error w golden_path); cbn [snd]];
    rewrite !io_facts.written_files, sampled_files;
    rewrite ?lookup_insert_ne by done; reflexivity.
Qed.

End OutputFacts.

(** C8, as stated, fails: with both target directories read-only and both
    files already there and writable, the run succeeds. *)
Lemma C8_counterexample :
  ~ (forall (exp_loop log_loop tanh_loop : dtype -> Z -> Z) (w : world),
       (exists e, fst (gen_golden_data_simple exp_loop log_loop tanh_loop w) = inl e) <->
       (forall m, fs_dirs w !! "./AclNNInvocation/input"%string = Some m ->
                  d_write m = false) \/
       (forall m, fs_dirs w !! "./AclNNInvocation/output"%string = Some m ->
                  d_write m = false)).
Proof.
  intros H.
  destruct (proj2 (H ref_exp ref_log ref_tanh world_readonly_dirs)) as [e He].
  { left. intros m Hm. vm_compute in Hm. apply (inj Some) in Hm. by subst m. }
  rewrite run_fst in He.
  rewrite !open_facts.tofile_error_unlimited in He by reflexivity.
  vm_compute in He. discriminate He.
Qed.

Section OutputClaims.

Variables exp_loop log_loop tanh_loop : dtype -> Z -> Z.

#[local] Abbreviation run := (gen_golden_data_simple exp_loop log_loop tanh_loop).

#[local] Abbreviation golden_tensor w :=
  (mk_ndarray float16 [8; 2048]%nat
     (map (mish16 exp_loop log_loop tanh_loop) (arr_data (input_x_of w)))).

(** C2: after a successful run the file map is the old one with the two
    paths set to the raw element buffers of the two tensors: 16,384
    elements of two bytes each, 32,768 bytes, element [i] at bytes [2i]
    and [2i + 1], low byte first, and nothing before or after. *)
Theorem C2_two_raw_files (w : world) :
  fst (run w) = inr tt ->
  exists golden,
    golden_of exp_loop log_loop tanh_loop w = inr golden /\
    fs_files (snd (run w))
    = <[golden_path := np.tobytes golden]>
        (<[input_path := np.tobytes (input_x_of w)]> (fs_files w)) /\
    fs_files (snd (run w)) !! input_path = Some (np.tobytes (input_x_of w)) /\
    fs_files (snd (run w)) !! golden_path = Some (np.tobytes golden) /\
    Z.of_nat (length (arr_data (input_x_of w))) = 16384 /\
    Z.of_nat (length (arr_data golden)) = 16384 /\
    Z.of_nat (length (np.tobytes (input_x_of w))) = 32768 /\
    Z.of_nat (length (np.tobytes golden)) = 32768 /\
    (forall (i : nat) (x : Z),
       arr_data (input_x_of w) !! i = Some x ->
       0 <= x < 65536 /\
       Byte.to_N <$> np.tobytes (input_x_of w) !! (2 * i)%nat
       = Some (Z.to_N (x mod 256)) /\
       Byte.to_N <$> np.tobytes (input_x_of w) !! (2 * i + 1)%nat
       = Some (Z.to_N (x / 256))) /\
    (forall (i : nat) (g : Z),
       arr_data golden !! i = Some g ->
       Byte.to_N <$> np.tobytes golden !! (2 * i)%nat
       = Some (Z.to_N (g mod 256)) /\
       Byte.to_N <$> np.tobytes golden !! (2 * i + 1)%nat
       = Some (Z.to_N (g / 256 mod 256))) /\
    (faithful Fmt.binary16 exp (exp_loop float16) ->
     faithful Fmt.binary16 ln (log_loop float16) ->
     faithful Fmt.binary16 tanh (tanh_loop float16) ->
     Forall (fun g => 0 <= g < 65536) (arr_data golden)).
Proof.
  intros Hok.
  destruct (success_files exp_loop log_loop tanh_loop w Hok)
    as (golden & Hg & Hfs & Hin & Hout & Hn1 & Hn2).
  rewrite golden_of_eq in Hg. apply (inj inr) in Hg. subst golden.
  exists (golden_tensor w). split; [apply golden_of_eq|].
  destruct (input_x_facts w) as (Hd & Hlen).
  destruct (golden_tensor_facts exp_loop log_loop tanh_loop w) as (Hd' & Hlen').
  destruct (tensor_bytes (input_x_of w) Hd Hlen) as [Hb1 _].
  destruct (tensor_bytes (golden_tensor w) Hd' Hlen') as [Hb2 _].
  split; [exact Hfs|]. split; [exact Hin|]. split; [exact Hout|].
  split; [exact Hlen|]. split; [exact Hlen'|].
  split; [exact Hn1|]. split; [exact Hn2|].
  split; [|split].
  - intros i x Hi. rewrite Hb1.
    pose proof (input_x_16bit w) as H16.
    rewrite Forall_lookup in H16. specialize (H16 i x Hi).
    destruct (bytes.buffer16_lookup _ i x Hi) as [H0 H1].
    split; [exact H16|]. split; [exact H0|].
    rewrite H1. rewrite (Z.mod_small (x / 256)); [reflexivity|].
    split; [apply Z.div_pos; lia|apply Z.div_lt_upper_bound; lia].
  - intros i g Hi. rewrite Hb2.
    apply (bytes.buffer16_lookup _ i g Hi).
  - intros He Hl Ht. cbn [arr_data]. apply Forall_map.
    apply input_x_elements. intros i.
    pose proof (sampling.sample16_range (bitgen w) i) as Hx.
    destruct (mish16_chain exp_loop log_loop tanh_loop He Hl Ht _ Hx)
      as (_ & _ & _ & _ & Hg).
    unfold mish16.
    change (Fmt.encode Fmt.binary16 (Fmt.of_int Fmt.binary16 1)) with 15360.
    cbv zeta in Hg. lia.
Qed.

(** C8, amended: a run fails exactly when one of its two writes fails,
    that of the input file first, and it ends with the exception that
    write raised, unchanged; whether a write fails is decided by the file
    system the run starts in.  Nothing else makes a run fail.  A missing
    target directory is such a failure, and so are a target that is not
    there yet in a directory that takes no new name, and a target that is
    there and read-only. *)
Theorem C8_fails_iff_filesystem_error (w : world) (e : exn) :
  (fst (run w) = inl e <->
   np.tofile_error w (input_x_of w) input_path = Some e \/
   (np.tofile_error w (input_x_of w) input_path = None /\
    exists golden,
      golden_of exp_loop log_loop tanh_loop w = inr golden /\
      np.tofile_error w golden golden_path = Some e)) /\
  (fst (run w) = inl e <->
   fst (np.tofile (input_x_of w) input_path (sampled w)) = inl e \/
   exists golden w1,
     golden_of exp_loop log_loop tanh_loop w = inr golden /\
     np.tofile (input_x_of w) input_path (sampled w) = (inr tt, w1) /\
     fst (np.tofile golden golden_path w1) = inl e) /\
  (fs_dirs w !! "./AclNNInvocation/input"%string = None \/
   fs_dirs w !! "./AclNNInvocation/output"%string = None \/
   (fs_files w !! input_path = None /\
    forall m, fs_dirs w !! "./AclNNInvocation/input"%string = Some m ->
              d_write m = false) \/
   (fs_files w !! golden_path = None /\
    forall m, fs_dirs w !! "./AclNNInvocation/output"%string = Some m ->
              d_write m = false) \/
   (is_Some (fs_files w !! input_path) /\ input_path ∈ fs_readonly w) \/
   (is_Some (fs_files w !! golden_path) /\ golden_path ∈ fs_readonly w) ->
   exists e', fst (run w) = inl e').
Proof.
  split; [|split].
  - rewrite run_fst, golden_of_eq.
    destruct (np.tofile_error w (input_x_of w) input_path) as [e1|].
    + split; [intros H; left; by apply (inj inl) in H; subst|].
      intros [H|[H _]]; [by apply (inj Some) in H; subst|discriminate H].
    + destruct (np.tofile_error w (golden_tensor w) golden_path) as [e2|] eqn:E2.
      * split.
        -- intros H. apply (inj inl) in H. subst e2. right.
           split; [reflexivity|]. eexists. split; [reflexivity|exact E2].
        -- intros [H|[_ (g & Hg & H)]]; [discriminate H|].
           apply (inj inr) in Hg. subst g. rewrite E2 in H.
           apply (inj Some) in H. by subst.
      * split; [discriminate|].
        intros [H|[_ (g & Hg & H)]]; [discriminate H|].
        apply (inj inr) in Hg. subst g. rewrite E2 in H. discriminate H.
  - rewrite run_fst, golden_of_eq, io_facts.tofile_cases.
    rewrite open_error_sampled, tofile_error_sampled, accepted_sampled.
    destruct (np.open_error w input_path) as [e1|] eqn:O1.
    + rewrite (open_facts.tofile_error_open _ _ _ _ O1). cbn [fst].
      split; [intros H; by left|].
      intros [H|(g & w1 & _ & Hw & _)]; [exact H|].
      apply pair_equal_spec in Hw as [Hw _]. discriminate Hw.
    + cbn [fst].
      destruct (np.tofile_error w (input_x_of w) input_path) as [e1|] eqn:E1.
      * split; [intros H; by left|].
        intros [H|(g & w1 & _ & Hw & _)]; [exact H|].
        apply pair_equal_spec in Hw as [Hw _]. discriminate Hw.
      * assert (Hnext : forall w1,
                  (inr tt, written input_path
                             (np.accepted w input_path (np.tobytes (input_x_of w)))
                             (sampled w)) = (inr tt : exn + unit, w1) ->
                  fst (np.tofile (golden_tensor w) golden_path w1) =
                  match np.tofile_error w (golden_tensor w) golden_path with
                  | Some e => inl e
                  | None => inr tt
                  end).
        { intros w1 Hw. apply pair_equal_spec in Hw as [_ <-].
          rewrite io_facts.tofile_cases.
          rewrite io_facts.open_error_other by apply io_facts.input_off_golden_way.
          rewrite io_facts.tofile_error_other by apply io_facts.input_off_golden_way.
          rewrite open_error_sampled, tofile_error_sampled.
          destruct (np.open_error w golden_path) as [e2|] eqn:O2; [|reflexivity].
          by rewrite (open_facts.tofile_error_open _ _ _ _ O2). }
        split.
        -- intros H. right. eexists _, _. split; [reflexivity|].
           split; [reflexivity|]. rewrite (Hnext _ eq_refl). exact H.
        -- intros [H|(g & w1 & Hg & Hw & H)]; [discriminate H|].
           apply (inj inr) in Hg. subst g.
           rewrite (Hnext _ Hw) in H. exact H.
  - intros Hdir. rewrite run_fst.
    destruct (np.tofile_error w (input_x_of w) input_path) as [e1|] eqn:E1;
      [by eexists|].
    destruct Hdir as [Hd|[Hd|[[Hf Hd]|[[Hf Hd]|[[Hf Hr]|[Hf Hr]]]]]].
    + destruct (open_facts.open_error_missing w input_path _
                  io_facts.input_dir_on_way Hd) as [e' He'].
      rewrite (open_facts.tofile_error_open _ _ _ _ He') in E1. discriminate E1.
    + destruct (open_facts.open_error_missing w golden_path _
                  io_facts.golden_dir_on_way Hd) as [e' He'].
      rewrite (open_facts.tofile_error_open _ _ _ _ He'). by eexists.
    + destruct (open_facts.open_error_no_directory w input_path Hf Hd) as [e' He'].
      rewrite (open_facts.tofile_error_open _ _ _ _ He') in E1. discriminate E1.
    + destruct (open_facts.open_error_no_directory w golden_path Hf Hd) as [e' He'].
      rewrite (open_facts.tofile_error_open _ _ _ _ He'). by eexists.
    + destruct (open_facts.open_error_read_only w input_path Hf Hr) as [e' He'].
      rewrite (open_facts.tofile_error_open _ _ _ _ He') in E1. discriminate E1.
    + destruct (open_facts.open_error_read_only w golden_path Hf Hr) as [e' He'].
      rewrite (open_facts.tofile_error_open _ _ _ _ He'). by eexists.
Qed.

(** C9: the input file is written before the golden file: when the write
    of the golden file fails, the run fails with that error and the input
    file holds the whole new input tensor; if the golden file could not
    be opened it is as it was, absent or stale, and otherwise it holds a
    proper prefix of the golden buffer. *)
Theorem C9_input_written_before_golden (w : world) (golden : ndarray) (e : exn) :
  golden_of exp_loop log_loop tanh_loop w = inr golden ->
  np.tofile_error w (input_x_of w) input_path = None ->
  np.tofile_error w golden golden_path = Some e ->
  fst (run w) = inl e /\
  fs_files (snd (run w)) !! input_path = Some (np.tobytes (input_x_of w)) /\
  Z.of_nat (length (np.tobytes (input_x_of w))) = 32768 /\
  (np.open_error w golden_path = Some e ->
   fs_files (snd (run w))
   = <[input_path := np.tobytes (input_x_of w)]> (fs_files w) /\
   fs_files (snd (run w)) !! golden_path = fs_files w !! golden_path) /\
  (np.open_error w golden_path = None ->
   exists k : nat,
     (k < length (np.tobytes golden))%nat /\
     fs_files (snd (run w)) !! golden_path = Some (take k (np.tobytes golden))).
Proof.
  intros Hg H1 H2.
  rewrite golden_of_eq in Hg. apply (inj inr) in Hg. subst golden.
  destruct (open_facts.tofile_error_none _ _ _ H1) as [O1 A1].
  destruct (input_x_facts w) as (Hd & Hlen).
  split; [by rewrite run_fst, H1, H2|].
  rewrite run_cases, O1, H1, A1. cbv zeta.
  destruct (np.open_error w golden_path) as [e2|] eqn:O2; cbn [snd].
  - rewrite io_facts.written_files, sampled_files.
    split; [apply lookup_insert_eq|].
    split; [apply (tensor_bytes (input_x_of w) Hd Hlen)|].
    split; [|discriminate].
    intros _. split; [reflexivity|].
    apply lookup_insert_ne, io_facts.paths_differ.
  - rewrite !io_facts.written_files, sampled_files.
    split.
    { rewrite lookup_insert_ne by (symmetry; apply io_facts.paths_differ).
      apply lookup_insert_eq. }
    split; [apply (tensor_bytes (input_x_of w) Hd Hlen)|].
    split; [discriminate|]. intros _.
    destruct (open_facts.tofile_error_short _ _ _ _ O2 H2) as (k & _ & Hk & Hacc & _).
    exists k. split; [exact Hk|]. rewrite Hacc. apply lookup_insert_eq.
Qed.

End OutputClaims.

(** ** Order and exact values of half-precision numbers *)

Section Comparison.

Variable f : Fmt.format.
Hypothesis mbits_pos : 0 < Fmt.mbits f.
Hypothesis ebits_gt_1 : 1 < Fmt.ebits f.

(** On valid positive finite numbers of one format, [SFleb] is the order
    of the values. *)
Lemma SFleb_dle (m1 m2 : positive) (e1 e2 : Z) :
  bounded (Fmt.prec f) (Fmt.emax f) m1 e1 = true ->
  bounded (Fmt.prec f) (Fmt.emax f) m2 e2 = true ->
  SFleb (S754_finite false m1 e1) (S754_finite false m2 e2) = true
  <-> dle (Z.pos m1) e1 (Z.pos m2) e2.
Proof.
  intros Hb1 Hb2.
  destruct (bounded_cases f mbits_pos ebits_gt_1 m1 e1 Hb1) as (He1 & Hlt1 & Hcase1).
  destruct (bounded_cases f mbits_pos ebits_gt_1 m2 e2 Hb2) as (He2 & Hlt2 & Hcase2).
  destruct (fmt_facts f mbits_pos ebits_gt_1) as (Hp & Hem & Hex & _ & Hpm & Hpp).
  unfold SFleb, SFcompare.
  destruct (Z.compare_spec e1 e2) as [Heq|Hlt|Hgt].
  - subst e2. rewrite dyadic.dle_same_exp.
    change (Pos.compare_cont Eq m1 m2) with (Pos.compare m1 m2).
    destruct (Pos.compare_spec m1 m2) as [H|H|H]; split; intros; try done; lia.
  - split; [intros _|done].
    rewrite (dyadic.dle_scale e1) by lia.
    rewrite Z.sub_diag. change (2 ^ 0) with 1.
    assert (2 ^ 1 <= 2 ^ (e2 - e1)) by (apply Z.pow_le_mono_r; lia).
    change (2 ^ 1) with 2 in *.
    destruct Hcase2 as [Hn2|[Hs2 _]]; [|lia]. nia.
  - split; [done|intros Hle; exfalso].
    rewrite (dyadic.dle_scale e2) in Hle by lia.
    rewrite Z.sub_diag in Hle. change (2 ^ 0) with 1 in Hle.
    assert (2 ^ 1 <= 2 ^ (e1 - e2)) by (apply Z.pow_le_mono_r; lia).
    change (2 ^ 1) with 2 in *.
    destruct Hcase1 as [Hn1|[Hs1 _]]; [|lia]. nia.
Qed.

End Comparison.

Module half_order.

(** The half-precision product of a number of [1, 10] by a number of
    [1/2, 1] is not above the first factor. *)
Lemma mul_le_left (x t : Z) :
  15360 <= x <= 18688 -> 14336 <= t <= 15360 ->
  half_le (Fmt.mul Fmt.binary16 x t) x = true.
Proof.
  intros Hx Ht.
  pose proof (half_enum.all_from_spec _ _ _ half_enum.input_box x ltac:(lia)) as Bx.
  pose proof (half_enum.all_from_spec _ _ _ half_enum.tanh_box t ltac:(lia)) as Bt.
  apply half_enum.in_box_spec in Bx as [(mx & ex & Dx & Vx & Lx & Hx') _].
  apply half_enum.in_box_spec in Bt as [(mt & et & Dt & Vt & Lt & Ht') _].
  unfold half_le, Fmt.mul. rewrite Dx, Dt.
  change (Fmt.prec Fmt.binary16) with 11. change (Fmt.emax Fmt.binary16) with 16.
  destruct (bounded_cases Fmt.binary16 ltac:(done) ltac:(done) mx ex Vx)
    as (Hex & Hmx & _).
  change (Fmt.prec Fmt.binary16) with 11 in *.
  change (Fmt.emax Fmt.binary16) with 16 in *.
  destruct (SFmul_enclosed 11 16 ltac:(lia) mx mt ex et 1024 (-11) (Z.pos mx) ex)
    as (mf & ef & -> & Hbf & Hflo & Hfhi);
    try done; try (unfold SpecFloat.emin; lia).
  - apply dyadic.dle_trans with (1024 * 1024) (-10 + -11).
    + rewrite (dyadic.dle_scale (-21)) by lia. cbn. lia.
    + apply half_mul.dle_mul2; [lia|lia|done|done].
  - apply dyadic.dle_trans with (Z.pos mx * 1024) (ex + -10).
    + apply dyadic_arith.dle_mul; [lia|done].
    + replace ex with (ex + -10 - -10) at 2 by lia.
      rewrite (Z.add_comm ex (-10)).
      replace (-10 + ex - -10) with (-10 + ex + 10) by lia.
      rewrite (dyadic.dle_scale (-10 + ex)) by lia.
      rewrite Z.sub_diag.
      replace (-10 + ex + 10 - (-10 + ex)) with 10 by lia.
      change (2 ^ 0) with 1. change (2 ^ 10) with 1024. lia.
  - rewrite (decode_encode_finite Fmt.binary16) by done.
    by apply (SFleb_dle Fmt.binary16).
Qed.

End half_order.

Module exact_value.

Lemma two_pow_Q (E : Z) : (0 < Qpower 2 E)%Q.
Proof. by apply Qpower_0_lt. Qed.

Lemma scaled_Q (m e E : Z) :
  E <= e ->
  (inject_Z m * Qpower 2 e == inject_Z (m * 2 ^ (e - E)) * Qpower 2 E)%Q.
Proof.
  intros H.
  replace e with ((e - E) + E) at 1 by lia.
  rewrite Qpower_plus by discriminate.
  rewrite inject_Z_mult, Zpower_Qpower by lia.
  change (inject_Z 2) with 2%Q. ring.
Qed.

(** The dyadic order is the order of the exact rational values. *)
Lemma dle_Qle (m1 e1 m2 e2 : Z) :
  dle m1 e1 m2 e2 <->
  (inject_Z m1 * Qpower 2 e1 <= inject_Z m2 * Qpower 2 e2)%Q.
Proof.
  set (E := Z.min e1 e2).
  rewrite (dyadic.dle_scale E) by (unfold E; lia).
  rewrite (scaled_Q m1 e1 E), (scaled_Q m2 e2 E) by (unfold E; lia).
  rewrite Qmult_le_r by apply two_pow_Q.
  rewrite <- Zle_Qle. reflexivity.
Qed.

Lemma finite_Qle (m1 m2 : positive) (e1 e2 : Z) :
  Qle_bool (SF2Q (S754_finite false m1 e1)) (SF2Q (S754_finite false m2 e2)) = true
  <-> dle (Z.pos m1) e1 (Z.pos m2) e2.
Proof. rewrite Qle_bool_iff, dle_Qle. reflexivity. Qed.

End exact_value.

Module half_facts.

Lemma finite_patterns :
  all_from half_finite 0 (Z.to_nat 31744) = true.
Proof. vm_compute. reflexivity. Qed.

Lemma finite_below (b : Z) : 0 <= b <= 31743 -> half_finite b = true.
Proof.
  intros Hb. apply (half_enum.all_from_spec _ _ _ finite_patterns b). lia.
Qed.

Lemma positive_patterns :
  all_from (fun b => half_lt 0 b && half_le b 31542) 14336 (Z.to_nat 17207) = true.
Proof. vm_compute. reflexivity. Qed.

Lemma unit_patterns :
  all_from (fun b => half_le b 15360) 14336 (Z.to_nat 1025) = true.
Proof. vm_compute. reflexivity. Qed.

Lemma positive_above_half (b : Z) :
  14336 <= b <= 31542 -> half_lt 0 b = true.
Proof.
  intros Hb.
  assert (Hr : 14336 <= b < 14336 + Z.of_nat (Z.to_nat 17207)).
  { rewrite Z2Nat.id by lia. lia. }
  pose proof (half_enum.all_from_spec _ _ _ positive_patterns b Hr) as H.
  cbv beta in H. by apply andb_true_iff in H as [H _].
Qed.

Lemma at_most_one (b : Z) :
  14336 <= b <= 15360 -> half_le b 15360 = true.
Proof.
  intros Hb. apply (half_enum.all_from_spec _ _ _ unit_patterns).
  rewrite Z2Nat.id by lia. lia.
Qed.

Lemma golden_patterns (g : Z) :
  14336 <= g <= 18688 ->
  half_finite g = true /\ half_lt 0 g = true /\ half_le g 18688 = true.
Proof.
  intros Hg.
  pose proof (half_enum.all_from_spec _ _ _ half_enum.golden_box g ltac:(lia)) as H.
  cbv beta in H. apply andb_true_iff in H as [H H3].
  apply andb_true_iff in H as [H1 H2]. auto.
Qed.

Lemma input_value (x : Z) :
  15360 <= x <= 18688 -> (1 <= value Fmt.binary16 x <= 10)%R.
Proof.
  intros Hx.
  pose proof (half_enum.all_from_spec _ _ _ half_enum.input_box x ltac:(lia)) as Bx.
  apply half_enum.in_box_spec in Bx as [_ Vx].
  assert (Q2R 1 = 1%R /\ Q2R 10 = 10%R) as [E1 E2] by (unfold Q2R; cbn; split; lra).
  by rewrite E1, E2 in Vx.
Qed.

End half_facts.

Module exact_mish.

(** The exact Mish of a number of [1, 10], step by step. *)
Lemma exact_chain (v : R) :
  (1 <= v <= 10 ->
   1 + exp 1 <= 1 + exp v /\
   0 < ln (1 + exp v) /\
   0 < tanh (ln (1 + exp v)) < 1 /\
   0 < v * tanh (ln (1 + exp v)))%R.
Proof.
  intros Hv.
  pose proof (analysis.exp_range v Hv) as He.
  pose proof analysis.exp_1_bounds as H1.
  assert (Hm : (exp 1 <= exp v)%R) by (apply analysis.exp_monotone; lra).
  pose proof (analysis.ln_range (1 + exp v) ltac:(lra)) as Hl.
  pose proof (analysis.tanh_range (ln (1 + exp v)) ltac:(lra)) as Ht.
  repeat split; try lra. nra.
Qed.

End exact_mish.

Module half_codec.

(** Every positive finite half-precision pattern is the pattern of a
    valid number, and of that one only. *)
Lemma canonical_patterns :
  all_from (fun b => match Fmt.decode Fmt.binary16 b with
                     | S754_finite false m e =>
                         bounded 11 16 m e
                         && (Fmt.encode Fmt.binary16 (S754_finite false m e) =? b)
                     | _ => false
                     end) 1 (Z.to_nat 31743) = true.
Proof. vm_compute. reflexivity. Qed.

Lemma decode_positive (b : Z) :
  0 < b <= 31743 ->
  exists m e, Fmt.decode Fmt.binary16 b = S754_finite false m e /\
              bounded 11 16 m e = true /\
              Fmt.encode Fmt.binary16 (S754_finite false m e) = b.
Proof.
  intros Hb.
  assert (Hr : 1 <= b < 1 + Z.of_nat (Z.to_nat 31743)).
  { rewrite Z2Nat.id by lia. lia. }
  pose proof (half_enum.all_from_spec _ _ _ canonical_patterns b Hr) as H.
  cbv beta in H.
  destruct (Fmt.decode Fmt.binary16 b) as [| | |[] m e]; try discriminate.
  apply andb_true_iff in H as [H1 H2]. apply Z.eqb_eq in H2. eauto.
Qed.

End half_codec.

(** ** Rounding to half precision *)

Module half_value.

#[local] Open Scope R_scope.

Lemma value_finite (b : Z) (m : positive) (e : Z) :
  Fmt.decode Fmt.binary16 b = S754_finite false m e ->
  value Fmt.binary16 b = Q2R (inject_Z (Z.pos m) * Qpower 2 e).
Proof. intros H. unfold value. by rewrite H. Qed.

Lemma value_zero : value Fmt.binary16 0 = 0.
Proof.
  unfold value. change (Fmt.decode Fmt.binary16 0) with (S754_zero false).
  apply RMicromega.Q2R_0.
Qed.

Lemma dyadic_pos (m e : Z) : (0 < m)%Z -> 0 < Q2R (inject_Z m * Qpower 2 e).
Proof.
  intros Hm. rewrite <- RMicromega.Q2R_0. apply Qlt_Rlt.
  apply Qmult_lt_0_compat; [|apply exact_value.two_pow_Q].
  change 0%Q with (inject_Z 0). rewrite <- Zlt_Qlt. exact Hm.
Qed.

(** The order of dyadic numbers is the order of their real values. *)
Lemma dle_Rle (m1 e1 m2 e2 : Z) :
  dle m1 e1 m2 e2 <->
  Q2R (inject_Z m1 * Qpower 2 e1) <= Q2R (inject_Z m2 * Qpower 2 e2).
Proof.
  rewrite exact_value.dle_Qle. split; [apply Qle_Rle|apply Rle_Qle].
Qed.

Lemma value_positive (b : Z) : (0 < b <= 31743)%Z -> 0 < value Fmt.binary16 b.
Proof.
  intros Hb. destruct (half_codec.decode_positive b Hb) as (m & e & D & _ & _).
  rewrite (value_finite b m e D). by apply dyadic_pos.
Qed.

(** A result [y] that no valid number separates from the dyadic number
    [M * 2^E] is stored as a rounding of it. *)
Lemma rounds_dyadic (M E : Z) (y : spec_float) (l0 h0 : Z) :
  (0 < M)%Z -> (0 < l0 <= 31743)%Z -> (0 < h0 <= 31743)%Z ->
  value Fmt.binary16 l0 <= Q2R (inject_Z M * Qpower 2 E) <= value Fmt.binary16 h0 ->
  (forall (ml mh : positive) (el eh : Z),
     bounded 11 16 ml el = true -> bounded 11 16 mh eh = true ->
     dle (Z.pos ml) el M E -> dle M E (Z.pos mh) eh ->
     exists mf ef,
       y = S754_finite false mf ef /\ bounded 11 16 mf ef = true /\
       dle (Z.pos ml) el (Z.pos mf) ef /\ dle (Z.pos mf) ef (Z.pos mh) eh) ->
  rounds Fmt.binary16 (Q2R (inject_Z M * Qpower 2 E)) (Fmt.encode Fmt.binary16 y).
Proof.
  intros HM Hl0 Hh0 H0 Hy.
  set (r := Q2R (inject_Z M * Qpower 2 E)) in *.
  assert (Hr : 0 < r) by (by apply dyadic_pos).
  assert (Henc : forall lo hi : Z,
            (0 < lo <= 31743)%Z -> (0 < hi <= 31743)%Z ->
            value Fmt.binary16 lo <= r <= value Fmt.binary16 hi ->
            (lo <= Fmt.encode Fmt.binary16 y <= hi)%Z).
  { intros lo hi Hlo Hhi [Hl Hh].
    destruct (half_codec.decode_positive lo Hlo) as (ml & el & Dl & Bl & El).
    destruct (half_codec.decode_positive hi Hhi) as (mh & eh & Dh & Bh & Eh).
    rewrite (value_finite lo ml el Dl) in Hl.
    rewrite (value_finite hi mh eh Dh) in Hh.
    apply dle_Rle in Hl, Hh.
    destruct (Hy ml mh el eh Bl Bh Hl Hh) as (mf & ef & -> & Bf & Hfl & Hfh).
    pose proof (encode_monotone Fmt.binary16 ltac:(done) ltac:(done)
                  ml mf el ef Bl Bf Hfl) as H1.
    pose proof (encode_monotone Fmt.binary16 ltac:(done) ltac:(done)
                  mf mh ef eh Bf Bh Hfh) as H2.
    rewrite El in H1. rewrite Eh in H2. lia. }
  pose proof (Henc l0 h0 Hl0 Hh0 H0) as Hz.
  unfold rounds. change (max_finite Fmt.binary16) with 31743%Z.
  split; [lia|].
  intros lo hi Hlo Hhi [Hl Hh].
  assert (Hhi' : (0 < hi)%Z).
  { destruct (Z.eq_dec hi 0%Z) as [->|]; [|lia].
    rewrite value_zero in Hh. lra. }
  destruct (Z.eq_dec lo 0%Z) as [->|Hne].
  - split; [lia|].
    apply (Henc l0 hi Hl0 ltac:(lia)). split; [apply H0|exact Hh].
  - apply Henc; [lia|lia|by split].
Qed.

(** The half-precision sum [1 + e]. *)
Lemma add_one_rounds (e : Z) :
  (16384 <= e <= 31542)%Z ->
  rounds Fmt.binary16 (1 + value Fmt.binary16 e) (Fmt.add Fmt.binary16 15360 e).
Proof.
  intros He.
  pose proof (half_enum.all_from_spec _ _ _ half_enum.log_box e ltac:(lia)) as Be.
  apply half_enum.in_box_spec in Be as [(me & ee & De & Ve & _ & _) [Vl Vh]].
  destruct (bounded_cases Fmt.binary16 ltac:(done) ltac:(done) me ee Ve)
    as (Hee & Hme & _).
  change (Fmt.prec Fmt.binary16) with 11%Z in *.
  change (Fmt.emax Fmt.binary16) with 16%Z in *.
  unfold SpecFloat.emin in Hee.
  set (ez := Z.min (-10) ee).
  set (M := (1024 * 2 ^ (-10 - ez) + Z.pos me * 2 ^ (ee - ez))%Z).
  assert (Hp1 : (0 < 2 ^ (-10 - ez))%Z) by (apply Z.pow_pos_nonneg; unfold ez; lia).
  assert (Hp2 : (0 < 2 ^ (ee - ez))%Z) by (apply Z.pow_pos_nonneg; unfold ez; lia).
  assert (Hsum : 1 + value Fmt.binary16 e = Q2R (inject_Z M * Qpower 2 ez)).
  { rewrite (value_finite e me ee De).
    destruct half_enum.value_consts as (_ & _ & V1 & _).
    rewrite <- V1.
    rewrite (value_finite 15360 1024 (-10) eq_refl).
    rewrite <- Q2R_plus. apply Qeq_eqR.
    unfold M. rewrite inject_Z_plus, Qmult_plus_distr_l.
    rewrite <- (exact_value.scaled_Q 1024 (-10) ez) by (unfold ez; lia).
    rewrite <- (exact_value.scaled_Q (Z.pos me) ee ez) by (unfold ez; lia).
    reflexivity. }
  rewrite Hsum. unfold Fmt.add.
  rewrite De. change (Fmt.decode Fmt.binary16 15360) with (S754_finite false 1024 (-10)).
  change (Fmt.prec Fmt.binary16) with 11%Z.
  change (Fmt.emax Fmt.binary16) with 16%Z.
  assert (Q2R 1 = 1 /\ Q2R 59072 = 59072) as [E1 E2] by (unfold Q2R; cbn; split; lra).
  rewrite E1, E2 in *.
  apply (rounds_dyadic M ez _ 15360 31743); try lia.
  - rewrite <- Hsum.
    destruct half_enum.value_consts as (_ & _ & V1 & _). rewrite V1.
    assert (V : value Fmt.binary16 31743 = 65504).
    { unfold value.
      match goal with
      | |- Q2R ?q = _ =>
          let v := eval vm_compute in q in
          change q with v; unfold Q2R; cbn; lra
      end. }
    rewrite V. lra.
  - intros ml mh el eh Bl Bh Hl Hh.
    destruct (bounded_cases Fmt.binary16 ltac:(done) ltac:(done) ml el Bl)
      as (Hel & Hml & _).
    destruct (bounded_cases Fmt.binary16 ltac:(done) ltac:(done) mh eh Bh)
      as (Heh & Hmh & _).
    change (Fmt.prec Fmt.binary16) with 11%Z in *.
    change (Fmt.emax Fmt.binary16) with 16%Z in *.
    apply (SFadd_enclosed 11 16 ltac:(lia) 1024 me (-10) ee (Z.pos ml) el (Z.pos mh) eh);
      try done; lia.
Qed.

(** The half-precision product of a number of [1, 10] by a number of
    [1/2, 1]. *)
Lemma mul_rounds (x t : Z) :
  (15360 <= x <= 18688)%Z -> (14336 <= t <= 15360)%Z ->
  rounds Fmt.binary16 (value Fmt.binary16 x * value Fmt.binary16 t)
    (Fmt.mul Fmt.binary16 x t).
Proof.
  intros Hx Ht.
  pose proof (half_enum.all_from_spec _ _ _ half_enum.input_box x ltac:(lia)) as Bx.
  pose proof (half_enum.all_from_spec _ _ _ half_enum.tanh_box t ltac:(lia)) as Bt.
  apply half_enum.in_box_spec in Bx as [(mx & ex & Dx & Vx & _ & _) [Xl Xh]].
  apply half_enum.in_box_spec in Bt as [(mt & et & Dt & Vt & _ & _) [Tl Th]].
  assert (Hprod : value Fmt.binary16 x * value Fmt.binary16 t
                  = Q2R (inject_Z (Z.pos mx * Z.pos mt) * Qpower 2 (ex + et))).
  { rewrite (value_finite x mx ex Dx), (value_finite t mt et Dt).
    rewrite <- Q2R_mult. apply Qeq_eqR.
    rewrite inject_Z_mult, Qpower_plus by discriminate. ring. }
  assert (Q2R 1 = 1 /\ Q2R 10 = 10 /\ Q2R (1 # 2) = / 2) as (E1 & E2 & E3)
    by (unfold Q2R; cbn; repeat split; lra).
  rewrite E1 in Xl. rewrite E2 in Xh. rewrite E3 in Tl. rewrite E1 in Th.
  rewrite Hprod. unfold Fmt.mul. rewrite Dx, Dt.
  change (Fmt.prec Fmt.binary16) with 11%Z.
  change (Fmt.emax Fmt.binary16) with 16%Z.
  apply (rounds_dyadic _ _ _ 14336 18688); try lia.
  - rewrite <- Hprod.
    destruct half_enum.value_consts as (_ & _ & _ & Vhalf). rewrite Vhalf.
    assert (V : value Fmt.binary16 18688 = 10).
    { unfold value.
      match goal with
      | |- Q2R ?q = _ =>
          let v := eval vm_compute in q in
          change q with v; unfold Q2R; cbn; lra
      end. }
    rewrite V. split; nra.
  - intros ml mh el eh Bl Bh Hl Hh.
    destruct (bounded_cases Fmt.binary16 ltac:(done) ltac:(done) ml el Bl)
      as (Hel & Hml & _).
    destruct (bounded_cases Fmt.binary16 ltac:(done) ltac:(done) mh eh Bh)
      as (Heh & Hmh & _).
    change (Fmt.prec Fmt.binary16) with 11%Z in *.
    change (Fmt.emax Fmt.binary16) with 16%Z in *.
    apply (SFmul_enclosed 11 16 ltac:(lia) mx mt ex et (Z.pos ml) el (Z.pos mh) eh);
      try done; lia.
Qed.

Lemma faithful_rounds (F : R -> R) (loop : Z -> Z) (x l0 h0 : Z) :
  faithful Fmt.binary16 F loop ->
  (0 < x <= 31743)%Z -> (0 <= l0)%Z -> (h0 <= 31743)%Z ->
  (l0 <= loop x <= h0)%Z ->
  rounds Fmt.binary16 (F (value Fmt.binary16 x)) (loop x).
Proof.
  intros HF Hx Hl0 Hh0 Hz.
  unfold rounds. change (max_finite Fmt.binary16) with 31743%Z.
  split; [lia|]. intros lo hi Hlo Hhi Hv.
  by apply HF.
Qed.

End half_value.

Section Steps.

Variables exp_loop log_loop tanh_loop : dtype -> Z -> Z.

Hypothesis exp_faithful : faithful Fmt.binary16 exp (exp_loop float16).
Hypothesis log_faithful : faithful Fmt.binary16 ln (log_loop float16).
Hypothesis tanh_faithful : faithful Fmt.binary16 tanh (tanh_loop float16).

(** The Mish the script computes for a half-precision number of
    [1, 10] is one computed in half precision. *)
Lemma mish16_steps (x : Z) :
  15360 <= x <= 18688 ->
  mish_steps x (mish16 exp_loop log_loop tanh_loop x).
Proof.
  intros Hx.
  destruct (mish16_chain exp_loop log_loop tanh_loop
              exp_faithful log_faithful tanh_faithful x Hx)
    as (He & Hs & Hl & Ht & Hg).
  unfold mish16.
  change (Fmt.encode Fmt.binary16 (Fmt.of_int Fmt.binary16 1)) with 15360.
  cbv zeta in *.
  eexists _, _, _, _.
  split; [apply (half_value.faithful_rounds exp (exp_loop float16) x 16384 31542);
            [exact exp_faithful|lia|lia|lia|exact He]|].
  split; [apply half_value.add_one_rounds; exact He|].
  split; [apply (half_value.faithful_rounds ln (log_loop float16) _ 15360 31542);
            [exact log_faithful|lia|lia|lia|exact Hl]|].
  split; [apply (half_value.faithful_rounds tanh (tanh_loop float16) _ 14336 15360);
            [exact tanh_faithful|lia|lia|lia|exact Ht]|].
  apply half_value.mul_rounds; [exact Hx|exact Ht].
Qed.

End Steps.

(** ** A library that rounds to nearest *)

Module nearest.

#[local] Open Scope R_scope.

#[local] Ltac half_value :=
  unfold value;
  match goal with
  | |- Q2R ?q = _ =>
      let v := eval vm_compute in q in
      change q with v; unfold Q2R; cbn; lra
  end.

Lemma value_marks :
  value Fmt.binary16 18688 = 10 /\ value Fmt.binary16 27136 = 3072 /\
  value Fmt.binary16 18176 = 7 /\ value Fmt.binary16 15359 = 2047 / 2048 /\
  value Fmt.binary16 15360 = 1.
Proof. repeat split; half_value. Qed.

Lemma value16_monotone (a b : Z) :
  (0 <= a)%Z -> (a <= b)%Z -> (b <= 31743)%Z ->
  value Fmt.binary16 a <= value Fmt.binary16 b.
Proof.
  intros Ha Hab Hb. destruct (Z.eq_dec a b) as [->|Hne]; [lra|].
  left. apply reference.value16_increasing; lia.
Qed.

(** The nearest number is the one below the exact result or the one
    above it, and it is the exact result when that is a number of the
    format. *)
Theorem near_loop_faithful (F : R -> R) :
  faithful Fmt.binary16 F (near_loop F float16).
Proof.
  intros x lo hi Hx Hlo Hhi [Hl Hh].
  change (max_finite Fmt.binary16) with 31743%Z in *.
  unfold near_loop. cbn [format_of].
  change (max_finite Fmt.binary16) with 31743%Z.
  set (r := F (value Fmt.binary16 x)) in *.
  destruct (reference.floor_from_spec Fmt.binary16 r (Z.to_nat 31743)) as (H1 & H2 & H3).
  set (h := floor_from Fmt.binary16 (Z.to_nat 31743) r) in *.
  rewrite Z2Nat.id in * by lia.
  assert (Hlh : (lo <= h)%Z).
  { destruct (Z.le_gt_cases lo h) as [|Hlt]; [done|exfalso].
    apply (H3 lo); [lia|done]. }
  assert (Hhh : (h <= hi)%Z).
  { destruct (Z.le_gt_cases h hi) as [|Hgt]; [done|exfalso].
    pose proof (reference.value16_increasing hi h ltac:(lia) Hgt ltac:(lia)) as Hinc.
    specialize (H2 ltac:(lia)). lra. }
  assert (Hup : value Fmt.binary16 h + value Fmt.binary16 (h + 1) <= 2 * r ->
                (h < 31743)%Z -> (h + 1 <= hi)%Z).
  { intros Hmid Hlt.
    destruct (Z.eq_dec h hi) as [Heq|]; [exfalso|lia].
    pose proof (reference.value16_succ h ltac:(lia)) as Hs.
    rewrite <- Heq in Hh. lra. }
  destruct (Z.ltb_spec h 31743) as [Hlt|Hge]; [|lia].
  destruct (Rlt_dec _ _) as [Hmid|Hmid]; [specialize (Hup ltac:(lra) Hlt); lia|].
  destruct (Rlt_dec _ _) as [Hmid'|Hmid']; [lia|].
  destruct (Z.even h); [lia|].
  specialize (Hup ltac:(lra) Hlt). lia.
Qed.

Lemma exp_half : 3 / 2 <= exp (1 / 2).
Proof. pose proof (exp_ineq1_le (1 / 2)). lra. Qed.

Lemma exp_10_ge : 3072 <= exp 10.
Proof.
  replace 10 with (1 / 2 + 1 / 2 + (1 / 2 + 1 / 2) + (1 / 2 + 1 / 2 + (1 / 2 + 1 / 2))
                   + (1 / 2 + 1 / 2 + (1 / 2 + 1 / 2) + (1 / 2 + 1 / 2 + (1 / 2 + 1 / 2)))
                   + (1 / 2 + 1 / 2 + (1 / 2 + 1 / 2))) by lra.
  rewrite !exp_plus.
  pose proof exp_half as H. set (a := exp (1 / 2)) in *.
  assert (H2 : 9 / 4 <= a * a) by nra.
  set (b := a * a) in *.
  assert (H4 : 81 / 16 <= b * b) by nra.
  set (c := b * b) in *.
  assert (H8 : 6561 / 256 <= c * c) by nra.
  set (d := c * c) in *.
  assert (H16 : 43046721 / 65536 <= d * d) by nra.
  nra.
Qed.

Lemma exp_7_le : exp 7 <= 2187.
Proof.
  replace 7 with (1 + 1 + 1 + (1 + 1 + 1) + 1) by lra.
  rewrite !exp_plus.
  destruct analysis.exp_1_bounds as [Hl Hh].
  set (E := exp 1) in *.
  assert (H3 : 0 < E * E * E <= 27) by nra.
  set (c := E * E * E) in *.
  assert (H6 : 0 < c * c <= 729) by nra.
  nra.
Qed.

Lemma exp_7_ge : 128 <= exp 7.
Proof.
  replace 7 with (1 + 1 + 1 + (1 + 1 + 1) + 1) by lra.
  rewrite !exp_plus.
  destruct analysis.exp_1_bounds as [Hl Hh].
  set (E := exp 1) in *.
  assert (H3 : 8 <= E * E * E) by nra.
  set (c := E * E * E) in *.
  assert (H6 : 64 <= c * c) by nra.
  nra.
Qed.

(** From 7 on, [tanh] is nearer to 1 than to the half-precision number
    next below 1. *)
Lemma tanh_near_one (z : R) : 7 <= z -> 4095 / 4096 < tanh z < 1.
Proof.
  intros Hz. split; [|apply analysis.tanh_range; lra].
  rewrite analysis.tanh_frac.
  assert (Ha : 128 <= exp z).
  { apply Rle_trans with (exp 7); [apply exp_7_ge|by apply analysis.exp_monotone]. }
  set (a := exp z) in *.
  assert (Hb : 0 < / a) by (apply Rinv_0_lt_compat; lra).
  assert (Hab : a * / a = 1) by (apply Rinv_r; lra).
  set (b := / a) in *.
  apply Rmult_lt_reg_r with (a + b); [lra|].
  unfold Rdiv at 2. rewrite Rmult_assoc, Rinv_l by lra. nra.
Qed.

Lemma add_one_large :
  all_from (fun e => let s := Fmt.add Fmt.binary16 15360 e in
                     (27136 <=? s)%Z && (s <=? 31542)%Z) 27136 (Z.to_nat 4407) = true.
Proof. vm_compute. reflexivity. Qed.

(** The nearest half-precision number to the tanh of a number from 7 on
    is 1.0. *)
Lemma near_tanh_one (l : Z) :
  (18176 <= l <= 31542)%Z -> near_tanh float16 l = 15360%Z.
Proof.
  intros Hl.
  destruct value_marks as (_ & _ & V7 & Vb & V1).
  assert (Hv : 7 <= value Fmt.binary16 l).
  { rewrite <- V7. apply value16_monotone; lia. }
  pose proof (tanh_near_one _ Hv) as [Ht1 Ht2].
  unfold near_tanh, near_loop. cbn [format_of].
  change (max_finite Fmt.binary16) with 31743%Z.
  set (r := tanh (value Fmt.binary16 l)) in *.
  destruct (reference.floor_from_spec Fmt.binary16 r (Z.to_nat 31743)) as (H1 & H2 & H3).
  set (h := floor_from Fmt.binary16 (Z.to_nat 31743) r) in *.
  rewrite Z2Nat.id in * by lia.
  assert (Hh : h = 15359%Z).
  { destruct (Z.lt_trichotomy h 15359) as [Hlt|[Heq|Hgt]]; [exfalso|exact Heq|exfalso].
    - apply (H3 15359%Z); [lia|]. rewrite Vb. lra.
    - specialize (H2 ltac:(lia)).
      pose proof (value16_monotone 15360 h ltac:(lia) ltac:(lia) ltac:(lia)) as Hm.
      rewrite V1 in Hm. lra. }
  rewrite Hh. change (15359 <? 31743)%Z with true. cbv iota.
  change (15359 + 1)%Z with 15360%Z. rewrite Vb, V1.
  destruct (Rlt_dec _ _) as [_|Hn]; [reflexivity|]. exfalso. apply Hn. lra.
Qed.

(** With the nearest-rounding library, the tanh computed for the input
    10.0 is exactly 1.0. *)
Lemma tanh_of_ten :
  near_tanh float16
    (near_log float16 (Fmt.add Fmt.binary16 15360 (near_exp float16 18688)))
  = 15360%Z.
Proof.
  destruct value_marks as (V10 & V3072 & V7 & _ & _).
  destruct half_enum.value_consts as (_ & Vh & _ & _).
  pose proof (near_loop_faithful exp) as Fe.
  pose proof (near_loop_faithful ln) as Fl.
  pose proof (near_loop_faithful tanh) as Ft.
  assert (He : (27136 <= near_exp float16 18688 <= 31542)%Z).
  { apply Fe; try (change (max_finite Fmt.binary16) with 31743%Z; lia).
    rewrite V10, V3072, Vh.
    pose proof exp_10_ge. pose proof analysis.exp_10_le. lra. }
  set (e := near_exp float16 18688) in *.
  assert (Hs : (27136 <= Fmt.add Fmt.binary16 15360 e <= 31542)%Z).
  { pose proof (half_enum.all_from_spec _ _ _ add_one_large e) as H.
    rewrite Z2Nat.id in H by lia. specialize (H ltac:(lia)).
    cbv beta zeta in H. apply andb_true_iff in H as [H1 H2]. lia. }
  set (s := Fmt.add Fmt.binary16 15360 e) in *.
  apply near_tanh_one.
  apply Fl; try (change (max_finite Fmt.binary16) with 31743%Z; lia).
  rewrite V7, Vh.
  assert (Hvs : 3072 <= value Fmt.binary16 s <= 59072).
  { rewrite <- V3072, <- Vh. split; apply value16_monotone; lia. }
  split.
  - rewrite <- (ln_exp 7). apply analysis.ln_monotone; [apply exp_pos|].
    pose proof exp_7_le. lra.
  - pose proof (analysis.ln_range (value Fmt.binary16 s) ltac:(lra)). lra.
Qed.

End nearest.

(** ** The error of a Mish computed in half precision *)

Module error_bound.

#[local] Open Scope R_scope.

Lemma abs_le_inv (a b : R) : Rabs a <= b -> - b <= a <= b.
Proof. unfold Rabs. destruct (Rcase_abs a); lra. Qed.

(** Two neighbours among the normal half-precision numbers differ by at
    most a 1024th of the smaller one. *)
Lemma gap16 :
  all_from (fun h => Qle_bool ((SF2Q (Fmt.decode Fmt.binary16 (h + 1))
                                - SF2Q (Fmt.decode Fmt.binary16 h)) * 1024)
                              (SF2Q (Fmt.decode Fmt.binary16 h)))
    1024 (Z.to_nat 30719) = true.
Proof. vm_compute. reflexivity. Qed.

Lemma value16_gap (h : Z) :
  (1024 <= h < 31743)%Z ->
  value Fmt.binary16 (h + 1) - value Fmt.binary16 h <= value Fmt.binary16 h / 1024.
Proof.
  intros Hh.
  pose proof (half_enum.all_from_spec _ _ _ gap16 h) as H.
  rewrite Z2Nat.id in H by lia. specialize (H ltac:(lia)). cbv beta in H.
  apply Qle_bool_iff, Qle_Rle in H.
  rewrite Q2R_mult, Q2R_minus in H. fold (value Fmt.binary16 (h + 1)) in H.
  fold (value Fmt.binary16 h) in H.
  assert (E : Q2R 1024 = 1024) by (unfold Q2R; cbn; lra).
  rewrite E in H. lra.
Qed.

Lemma value_bounds :
  value Fmt.binary16 1024 = / 16384 /\ value Fmt.binary16 31743 = 65504.
Proof.
  unfold value. split.
  all: match goal with
       | |- Q2R ?q = _ =>
           let v := eval vm_compute in q in
           change q with v; unfold Q2R; cbn; lra
       end.
Qed.

(** A rounding of a number of the normal range is within a 1024th of
    it. *)
Lemma rounds_error (r : R) (z : Z) :
  rounds Fmt.binary16 r z -> / 16384 <= r <= 65504 ->
  Rabs (value Fmt.binary16 z - r) <= r / 1024.
Proof.
  intros [Hz Hr] [Hlo Hhi].
  change (max_finite Fmt.binary16) with 31743%Z in *.
  destruct value_bounds as [Vmin Vmax].
  destruct (reference.floor_from_spec Fmt.binary16 r (Z.to_nat 31743)) as (H1 & H2 & H3).
  set (h := floor_from Fmt.binary16 (Z.to_nat 31743) r) in *.
  rewrite Z2Nat.id in * by lia.
  assert (Hh : (1024 <= h)%Z).
  { destruct (Z.le_gt_cases 1024 h) as [|Hlt]; [done|exfalso].
    apply (H3 1024%Z); [lia|]. rewrite Vmin. exact Hlo. }
  specialize (H2 ltac:(lia)).
  destruct (Z.eq_dec h 31743%Z) as [Heq|Hne].
  - rewrite Heq, Vmax in H2.
    assert (Hrv : r = value Fmt.binary16 31743) by (rewrite Vmax; lra).
    assert (z = 31743%Z).
    { specialize (Hr 31743%Z 31743%Z ltac:(lia) ltac:(lia)). rewrite <- Hrv in Hr.
      specialize (Hr ltac:(lra)). lia. }
    subst z. rewrite <- Hrv.
    replace (r - r) with 0 by lra. rewrite Rabs_R0. lra.
  - assert (Hnext : r < value Fmt.binary16 (h + 1)).
    { apply Rnot_le_lt. apply H3. lia. }
    specialize (Hr h (h + 1)%Z ltac:(lia) ltac:(lia) ltac:(lra)).
    pose proof (nearest.value16_monotone h z ltac:(lia) ltac:(lia) ltac:(lia)) as M1.
    pose proof (nearest.value16_monotone z (h + 1) ltac:(lia) ltac:(lia) ltac:(lia)) as M2.
    pose proof (value16_gap h ltac:(lia)) as Hg.
    apply Rabs_le. lra.
Qed.

Lemma ln_close (a b d : R) :
  0 < a -> 0 <= d <= / 2 -> a * (1 - d) <= b <= a * (1 + d) ->
  Rabs (ln b - ln a) <= 2 * d.
Proof.
  intros Ha Hd [Hl Hh].
  assert (Hb : 0 < b) by nra.
  apply Rabs_le. split.
  - (* ln a <= ln b + 2 d *)
    assert (H : a <= b * exp (2 * d)).
    { pose proof (exp_ineq1_le (2 * d)) as He.
      apply Rle_trans with (b * (1 + 2 * d)); [nra|].
      apply Rmult_le_compat_l; lra. }
    apply (analysis.ln_monotone a _ Ha) in H.
    rewrite ln_mult, ln_exp in H by (try apply exp_pos; lra). lra.
  - assert (H : b <= a * exp d).
    { pose proof (exp_ineq1_le d) as He.
      apply Rle_trans with (a * (1 + d)); [lra|].
      apply Rmult_le_compat_l; lra. }
    apply (analysis.ln_monotone b _ Hb) in H.
    rewrite ln_mult, ln_exp in H by (try apply exp_pos; lra). lra.
Qed.

Lemma tanh_exp2 (z : R) : tanh z = 1 - 2 / (exp (2 * z) + 1).
Proof.
  rewrite analysis.tanh_frac.
  replace (2 * z) with (z + z) by lra. rewrite exp_plus.
  pose proof (exp_pos z) as Hp.
  field. split; nra.
Qed.

(** From 1 on, [tanh] rises, and slower than its argument. *)
Lemma tanh_lipschitz (a b : R) :
  1 <= a -> a <= b -> 0 <= tanh b - tanh a <= 4 / 5 * (b - a).
Proof.
  intros Ha Hab.
  rewrite !tanh_exp2.
  set (d := b - a).
  assert (HP : 4 <= exp (2 * a)).
  { apply Rle_trans with (exp (1 + 1)); [|apply analysis.exp_monotone; lra].
    rewrite exp_plus. pose proof analysis.exp_1_bounds. nra. }
  assert (HQ : exp (2 * a) <= exp (2 * b)) by (apply analysis.exp_monotone; lra).
  assert (HPQ : exp (2 * b) * (1 - 2 * d) <= exp (2 * a)).
  { replace (2 * a) with (2 * b + - (2 * d)) by (unfold d; lra).
    rewrite exp_plus.
    apply Rmult_le_compat_l; [left; apply exp_pos|].
    pose proof (exp_ineq1_le (- (2 * d))). lra. }
  set (P := exp (2 * a)) in *. set (Q := exp (2 * b)) in *.
  assert (Hd : 0 <= d) by (unfold d; lra).
  assert (E : 1 - 2 / (Q + 1) - (1 - 2 / (P + 1))
              = 2 * (Q - P) / ((P + 1) * (Q + 1))) by (field; lra).
  rewrite E.
  assert (Hden : 0 < (P + 1) * (Q + 1)) by nra.
  split.
  - apply Rmult_le_reg_r with ((P + 1) * (Q + 1)); [exact Hden|].
    unfold Rdiv. rewrite Rmult_assoc, Rinv_l by lra. nra.
  - apply Rmult_le_reg_r with ((P + 1) * (Q + 1)); [exact Hden|].
    unfold Rdiv. rewrite Rmult_assoc, Rinv_l by lra.
    assert (HQP : Q - P <= 2 * d * Q) by nra.
    assert (H5 : 5 * Q <= (P + 1) * (Q + 1)) by nra.
    fold d. nra.
Qed.

Lemma tanh_close (a b c : R) :
  1 <= a -> 1 <= b -> Rabs (b - a) <= c -> Rabs (tanh b - tanh a) <= 4 / 5 * c.
Proof.
  intros Ha Hb Hc. apply abs_le_inv in Hc. apply Rabs_le.
  destruct (Rle_lt_dec a b) as [Hab|Hba].
  - pose proof (tanh_lipschitz a b Ha Hab). lra.
  - pose proof (tanh_lipschitz b a Hb ltac:(lra)). lra.
Qed.

Lemma ln_one_plus_exp (v : R) : 0 <= v -> v <= ln (1 + exp v) <= v + 1.
Proof.
  intros Hv.
  pose proof (exp_pos v) as Hp.
  assert (H1 : 1 <= exp v).
  { rewrite <- exp_0. by apply analysis.exp_monotone. }
  split.
  - rewrite <- (ln_exp v) at 1. apply analysis.ln_monotone; lra.
  - rewrite <- (ln_exp (v + 1)). apply analysis.ln_monotone; [lra|].
    rewrite exp_plus. destruct analysis.exp_1_bounds as [E1 _].
    assert (exp v * 2 <= exp v * exp 1) by (apply Rmult_le_compat_l; lra).
    lra.
Qed.

Lemma rounds_value (r : R) (z lo hi : Z) :
  rounds Fmt.binary16 r z ->
  (0 <= lo <= 31743)%Z -> (0 <= hi <= 31743)%Z ->
  value Fmt.binary16 lo <= r <= value Fmt.binary16 hi ->
  value Fmt.binary16 lo <= value Fmt.binary16 z <= value Fmt.binary16 hi.
Proof.
  intros [Hz Hr] Hlo Hhi Hv.
  change (max_finite Fmt.binary16) with 31743%Z in *.
  specialize (Hr lo hi Hlo Hhi Hv).
  split; apply nearest.value16_monotone; lia.
Qed.

Lemma value_three : value Fmt.binary16 16896 = 3.
Proof.
  unfold value.
  match goal with
  | |- Q2R ?q = _ =>
      let v := eval vm_compute in q in
      change q with v; unfold Q2R; cbn; lra
  end.
Qed.

(** A Mish computed in half precision, for a half-precision number of
    [1, 10], differs from the exact Mish of that number by at most a
    64th of the number. *)
Theorem mish_steps_error (x g : Z) :
  (15360 <= x <= 18688)%Z -> mish_steps x g ->
  Rabs (value Fmt.binary16 g - mish_exact (value Fmt.binary16 x))
  <= value Fmt.binary16 x / 64.
Proof.
  intros Hx (e & s & l & t & He & Hs & Hl & Ht & Hg).
  pose proof (half_facts.input_value x Hx) as Hv.
  destruct half_enum.value_consts as (V2 & Vh & V1 & Vhalf).
  destruct value_bounds as [_ Vmax].
  pose proof value_three as V3.
  unfold mish_exact.
  set (v := value Fmt.binary16 x) in *.
  pose proof (analysis.exp_range v Hv) as HA.
  set (A := exp v) in *.
  (* exp *)
  pose proof (rounds_value A e 16384 31542 He ltac:(lia) ltac:(lia) ltac:(lra)) as Re.
  pose proof (rounds_error A e He ltac:(lra)) as Ee. apply abs_le_inv in Ee.
  rewrite V2, Vh in Re.
  set (e' := value Fmt.binary16 e) in *.
  (* 1 + exp *)
  pose proof (rounds_value (1 + e') s 16896 31743 Hs ltac:(lia) ltac:(lia) ltac:(lra)) as Rs.
  pose proof (rounds_error (1 + e') s Hs ltac:(lra)) as Es. apply abs_le_inv in Es.
  rewrite V3, Vmax in Rs.
  set (s' := value Fmt.binary16 s) in *.
  (* ln *)
  pose proof (analysis.ln_range s' ltac:(lra)) as HL.
  pose proof (rounds_value (ln s') l 15360 31743 Hl ltac:(lia) ltac:(lia) ltac:(lra)) as Rl.
  pose proof (rounds_error (ln s') l Hl ltac:(lra)) as El. apply abs_le_inv in El.
  rewrite V1, Vmax in Rl.
  set (l' := value Fmt.binary16 l) in *.
  (* tanh *)
  pose proof (analysis.tanh_range l' ltac:(lra)) as HT.
  pose proof (rounds_value (tanh l') t 14336 15360 Ht ltac:(lia) ltac:(lia) ltac:(lra)) as Rt.
  pose proof (rounds_error (tanh l') t Ht ltac:(lra)) as Et. apply abs_le_inv in Et.
  rewrite Vhalf, V1 in Rt.
  set (t' := value Fmt.binary16 t) in *.
  (* product *)
  assert (HG : / 2 <= v * t' <= 10).
  { split.
    - replace (/ 2) with (1 * / 2) by lra. apply Rmult_le_compat; lra.
    - replace 10 with (10 * 1) by lra. apply Rmult_le_compat; lra. }
  pose proof (rounds_error (v * t') g Hg ltac:(lra)) as Eg. apply abs_le_inv in Eg.
  set (g' := value Fmt.binary16 g) in *.
  (* the log of the computed sum against the exact one *)
  assert (Hsum : (1 + A) * (1 - 3 / 1024) <= s' <= (1 + A) * (1 + 3 / 1024)) by lra.
  pose proof (ln_close (1 + A) s' (3 / 1024) ltac:(lra) ltac:(lra) Hsum) as Hln.
  apply abs_le_inv in Hln.
  set (L := ln (1 + A)) in *.
  assert (HL1 : 1 <= L <= 11).
  { pose proof (ln_one_plus_exp v ltac:(lra)) as H. fold A in H. fold L in H. lra. }
  assert (Hl' : Rabs (l' - L) <= 17 / 1024 + 1 / 8192).
  { apply Rabs_le. lra. }
  pose proof (tanh_close L l' _ ltac:(lra) ltac:(lra) Hl') as Htanh.
  apply abs_le_inv in Htanh.
  set (T := tanh L) in *.
  assert (Htt : - (15 / 1024) <= t' - T <= 15 / 1024) by lra.
  assert (Hvt : 0 <= v * t' <= v).
  { split; [apply Rmult_le_pos; lra|].
    replace v with (v * 1) at 2 by lra. apply Rmult_le_compat_l; lra. }
  assert (Hvd : - (15 / 1024 * v) <= v * (t' - T) <= 15 / 1024 * v).
  { split.
    - replace (- (15 / 1024 * v)) with (v * - (15 / 1024)) by lra.
      apply Rmult_le_compat_l; lra.
    - replace (15 / 1024 * v) with (v * (15 / 1024)) by lra.
      apply Rmult_le_compat_l; lra. }
  apply Rabs_le. lra.
Qed.

End error_bound.

(** ** Mish of the sampled tensor *)

(** C10, as stated, fails: a library that rounds to nearest meets the
    accuracy asked, and the tanh it computes for the stored input 10.0 is
    exactly 1.0, which is not below 1. *)
Lemma C10_counterexample :
  ~ (forall exp_loop log_loop tanh_loop : dtype -> Z -> Z,
       faithful Fmt.binary16 exp (exp_loop float16) ->
       faithful Fmt.binary16 ln (log_loop float16) ->
       faithful Fmt.binary16 tanh (tanh_loop float16) ->
       forall w : world,
         Forall (fun x =>
                   let s := Fmt.add Fmt.binary16 (half_of_int 1) (exp_loop float16 x) in
                   let t := tanh_loop float16 (log_loop float16 s) in
                   half_lt 0 t = true /\ half_lt t (half_of_int 1) = true)
           (arr_data (input_x_of w))).
Proof.
  intros H.
  specialize (H near_exp near_log near_tanh (nearest.near_loop_faithful exp)
                (nearest.near_loop_faithful ln) (nearest.near_loop_faithful tanh)
                world_high).
  rewrite input_x_of_eq in H. cbn [arr_data] in H.
  destruct (numel [8; 2048]%nat) as [|n] eqn:E; [vm_compute in E; discriminate|].
  cbn [seq map] in H. apply Forall_inv in H. cbv zeta in H.
  destruct H as [_ H].
  assert (Hx : sample16 (bitgen world_high) 0 = 18688) by (vm_compute; reflexivity).
  rewrite Hx in H. change (half_of_int 1) with 15360 in H.
  rewrite nearest.tanh_of_ten in H.
  vm_compute in H. discriminate H.
Qed.

Section AccuracyClaims.

Variables exp_loop log_loop tanh_loop : dtype -> Z -> Z.

Hypothesis exp_faithful : faithful Fmt.binary16 exp (exp_loop float16).
Hypothesis log_faithful : faithful Fmt.binary16 ln (log_loop float16).
Hypothesis tanh_faithful : faithful Fmt.binary16 tanh (tanh_loop float16).

Lemma input_x_range (w : world) :
  Forall (fun x => 15360 <= x <= 18688) (arr_data (input_x_of w)).
Proof. apply input_x_elements. intros i. apply sampling.sample16_range. Qed.

(** C1: with a numeric library whose exp, log and tanh round faithfully,
    every element of the golden tensor is the Mish of the element of the
    input tensor at the same place, computed in half precision: the exp,
    the sum with one, the log, the tanh and the product are each done on
    the exact values of half-precision numbers and rounded to half
    precision; the stored value is within a 64th of the input element
    from its exact Mish. *)
Theorem C1_golden_is_elementwise_mish (w : world) :
  exists golden,
    golden_of exp_loop log_loop tanh_loop w = inr golden /\
    length (arr_data golden) = length (arr_data (input_x_of w)) /\
    forall (i : nat) (x : Z),
      arr_data (input_x_of w) !! i = Some x ->
      exists g : Z,
        arr_data golden !! i = Some g /\
        g = mish16 exp_loop log_loop tanh_loop x /\
        mish_steps x g /\
        (Rabs (value Fmt.binary16 g - mish_exact (value Fmt.binary16 x))
         <= value Fmt.binary16 x / 64)%R.
Proof.
  eexists. split; [apply golden_of_eq|]. cbn [arr_data].
  split; [apply length_map|].
  intros i x Hi.
  pose proof (input_x_range w) as Hr. rewrite Forall_lookup in Hr.
  specialize (Hr i x Hi). cbv beta in Hr.
  pose proof (mish16_steps exp_loop log_loop tanh_loop
                exp_faithful log_faithful tanh_faithful x Hr) as Hs.
  exists (mish16 exp_loop log_loop tanh_loop x).
  split; [by rewrite list_facts.lookup_map, Hi|].
  split; [reflexivity|]. split; [exact Hs|].
  by apply error_bound.mish_steps_error.
Qed.

(** C6: on every element of the sampled input tensor, exp does not
    overflow, and neither do the sum with one, the log, the tanh and the
    product that follow: each result is a finite half-precision number. *)
Theorem C6_no_overflow (w : world) :
  Forall (fun x =>
            let e := exp_loop float16 x in
            let s := Fmt.add Fmt.binary16 (half_of_int 1) e in
            let l := log_loop float16 s in
            let t := tanh_loop float16 l in
            half_finite e = true /\ half_finite s = true /\
            half_finite l = true /\ half_finite t = true /\
            half_finite (Fmt.mul Fmt.binary16 x t) = true /\
            Fmt.mul Fmt.binary16 x t = mish16 exp_loop log_loop tanh_loop x)
    (arr_data (input_x_of w)).
Proof.
  apply input_x_elements. intros i.
  pose proof (sampling.sample16_range (bitgen w) i) as Hx.
  destruct (mish16_chain exp_loop log_loop tanh_loop
              exp_faithful log_faithful tanh_faithful _ Hx)
    as (He & Hs & Hl & Ht & Hg).
  change (half_of_int 1) with 15360. cbv zeta.
  repeat split; try (apply half_facts.finite_below; lia).
Qed.

(** C10, amended: every element of the golden tensor is finite and
    strictly positive.  On the way, the argument of the log is positive
    and the computed tanh lies in (0, 1], the end 1 included; on the
    exact values, for every stored input [v] of [1, 10]: [1 + exp v] is
    at least [1 + e], [tanh (ln (1 + exp v))] lies in (0, 1), and the
    product is positive. *)
Theorem C10_golden_finite_positive (w : world) :
  exists golden,
    golden_of exp_loop log_loop tanh_loop w = inr golden /\
    Forall (fun g => half_finite g = true /\ half_lt 0 g = true) (arr_data golden) /\
    Forall (fun x =>
              let s := Fmt.add Fmt.binary16 (half_of_int 1) (exp_loop float16 x) in
              let t := tanh_loop float16 (log_loop float16 s) in
              half_lt 0 s = true /\
              half_lt 0 t = true /\ half_le t (half_of_int 1) = true /\
              let v := value Fmt.binary16 x in
              (1 <= v <= 10 /\
               1 + exp 1 <= 1 + exp v /\
               0 < ln (1 + exp v) /\
               0 < tanh (ln (1 + exp v)) < 1 /\
               0 < v * tanh (ln (1 + exp v)))%R)
      (arr_data (input_x_of w)).
Proof.
  eexists. split; [apply golden_of_eq|]. cbn [arr_data]. split.
  - apply Forall_map. apply input_x_elements. intros i.
    pose proof (sampling.sample16_range (bitgen w) i) as Hx.
    destruct (mish16_chain exp_loop log_loop tanh_loop
                exp_faithful log_faithful tanh_faithful _ Hx)
      as (He & Hs & Hl & Ht & Hg).
    destruct (half_facts.golden_patterns _ Hg) as (H1 & H2 & _).
    split; [exact H1|exact H2].
  - apply input_x_elements. intros i.
    pose proof (sampling.sample16_range (bitgen w) i) as Hx.
    destruct (mish16_chain exp_loop log_loop tanh_loop
                exp_faithful log_faithful tanh_faithful _ Hx)
      as (He & Hs & Hl & Ht & Hg).
    change (half_of_int 1) with 15360. cbv zeta.
    split; [apply half_facts.positive_above_half; lia|].
    split; [apply half_facts.positive_above_half; lia|].
    split; [apply half_facts.at_most_one; lia|].
    pose proof (half_facts.input_value _ Hx) as Hv.
    split; [exact Hv|]. by apply exact_mish.exact_chain.
Qed.

End AccuracyClaims.

(** ** Further properties of the run *)

(** The input tensor is made from the first 32,768 words of the bit
    generator, and from nothing else. *)
Lemma input_x_agree (w1 w2 : world) :
  (forall k : nat, Z.of_nat k < 32768 -> bitgen w1 k = bitgen w2 k) ->
  input_x_of w1 = input_x_of w2.
Proof.
  intros H. rewrite !input_x_of_eq.
  assert (Hm : map (sample16 (bitgen w1)) (seq 0 (numel [8; 2048]%nat))
               = map (sample16 (bitgen w2)) (seq 0 (numel [8; 2048]%nat))).
  { apply map_ext_in. intros i Hi. apply in_seq in Hi.
    rewrite numel_fixed in Hi.
    unfold sample16, np.draw. rewrite !H by lia. reflexivity. }
  rewrite Hm. reflexivity.
Qed.

Lemma words_consumed : (2 * numel [8; 2048]%nat)%nat = Z.to_nat 32768.
Proof.
  apply Nat2Z.inj. rewrite Z2Nat.id by lia. vm_compute. reflexivity.
Qed.

Lemma sampled_bitgen (w : world) (i : nat) :
  bitgen (sampled w) i = bitgen w (Z.to_nat 32768 + i)%nat.
Proof.
  unfold sampled, np.uniform. cbn [snd bitgen set_bitgen]. by rewrite words_consumed.
Qed.

Module rerun_facts.

Lemma walk_of_open w p : np.open_error w p = None -> np.walk w p (np.parents p) = None.
Proof.
  unfold np.open_error. by destruct (np.walk w p (np.parents p)).
Qed.

Lemma not_directory w p : np.open_error w p = None -> fs_dirs w !! p = None.
Proof.
  unfold np.open_error.
  destruct (np.walk w p (np.parents p)); [discriminate|].
  by destruct (fs_dirs w !! p).
Qed.

Lemma writable_if_there w p bs :
  np.open_error w p = None -> fs_files w !! p = Some bs -> p ∉ fs_readonly w.
Proof.
  unfold np.open_error. intros H Hf.
  destruct (np.walk w p (np.parents p)); [discriminate H|].
  destruct (fs_dirs w !! p); [discriminate H|].
  rewrite Hf in H.
  destruct (decide (p ∈ fs_readonly w)) as [Hin|Hout]; [|exact Hout].
  rewrite bool_decide_eq_true_2 in H by exact Hin. discriminate H.
Qed.

(** Opening a file that is there, on a way that is fine: only its own
    rights count. *)
Lemma open_error_there w p bs :
  np.walk w p (np.parents p) = None -> fs_dirs w !! p = None ->
  fs_files w !! p = Some bs ->
  np.open_error w p
  = if bool_decide (p ∈ fs_readonly w) then Some (PermissionError p) else None.
Proof.
  intros Hw Hd Hf. unfold np.open_error. by rewrite Hw, Hd, Hf.
Qed.

(** Whether the device takes a buffer depends on its length only. *)
Lemma accepted_length w p (bs bs' : list byte) :
  length bs = length bs' ->
  (length (np.accepted w p bs) <? length bs)%nat
  = (length (np.accepted w p bs') <? length bs')%nat.
Proof.
  intros H. unfold np.accepted.
  destruct (fs_limit w !! p) as [k|]; [|by rewrite H].
  by rewrite !length_take, H.
Qed.

End rerun_facts.

Section ScriptExtras.

Variables exp_loop log_loop tanh_loop : dtype -> Z -> Z.

#[local] Abbreviation run := (gen_golden_data_simple exp_loop log_loop tanh_loop).

#[local] Abbreviation golden_tensor w :=
  (mk_ndarray float16 [8; 2048]%nat
     (map (mish16 exp_loop log_loop tanh_loop) (arr_data (input_x_of w)))).

(** X4: whether it succeeds or fails, a run takes exactly 32,768 words
    from the bit generator, changes no directory (it creates none), and
    leaves every file other than the two targets as it was. *)
Theorem X4_run_frame (w : world) :
  (forall i : nat,
     bitgen (snd (gen_golden_data_simple exp_loop log_loop tanh_loop w)) i
     = bitgen w (Z.to_nat 32768 + i)%nat) /\
  fs_dirs (snd (gen_golden_data_simple exp_loop log_loop tanh_loop w)) = fs_dirs w /\
  (forall p : string,
     p <> input_path -> p <> golden_path ->
     fs_files (snd (gen_golden_data_simple exp_loop log_loop tanh_loop w)) !! p
     = fs_files w !! p).
Proof.
  split; [|split].
  - intros i. rewrite run_bitgen. apply sampled_bitgen.
  - apply run_dirs.
  - apply run_other_files.
Qed.

Lemma open_error_fine w p :
  (forall d, d ∈ np.parents p ->
             exists m, fs_dirs w !! d = Some m /\ d_search m = true) ->
  fs_dirs w !! p = None ->
  np.open_error w p = None <-> target_writable w p.
Proof.
  intros Hway Hd. unfold np.open_error, target_writable.
  rewrite (open_facts.walk_fine w p _ Hway), Hd.
  destruct (fs_files w !! p).
  - destruct (decide (p ∈ fs_readonly w)) as [Hin|Hout].
    + rewrite bool_decide_eq_true_2 by exact Hin. split; [discriminate|tauto].
    + rewrite bool_decide_eq_false_2 by exact Hout. tauto.
  - destruct (fs_dirs w !! np.dirname p) as [m|].
    + destruct (d_write m) eqn:E.
      * split; [intros _; by exists m|reflexivity].
      * split; [discriminate|]. intros (m' & Hm & Hw).
        apply (inj Some) in Hm. subst m'. congruence.
    + split; [discriminate|]. intros (m' & Hm & _). discriminate Hm.
Qed.

(** X5: when the directories on the way to the two targets are there and
    searchable, no target is itself a directory and the device sets no
    limit, a run succeeds exactly when each target can be written: the
    file is there and writable, or it is not there and its directory
    takes new names. *)
Theorem X5_succeeds_iff_targets_writable (w : world) :
  (forall d : string,
     d ∈ ["."; "./AclNNInvocation"; "./AclNNInvocation/input";
          "./AclNNInvocation/output"]%string ->
     exists m, fs_dirs w !! d = Some m /\ d_search m = true) ->
  fs_dirs w !! input_path = None -> fs_dirs w !! golden_path = None ->
  fs_limit w !! input_path = None -> fs_limit w !! golden_path = None ->
  fst (run w) = inr tt <->
  target_writable w input_path /\ target_writable w golden_path.
Proof.
  intros Hway D1 D2 L1 L2.
  rewrite run_success.
  rewrite !open_facts.tofile_error_unlimited by assumption.
  rewrite !open_error_fine; try assumption; try reflexivity.
  - rewrite io_facts.parents_golden_path. intros d Hd. apply Hway.
    rewrite !elem_of_cons in *. tauto.
  - rewrite io_facts.parents_input_path. intros d Hd. apply Hway.
    rewrite !elem_of_cons in *. tauto.
Qed.

(** X6: when the write of the input file fails, the run stops there: it
    ends with the error of that write and the golden file is as it was,
    even if it could have been written; if the input file could not even
    be opened, no file is changed. *)
Theorem X6_nothing_written_after_first_failure (w : world) (e : exn) :
  np.tofile_error w (input_x_of w) input_path = Some e ->
  fst (run w) = inl e /\
  fs_files (snd (run w)) !! golden_path = fs_files w !! golden_path /\
  (np.open_error w input_path = Some e ->
   fs_files (snd (run w)) = fs_files w /\
   fs_readonly (snd (run w)) = fs_readonly w).
Proof.
  intros H1. split; [by rewrite run_fst, H1|].
  rewrite run_cases, H1.
  destruct (np.open_error w input_path) as [e1|]; cbn [snd].
  - split; [reflexivity|]. intros _. split; reflexivity.
  - cbv zeta. cbn [snd]. rewrite io_facts.written_files, sampled_files.
    split; [|discriminate].
    apply lookup_insert_ne, io_facts.paths_differ.
Qed.

(** X7: after a successful run, a second run succeeds exactly when the
    process may write the files the first one has created (new files are
    writable, or both files were there before); it samples its input from
    the next 32,768 words of the bit generator and, when it succeeds,
    replaces both files by its own 32,768-byte buffers. *)
Theorem X7_rerun_overwrites (w : world) :
  fst (run w) = inr tt ->
  let w1 := snd (run w) in
  let w2 := snd (run w1) in
  (fst (run w1) = inr tt <->
   fs_new_writable w = true \/
   (is_Some (fs_files w !! input_path) /\ is_Some (fs_files w !! golden_path))) /\
  input_x_of w1
  = input_x_of (set_bitgen (fun i => bitgen w (Z.to_nat 32768 + i)%nat) w) /\
  (fst (run w1) = inr tt ->
   exists golden,
     golden_of exp_loop log_loop tanh_loop w1 = inr golden /\
     fs_files w2 !! input_path = Some (np.tobytes (input_x_of w1)) /\
     fs_files w2 !! golden_path = Some (np.tobytes golden) /\
     Z.of_nat (length (np.tobytes (input_x_of w1))) = 32768 /\
     Z.of_nat (length (np.tobytes golden)) = 32768).
Proof.
  intros Hok w1 w2.
  split; [|split].
  - pose proof (run_success_world exp_loop log_loop tanh_loop w Hok) as Hw1.
    fold w1 in Hw1.
    apply run_success in Hok as [H1 H2].
    destruct (open_facts.tofile_error_none _ _ _ H1) as [O1 A1].
    destruct (open_facts.tofile_error_none _ _ _ H2) as [O2 A2].
    assert (Hdirs : fs_dirs w1 = fs_dirs w) by (by rewrite Hw1).
    assert (Hlim : fs_limit w1 = fs_limit w) by (by rewrite Hw1).
    assert (Hfiles : fs_files w1
                     = <[golden_path := np.tobytes (golden_tensor w)]>
                         (<[input_path := np.tobytes (input_x_of w)]> (fs_files w))).
    { rewrite Hw1. by rewrite !io_facts.written_files, sampled_files. }
    assert (Hro : forall p, p = input_path \/ p = golden_path ->
              p ∈ fs_readonly w1 <->
              fs_files w !! p = None /\ fs_new_writable w = false).
    { intros p Hp. rewrite Hw1. rewrite io_facts.written_readonly.
      rewrite io_facts.written_files, sampled_files.
      rewrite lookup_insert_ne by apply io_facts.paths_differ.
      change (fs_new_writable (written _ _ _)) with (fs_new_writable w).
      rewrite io_facts.written_readonly.
      change (fs_readonly (sampled w)) with (fs_readonly w).
      change (fs_new_writable (sampled w)) with (fs_new_writable w).
      rewrite sampled_files.
      pose proof io_facts.paths_differ as Hne.
      assert (Hin : forall bs, fs_files w !! input_path = Some bs ->
                               input_path ∉ fs_readonly w)
        by (intros bs; by apply rerun_facts.writable_if_there).
      assert (Hgo : forall bs, fs_files w !! golden_path = Some bs ->
                               golden_path ∉ fs_readonly w)
        by (intros bs; by apply rerun_facts.writable_if_there).
      destruct (fs_files w !! golden_path) as [bg|] eqn:Eg,
               (fs_files w !! input_path) as [bi|] eqn:Ei,
               (fs_new_writable w) eqn:En;
        rewrite ?elem_of_union, ?elem_of_difference, ?elem_of_singleton;
        destruct Hp as [-> | ->]; rewrite ?Eg, ?Ei;
        try specialize (Hin _ eq_refl); try specialize (Hgo _ eq_refl);
        split; intros; intuition (try discriminate; try congruence). }
    assert (Hopen : forall p, p = input_path \/ p = golden_path ->
              np.open_error w p = None ->
              np.open_error w1 p = None <->
              (is_Some (fs_files w !! p) \/ fs_new_writable w = true)).
    { intros p Hp Ho.
      assert (Hthere : exists bs, fs_files w1 !! p = Some bs).
      { rewrite Hfiles. destruct Hp as [-> | ->].
        - rewrite lookup_insert_ne by (symmetry; apply io_facts.paths_differ).
          rewrite lookup_insert_eq. by eexists.
        - rewrite lookup_insert_eq. by eexists. }
      destruct Hthere as [bs Hbs].
      rewrite (rerun_facts.open_error_there w1 p bs); [| | |exact Hbs].
      - destruct (decide (p ∈ fs_readonly w1)) as [Hin|Hout].
        + rewrite bool_decide_eq_true_2 by exact Hin.
          apply Hro in Hin as [Hn Hf]; [|exact Hp].
          split; [discriminate|].
          intros [[b Hb]|Ht]; congruence.
        + rewrite bool_decide_eq_false_2 by exact Hout.
          split; [intros _|reflexivity].
          destruct (fs_files w !! p) eqn:Ef; [left; by eexists|right].
          destruct (fs_new_writable w) eqn:En; [reflexivity|].
          exfalso. apply Hout, Hro; [exact Hp|]. by split.
      - rewrite <- (rerun_facts.walk_of_open w p Ho).
        apply io_facts.walk_frame; [exact Hdirs|].
        intros q Hq. rewrite Hfiles.
        rewrite !lookup_insert_ne; [reflexivity| |].
        + intros <-. destruct Hp as [-> | ->]; revert Hq;
            rewrite ?io_facts.parents_input_path, ?io_facts.parents_golden_path;
            rewrite !elem_of_cons, elem_of_nil; intros Hq;
            repeat destruct Hq as [Hq|Hq]; try discriminate Hq; exact Hq.
        + intros <-. destruct Hp as [-> | ->]; revert Hq;
            rewrite ?io_facts.parents_input_path, ?io_facts.parents_golden_path;
            rewrite !elem_of_cons, elem_of_nil; intros Hq;
            repeat destruct Hq as [Hq|Hq]; try discriminate Hq; exact Hq.
      - rewrite Hdirs. by apply rerun_facts.not_directory. }
    assert (Hlen : forall w', length (np.tobytes (input_x_of w'))
                              = length (np.tobytes (input_x_of w))).
    { intros w'. apply Nat2Z.inj.
      destruct (input_x_facts w') as (Hd' & Hn').
      destruct (input_x_facts w) as (Hd & Hn).
      rewrite (proj2 (tensor_bytes _ Hd' Hn')), (proj2 (tensor_bytes _ Hd Hn)).
      reflexivity. }
    assert (Hlen' : forall w', length (np.tobytes (golden_tensor w'))
                               = length (np.tobytes (golden_tensor w))).
    { intros w'. apply Nat2Z.inj.
      destruct (golden_tensor_facts exp_loop log_loop tanh_loop w') as (Hd' & Hn').
      destruct (golden_tensor_facts exp_loop log_loop tanh_loop w) as (Hd & Hn).
      rewrite (proj2 (tensor_bytes _ Hd' Hn')), (proj2 (tensor_bytes _ Hd Hn)).
      reflexivity. }
    assert (Herr : forall a a' p, p = input_path \/ p = golden_path ->
              length (np.tobytes a') = length (np.tobytes a) ->
              np.tofile_error w a p = None ->
              np.tofile_error w1 a' p = None <->
              (is_Some (fs_files w !! p) \/ fs_new_writable w = true)).
    { intros a a' p Hp Hl Ha.
      destruct (open_facts.tofile_error_none _ _ _ Ha) as [Ho Hacc].
      rewrite <- (Hopen p Hp Ho).
      unfold np.tofile_error in Ha |- *. rewrite Ho in Ha.
      assert (Hk : (length (np.accepted w1 p (np.tobytes a')) <? length (np.tobytes a'))%nat
                   = false).
      { replace (np.accepted w1 p (np.tobytes a'))
          with (np.accepted w p (np.tobytes a'))
          by (unfold np.accepted; by rewrite Hlim).
        rewrite (rerun_facts.accepted_length w p _ _ Hl).
        destruct (_ <? _)%nat; [discriminate Ha|reflexivity]. }
      rewrite Hk. destruct (np.open_error w1 p); split; done. }
    rewrite run_success.
    rewrite (Herr _ _ _ (or_introl eq_refl) (Hlen w1) H1).
    rewrite (Herr _ _ _ (or_intror eq_refl) (Hlen' w1) H2).
    destruct (fs_new_writable w); intuition.
  - apply input_x_agree. intros k _. unfold w1.
    rewrite run_bitgen. apply sampled_bitgen.
  - intros Hok1.
    destruct (success_files exp_loop log_loop tanh_loop w1 Hok1)
      as (g & Hg & _ & Hi & Hgo & Hn1 & Hn2).
    exists g. repeat split; assumption.
Qed.

(** X11: the golden file is a function of the input file: two successful
    runs that leave the same input file leave the same golden file. *)
Theorem X11_equal_input_files_equal_golden_files (w1 w2 : world) :
  fst (gen_golden_data_simple exp_loop log_loop tanh_loop w1) = inr tt ->
  fst (gen_golden_data_simple exp_loop log_loop tanh_loop w2) = inr tt ->
  fs_files (snd (gen_golden_data_simple exp_loop log_loop tanh_loop w1)) !! input_path
  = fs_files (snd (gen_golden_data_simple exp_loop log_loop tanh_loop w2)) !! input_path ->
  fs_files (snd (gen_golden_data_simple exp_loop log_loop tanh_loop w1)) !! golden_path
  = fs_files (snd (gen_golden_data_simple exp_loop log_loop tanh_loop w2)) !! golden_path.
Proof.
  intros H1 H2 Hin.
  destruct (success_files exp_loop log_loop tanh_loop w1 H1) as (g1 & Hg1 & _ & Hi1 & Ho1 & _).
  destruct (success_files exp_loop log_loop tanh_loop w2 H2) as (g2 & Hg2 & _ & Hi2 & Ho2 & _).
  rewrite Hi1, Hi2 in Hin. apply (inj Some) in Hin.
  assert (Hx : input_x_of w1 = input_x_of w2).
  { destruct (input_x_facts w1) as [Hd1 _]. destruct (input_x_facts w2) as [Hd2 _].
    unfold np.tobytes in Hin. rewrite Hd1, Hd2 in Hin. cbn [itemsize] in Hin.
    apply bytes.buffer16_inj in Hin; [|apply input_x_16bit..].
    rewrite !input_x_of_eq in Hin |- *. cbn [arr_data] in Hin. by rewrite Hin. }
  rewrite Ho1, Ho2. unfold golden_of in Hg1, Hg2.
  rewrite Hx, Hg2 in Hg1. apply (inj inr) in Hg1. by rewrite Hg1.
Qed.

End ScriptExtras.

(** X1: whatever the bit generator outputs, [np.random.uniform(1, 10, ...)]
    fills a float64 array with valid finite doubles between 1.0 and 10.0,
    both ends included. *)
Theorem X1_uniform_draws_in_closed_range (w : world) :
  exists u,
    fst (np.uniform 1 10 [8; 2048]%nat w) = inr u /\
    arr_dtype u = float64 /\
    Forall (fun b => let d := Fmt.decode Fmt.binary64 b in
                     valid_binary 53 1024 d = true /\ Fmt.is_finite d = true /\
                     SFleb one64 d = true /\ SFleb d ten64 = true)
      (arr_data u).
Proof.
  eexists. split; [reflexivity|]. split; [reflexivity|].
  cbn [arr_data]. apply list_facts.Forall_map_seq. intros i.
  unfold np.draw. rewrite sampling.range_eq, sampling.lower_eq.
  destruct (sampling.random_uniform_range _
              (sampling.next_double_range (bitgen w (2 * i)%nat) (bitgen w (2 * i + 1)%nat)))
    as (m & e & -> & Hb & Hlo & Hhi).
  rewrite (decode_encode_finite Fmt.binary64) by done.
  cbv zeta. split; [exact Hb|]. split; [reflexivity|].
  unfold one64, ten64.
  split; apply (SFleb_dle Fmt.binary64); done.
Qed.

(** X2: the cast of a double to half precision never crosses a
    half-precision number: a valid positive double that lies between two
    positive finite half-precision numbers is stored between them. *)
Theorem X2_cast_to_half_enclosed (m : positive) (e lo hi : Z) :
  bounded 53 1024 m e = true ->
  0 < lo <= 31743 -> 0 < hi <= 31743 ->
  Qle_bool (SF2Q (Fmt.decode Fmt.binary16 lo)) (SF2Q (S754_finite false m e)) = true ->
  Qle_bool (SF2Q (S754_finite false m e)) (SF2Q (Fmt.decode Fmt.binary16 hi)) = true ->
  lo <= np.cast float64 float16 (Fmt.encode Fmt.binary64 (S754_finite false m e)) <= hi.
Proof.
  intros Hb Hlo Hhi Hl Hh.
  destruct (half_codec.decode_positive lo Hlo) as (ml & el & Dl & Bl & El).
  destruct (half_codec.decode_positive hi Hhi) as (mh & eh & Dh & Bh & Eh).
  rewrite Dl in Hl. rewrite Dh in Hh.
  apply exact_value.finite_Qle in Hl, Hh.
  destruct (bounded_cases Fmt.binary16 ltac:(done) ltac:(done) ml el Bl) as (Hel & Hml & _).
  destruct (bounded_cases Fmt.binary16 ltac:(done) ltac:(done) mh eh Bh) as (Heh & Hmh & _).
  unfold np.cast. cbn [dtype_eqb format_of]. unfold Fmt.convert.
  rewrite (decode_encode_finite Fmt.binary64) by done.
  cbn [Fmt.round_to cond_Zopp binary_normalize].
  change (Fmt.prec Fmt.binary16) with 11 in *.
  change (Fmt.emax Fmt.binary16) with 16 in *.
  destruct (binary_round_enclosed 11 16 ltac:(lia) m e (Z.pos ml) el (Z.pos mh) eh)
    as (mf & ef & -> & Hbf & Hflo & Hfhi); try done; try lia.
  pose proof (encode_monotone Fmt.binary16 ltac:(done) ltac:(done)
                ml mf el ef Bl Hbf Hflo) as H1.
  pose proof (encode_monotone Fmt.binary16 ltac:(done) ltac:(done)
                mf mh ef eh Hbf Bh Hfhi) as H2.
  rewrite El in H1. rewrite Eh in H2. lia.
Qed.

Lemma X2_witness :
  16968 <= np.cast float64 float16
             (Fmt.encode Fmt.binary64 (S754_finite false 7074237752028440 (-51)))
        <= 16969.
Proof.
  apply (X2_cast_to_half_enclosed 7074237752028440 (-51) 16968 16969);
    try reflexivity; lia.
Defined.

(** X3: the input tensor is made from the first 32,768 words of the bit
    generator: two runs whose generators agree on them sample the same
    tensor, whatever comes after and whatever the file system holds. *)
Theorem X3_input_from_first_words (w1 w2 : world) :
  (forall k : nat, Z.of_nat k < 32768 -> bitgen w1 k = bitgen w2 k) ->
  input_x_of w1 = input_x_of w2.
Proof. apply input_x_agree. Qed.

Lemma late_words (k : nat) :
  Z.of_nat k < 32768 -> bitgen world_ready k = bitgen world_late k.
Proof.
  intros Hk. cbn [world_ready world_late bitgen].
  destruct (Z.ltb_spec (Z.of_nat k) 40000); [reflexivity|lia].
Qed.

Lemma X3_witness : input_x_of world_ready = input_x_of world_late.
Proof. apply (X3_input_from_first_words world_ready world_late late_words). Defined.


Section MishFacts.

Variables exp_loop log_loop tanh_loop : dtype -> Z -> Z.


End MishFacts.

Section MishExtras.

Variables exp_loop log_loop tanh_loop : dtype -> Z -> Z.

Hypothesis exp_faithful : faithful Fmt.binary16 exp (exp_loop float16).
Hypothesis log_faithful : faithful Fmt.binary16 ln (log_loop float16).
Hypothesis tanh_faithful : faithful Fmt.binary16 tanh (tanh_loop float16).


(** X9: with a numeric library that rounds faithfully, every golden
    element lies between one half and the input element it comes from:
    the Mish of a value of [1, 10] is never above that value. *)
Theorem X9_golden_between_half_and_input (w : world) :
  Forall (fun x =>
            half_le (half_of_int 1) x = true /\
            half_le 14336 (mish16 exp_loop log_loop tanh_loop x) = true /\
            half_le (mish16 exp_loop log_loop tanh_loop x) x = true)
    (arr_data (input_x_of w)).
Proof.
  apply input_x_elements. intros i.
  pose proof (sampling.sample16_range (bitgen w) i) as Hx.
  destruct (mish16_chain exp_loop log_loop tanh_loop
              exp_faithful log_faithful tanh_faithful _ Hx)
    as (He & Hs & Hl & Ht & Hg).
  split; [apply (half_range_facts _ Hx)|]. split.
  - assert (H : all_from (fun g => half_le 14336 g) 14336 (Z.to_nat 4353) = true)
      by (vm_compute; reflexivity).
    apply (half_enum.all_from_spec _ _ _ H).
    change (Z.of_nat (Z.to_nat 4353)) with 4353.
    unfold mish16. change (Fmt.encode Fmt.binary16 (Fmt.of_int Fmt.binary16 1)) with 15360.
    lia.
  - unfold mish16. change (Fmt.encode Fmt.binary16 (Fmt.of_int Fmt.binary16 1)) with 15360.
    by apply half_order.mul_le_left.
Qed.

End MishExtras.

(** X10: the input file determines the sampled tensor: two runs whose
    input buffers are byte for byte the same sampled the same tensor. *)
Theorem X10_input_file_determines_tensor (w1 w2 : world) :
  np.tobytes (input_x_of w1) = np.tobytes (input_x_of w2) ->
  input_x_of w1 = input_x_of w2.
Proof.
  intros H.
  destruct (input_x_facts w1) as [Hd1 _]. destruct (input_x_facts w2) as [Hd2 _].
  unfold np.tobytes in H. rewrite Hd1, Hd2 in H. cbn [itemsize] in H.
  apply bytes.buffer16_inj in H; [|apply input_x_16bit..].
  rewrite !input_x_of_eq in H |- *. cbn [arr_data] in H. by rewrite H.
Qed.

Lemma X10_witness : input_x_of world_ready = input_x_of world_late.
Proof.
  apply (X10_input_file_determines_tensor world_ready world_late).
  by rewrite (input_x_agree world_ready world_late late_words).
Defined.

(** ** The statements on particular worlds and libraries *)

Lemma ready_run_succeeds (exp_loop log_loop tanh_loop : dtype -> Z -> Z) :
  fst (gen_golden_data_simple exp_loop log_loop tanh_loop world_ready) = inr tt.
Proof.
  apply run_success.
  rewrite !open_facts.tofile_error_unlimited by reflexivity.
  split; vm_compute; reflexivity.
Qed.

Lemma late_run_succeeds (exp_loop log_loop tanh_loop : dtype -> Z -> Z) :
  fst (gen_golden_data_simple exp_loop log_loop tanh_loop world_late) = inr tt.
Proof.
  apply run_success.
  rewrite !open_facts.tofile_error_unlimited by reflexivity.
  split; vm_compute; reflexivity.
Qed.

Lemma C1_witness :
  exists golden,
    golden_of ref_exp ref_log ref_tanh world_ready = inr golden /\
    length (arr_data golden) = length (arr_data (input_x_of world_ready)) /\
    forall (i : nat) (x : Z),
      arr_data (input_x_of world_ready) !! i = Some x ->
      exists g : Z,
        arr_data golden !! i = Some g /\
        g = mish16 ref_exp ref_log ref_tanh x /\
        mish_steps x g /\
        (Rabs (value Fmt.binary16 g - mish_exact (value Fmt.binary16 x))
         <= value Fmt.binary16 x / 64)%R.
Proof.
  apply (C1_golden_is_elementwise_mish ref_exp ref_log ref_tanh
           (reference.ref_loop_faithful exp) (reference.ref_loop_faithful ln)
           (reference.ref_loop_faithful tanh) world_ready).
Defined.

Lemma C2_witness :
  exists golden,
    golden_of ref_exp ref_log ref_tanh world_ready = inr golden /\
    fs_files (snd (gen_golden_data_simple ref_exp ref_log ref_tanh world_ready))
    = <[golden_path := np.tobytes golden]>
        (<[input_path := np.tobytes (input_x_of world_ready)]> (fs_files world_ready)) /\
    fs_files (snd (gen_golden_data_simple ref_exp ref_log ref_tanh world_ready))
      !! input_path
    = Some (np.tobytes (input_x_of world_ready)) /\
    fs_files (snd (gen_golden_data_simple ref_exp ref_log ref_tanh world_ready))
      !! golden_path
    = Some (np.tobytes golden) /\
    Z.of_nat (length (arr_data (input_x_of world_ready))) = 16384 /\
    Z.of_nat (length (arr_data golden)) = 16384 /\
    Z.of_nat (length (np.tobytes (input_x_of world_ready))) = 32768 /\
    Z.of_nat (length (np.tobytes golden)) = 32768 /\
    (forall (i : nat) (x : Z),
       arr_data (input_x_of world_ready) !! i = Some x ->
       0 <= x < 65536 /\
       Byte.to_N <$> np.tobytes (input_x_of world_ready) !! (2 * i)%nat
       = Some (Z.to_N (x mod 256)) /\
       Byte.to_N <$> np.tobytes (input_x_of world_ready) !! (2 * i + 1)%nat
       = Some (Z.to_N (x / 256))) /\
    (forall (i : nat) (g : Z),
       arr_data golden !! i = Some g ->
       Byte.to_N <$> np.tobytes golden !! (2 * i)%nat
       = Some (Z.to_N (g mod 256)) /\
       Byte.to_N <$> np.tobytes golden !! (2 * i + 1)%nat
       = Some (Z.to_N (g / 256 mod 256))) /\
    (faithful Fmt.binary16 exp (ref_exp float16) ->
     faithful Fmt.binary16 ln (ref_log float16) ->
     faithful Fmt.binary16 tanh (ref_tanh float16) ->
     Forall (fun g => 0 <= g < 65536) (arr_data golden)).
Proof.
  apply (C2_two_raw_files ref_exp ref_log ref_tanh world_ready).
  apply ready_run_succeeds.
Defined.

Lemma C6_witness :
  Forall (fun x =>
            let e := ref_exp float16 x in
            let s := Fmt.add Fmt.binary16 (half_of_int 1) e in
            let l := ref_log float16 s in
            let t := ref_tanh float16 l in
            half_finite e = true /\ half_finite s = true /\
            half_finite l = true /\ half_finite t = true /\
            half_finite (Fmt.mul Fmt.binary16 x t) = true /\
            Fmt.mul Fmt.binary16 x t = mish16 ref_exp ref_log ref_tanh x)
    (arr_data (input_x_of world_ready)).
Proof.
  apply (C6_no_overflow ref_exp ref_log ref_tanh
           (reference.ref_loop_faithful exp) (reference.ref_loop_faithful ln)
           (reference.ref_loop_faithful tanh) world_ready).
Defined.

Lemma C7_witness :
  exists golden,
    golden_of ref_exp ref_log ref_tanh world_ready = inr golden /\
    golden_of ref_exp ref_log ref_tanh world_late = inr golden /\
    forall i : nat,
      arr_data golden !! i
      = mish16 ref_exp ref_log ref_tanh <$> (arr_data (input_x_of world_ready) !! i).
Proof.
  apply (C7_golden_determined_by_input ref_exp ref_log ref_tanh world_ready world_late).
  apply input_x_agree. intros k Hk. cbn [world_ready world_late bitgen].
  destruct (Z.ltb_spec (Z.of_nat k) 40000); [reflexivity|lia].
Defined.

Lemma C9_witness :
  fst (gen_golden_data_simple ref_exp ref_log ref_tanh world_locked_golden)
  = inl (PermissionError golden_path) /\
  fs_files (snd (gen_golden_data_simple ref_exp ref_log ref_tanh world_locked_golden))
    !! input_path
  = Some (np.tobytes (input_x_of world_locked_golden)) /\
  Z.of_nat (length (np.tobytes (input_x_of world_locked_golden))) = 32768 /\
  (np.open_error world_locked_golden golden_path = Some (PermissionError golden_path) ->
   fs_files (snd (gen_golden_data_simple ref_exp ref_log ref_tanh world_locked_golden))
   = <[input_path := np.tobytes (input_x_of world_locked_golden)]>
       (fs_files world_locked_golden) /\
   fs_files (snd (gen_golden_data_simple ref_exp ref_log ref_tanh world_locked_golden))
     !! golden_path
   = fs_files world_locked_golden !! golden_path) /\
  (np.open_error world_locked_golden golden_path = None ->
   exists k : nat,
     (k < length (np.tobytes
                    (mk_ndarray float16 [8; 2048]%nat
                       (map (mish16 ref_exp ref_log ref_tanh)
                          (arr_data (input_x_of world_locked_golden))))))%nat /\
     fs_files (snd (gen_golden_data_simple ref_exp ref_log ref_tanh world_locked_golden))
       !! golden_path
     = Some (take k (np.tobytes
                       (mk_ndarray float16 [8; 2048]%nat
                          (map (mish16 ref_exp ref_log ref_tanh)
                             (arr_data (input_x_of world_locked_golden))))))).
Proof.
  apply (C9_input_written_before_golden ref_exp ref_log ref_tanh world_locked_golden).
  - apply golden_of_eq.
  - rewrite open_facts.tofile_error_unlimited by reflexivity.
    vm_compute. reflexivity.
  - rewrite open_facts.tofile_error_unlimited by reflexivity.
    vm_compute. reflexivity.
Defined.

Lemma C10_witness :
  exists golden,
    golden_of ref_exp ref_log ref_tanh world_ready = inr golden /\
    Forall (fun g => half_finite g = true /\ half_lt 0 g = true) (arr_data golden) /\
    Forall (fun x =>
              let s := Fmt.add Fmt.binary16 (half_of_int 1) (ref_exp float16 x) in
              let t := ref_tanh float16 (ref_log float16 s) in
              half_lt 0 s = true /\
              half_lt 0 t = true /\ half_le t (half_of_int 1) = true /\
              let v := value Fmt.binary16 x in
              (1 <= v <= 10 /\
               1 + exp 1 <= 1 + exp v /\
               0 < ln (1 + exp v) /\
               0 < tanh (ln (1 + exp v)) < 1 /\
               0 < v * tanh (ln (1 + exp v)))%R)
      (arr_data (input_x_of world_ready)).
Proof.
  apply (C10_golden_finite_positive ref_exp ref_log ref_tanh
           (reference.ref_loop_faithful exp) (reference.ref_loop_faithful ln)
           (reference.ref_loop_faithful tanh) world_ready).
Defined.

Lemma X5_witness :
  fst (gen_golden_data_simple ref_exp ref_log ref_tanh world_readonly_dirs) = inr tt <->
  target_writable world_readonly_dirs input_path /\
  target_writable world_readonly_dirs golden_path.
Proof.
  apply (X5_succeeds_iff_targets_writable ref_exp ref_log ref_tanh world_readonly_dirs);
    try reflexivity.
  intros d Hd. rewrite !elem_of_cons, elem_of_nil in Hd.
  destruct Hd as [->|[->|[->|[->|[]]]]]; eexists; split; reflexivity.
Defined.

Lemma X6_witness :
  fst (gen_golden_data_simple ref_exp ref_log ref_tanh world_no_input)
  = inl (FileNotFoundError input_path) /\
  fs_files (snd (gen_golden_data_simple ref_exp ref_log ref_tanh world_no_input))
    !! golden_path
  = fs_files world_no_input !! golden_path /\
  (np.open_error world_no_input input_path = Some (FileNotFoundError input_path) ->
   fs_files (snd (gen_golden_data_simple ref_exp ref_log ref_tanh world_no_input))
   = fs_files world_no_input /\
   fs_readonly (snd (gen_golden_data_simple ref_exp ref_log ref_tanh world_no_input))
   = fs_readonly world_no_input).
Proof.
  apply (X6_nothing_written_after_first_failure ref_exp ref_log ref_tanh world_no_input).
  apply open_facts.tofile_error_open. vm_compute. reflexivity.
Defined.

Lemma X7_witness :
  (fst (gen_golden_data_simple ref_exp ref_log ref_tanh
          (snd (gen_golden_data_simple ref_exp ref_log ref_tanh world_ready))) = inr tt <->
   fs_new_writable world_ready = true \/
   (is_Some (fs_files world_ready !! input_path) /\
    is_Some (fs_files world_ready !! golden_path))) /\
  input_x_of (snd (gen_golden_data_simple ref_exp ref_log ref_tanh world_ready))
  = input_x_of (set_bitgen (fun i => bitgen world_ready (Z.to_nat 32768 + i)%nat)
                  world_ready) /\
  (fst (gen_golden_data_simple ref_exp ref_log ref_tanh
          (snd (gen_golden_data_simple ref_exp ref_log ref_tanh world_ready))) = inr tt ->
   exists golden,
     golden_of ref_exp ref_log ref_tanh
       (snd (gen_golden_data_simple ref_exp ref_log ref_tanh world_ready)) = inr golden /\
     fs_files (snd (gen_golden_data_simple ref_exp ref_log ref_tanh
                      (snd (gen_golden_data_simple ref_exp ref_log ref_tanh world_ready))))
       !! input_path
     = Some (np.tobytes
               (input_x_of
                  (snd (gen_golden_data_simple ref_exp ref_log ref_tanh world_ready)))) /\
     fs_files (snd (gen_golden_data_simple ref_exp ref_log ref_tanh
                      (snd (gen_golden_data_simple ref_exp ref_log ref_tanh world_ready))))
       !! golden_path
     = Some (np.tobytes golden) /\
     Z.of_nat (length (np.tobytes
                         (input_x_of
                            (snd (gen_golden_data_simple ref_exp ref_log ref_tanh
                                    world_ready))))) = 32768 /\
     Z.of_nat (length (np.tobytes golden)) = 32768).
Proof.
  apply (X7_rerun_overwrites ref_exp ref_log ref_tanh world_ready).
  apply ready_run_succeeds.
Defined.



Lemma X9_witness :
  Forall (fun x =>
            half_le (half_of_int 1) x = true /\
            half_le 14336 (mish16 ref_exp ref_log ref_tanh x) = true /\
            half_le (mish16 ref_exp ref_log ref_tanh x) x = true)
    (arr_data (input_x_of world_ready)).
Proof.
  apply (X9_golden_between_half_and_input ref_exp ref_log ref_tanh
           (reference.ref_loop_faithful exp) (reference.ref_loop_faithful ln)
           (reference.ref_loop_faithful tanh) world_ready).
Defined.

Lemma X11_witness :
  fs_files (snd (gen_golden_data_simple ref_exp ref_log ref_tanh world_ready)) !! golden_path
  = fs_files (snd (gen_golden_data_simple ref_exp ref_log ref_tanh world_late)) !! golden_path.
Proof.
  apply (X11_equal_input_files_equal_golden_files ref_exp ref_log ref_tanh
           world_ready world_late).
  - apply ready_run_succeeds.
  - apply late_run_succeeds.
  - destruct (success_files ref_exp ref_log ref_tanh world_ready
                (ready_run_succeeds _ _ _)) as (g1 & _ & _ & -> & _).
    destruct (success_files ref_exp ref_log ref_tanh world_late
                (late_run_succeeds _ _ _)) as (g2 & _ & _ & -> & _).
    by rewrite (input_x_agree world_ready world_late late_words).
Defined.
